(** * ChatClient: the framing and transport code of [validate.c] and [network.c]

    A shallow embedding of the functions that build a chat frame
    ([_validateMsg], [_prependByteCountMsg]), send it ([chatSend]) and receive
    one ([_chatReceiveHelper], [chatReceive]), together with the C library
    functions they call on character arrays.

    Conventions of the embedding:
    - a [char] array of the program is the list of its cells, so the length of
      the list is the size of the array; an access past the last cell is
      undefined behaviour and is reported as [Undefined OutOfBounds];
    - [int] and [long] variables are integers of [Z]; size and index values
      are natural numbers;
    - the connected socket is a script of what the successive calls of
      [recv] and [send] will do, consumed call by call, and a record of what
      was put on the wire. *)

From Stdlib Require Import ZArith Ascii String List Bool Arith Lia.
Import ListNotations.

Set Implicit Arguments.

(** ** Outcomes of a C computation *)

Inductive undefined : Type :=
| OutOfBounds      (* an array is read or written past its last cell *)
| Uninitialized    (* an automatic variable is read before any assignment *)
| SignedOverflow.  (* an [int] operation leaves the range of [int] *)

Inductive outcome (A : Type) : Type :=
| Ok (a : A)                (* the call returns *)
| Undefined (u : undefined) (* the call has undefined behaviour *)
| Blocked                   (* the call waits for ever inside the socket *)
| Exited (code : Z)         (* the call ends the process with [exit] *)
| OutOfFuel.                (* only for loops run with too little fuel *)

Arguments Ok {A} a.
Arguments Undefined {A} u.
Arguments Blocked {A}.
Arguments Exited {A} code.
Arguments OutOfFuel {A}.

Definition bind {A B : Type} (m : outcome A) (k : A -> outcome B) : outcome B :=
  match m with
  | Ok a => k a
  | Undefined u => Undefined u
  | Blocked => Blocked
  | Exited code => Exited code
  | OutOfFuel => OutOfFuel
  end.

Notation "x <- m ;; k" := (bind m (fun x => k))
  (at level 61, m at next level, right associativity).
Notation "' pat <- m ;; k" := (bind m (fun x => match x with pat => k end))
  (at level 61, pat pattern, m at next level, right associativity).

(** ** Constants of [validate.h] *)

Definition MAX_BYTES : nat := 516.
Definition MAX_MSG : nat := 500.
Definition PREFIX_OFFSET : nat := 3.

(** Range of [int] (32 bits) and of [long] (64 bits, LP64). *)
Definition INT_MIN : Z := - 2 ^ 31.
Definition INT_MAX : Z := 2 ^ 31 - 1.
Definition LONG_MIN : Z := - 2 ^ 63.
Definition LONG_MAX : Z := 2 ^ 63 - 1.

(** The result of an [int] addition or subtraction: signed overflow is
    undefined. *)
Definition int_result (z : Z) : outcome Z :=
  if (INT_MIN <=? z)%Z && (z <=? INT_MAX)%Z then Ok z else Undefined SignedOverflow.

(** Conversion of a [long] to an [int] parameter: the value modulo [2^32],
    as the usual compilers define it. *)
Definition long_to_int (z : Z) : Z :=
  ((z + 2 ^ 31) mod 2 ^ 32 - 2 ^ 31)%Z.

(** ** Characters and character arrays *)

(** A [char] of the program is a byte. *)
Abbreviation char := ascii (only parsing).

Definition NUL : char := Ascii.zero.

Definition is_nul (c : char) : bool := Ascii.eqb c NUL.

(** [nul_free s]: no character of [s] is the terminator. *)
Definition nul_free (s : list char) : bool :=
  forallb (fun c => negb (is_nul c)) s.

(** The string an array holds: its characters before the first [NUL].
    [None] when the array has no [NUL], where a C string function would run
    past its end. *)
Fixpoint cstr (a : list char) : option (list char) :=
  match a with
  | [] => None
  | c :: a' =>
      if is_nul c then Some []
      else match cstr a' with
           | Some s => Some (c :: s)
           | None => None
           end
  end.

(** [strlen(a)] *)
Definition strlen (a : list char) : outcome nat :=
  match cstr a with
  | Some s => Ok (length s)
  | None => Undefined OutOfBounds
  end.

(** Writing the characters [s] and then [NUL] into [a] from index [off]. *)
Definition write_string (a : list char) (off : nat) (s : list char) : outcome (list char) :=
  if off + length s + 1 <=? length a
  then Ok (firstn off a ++ s ++ NUL :: skipn (off + length s + 1) a)
  else Undefined OutOfBounds.

(** [strcat(dst, src)] *)
Definition strcat (dst src : list char) : outcome (list char) :=
  match cstr dst, cstr src with
  | Some d, Some s => write_string dst (length d) s
  | _, _ => Undefined OutOfBounds
  end.

(** [strcpy(dst, src)] *)
Definition strcpy (dst src : list char) : outcome (list char) :=
  match cstr src with
  | Some s => write_string dst 0 s
  | None => Undefined OutOfBounds
  end.

(** [memset(a, c, n)] with an [int] count: a negative count converts to a
    huge [size_t] and runs past the array. *)
Definition memset (a : list char) (c : char) (n : Z) : outcome (list char) :=
  if ((0 <=? n)%Z && (n <=? Z.of_nat (length a))%Z)
  then Ok (repeat c (Z.to_nat n) ++ skipn (Z.to_nat n) a)
  else Undefined OutOfBounds.

(** *** [sprintf(buffer, "%03d", n)] for a count [n] *)

Definition digit_char (d : nat) : char := ascii_of_nat (48 + d).

Fixpoint decimal_digits (fuel n : nat) (acc : list char) : list char :=
  match fuel with
  | O => acc
  | S fuel' =>
      let acc' := digit_char (n mod 10) :: acc in
      if n / 10 =? 0 then acc' else decimal_digits fuel' (n / 10) acc'
  end.

(** The characters that the conversion [%03d] prints for [n]: the decimal
    digits, most significant first, padded on the left with ['0'] to a width
    of at least 3. *)
Definition format_03d (n : nat) : list char :=
  let ds := decimal_digits (S n) n [] in
  repeat "0"%char (3 - length ds) ++ ds.

(** The argument of the program is a [size_t] printed with [%d]; the counts
    at hand are far below [INT_MAX], where the two agree. *)
Definition sprintf_03d (buffer : list char) (n : nat) : outcome (list char) :=
  write_string buffer 0 (format_03d n).

(** *** [strtol(a, NULL, 10)] *)

Definition isspace (c : char) : bool :=
  let n := nat_of_ascii c in (n =? 32) || ((9 <=? n) && (n <=? 13)).

Definition isdigit (c : char) : bool :=
  let n := nat_of_ascii c in (48 <=? n) && (n <=? 57).

Fixpoint skip_spaces (s : list char) : list char :=
  match s with
  | c :: s' => if isspace c then skip_spaces s' else s
  | [] => []
  end.

(** The value of the longest run of decimal digits that starts [s]. *)
Fixpoint leading_digits (s : list char) (acc : Z) : Z :=
  match s with
  | c :: s' =>
      if isdigit c
      then leading_digits s' (10 * acc + Z.of_nat (nat_of_ascii c - 48))%Z
      else acc
  | [] => acc
  end.

Definition clamp_long (z : Z) : Z := Z.max LONG_MIN (Z.min LONG_MAX z).

(** The conversion on the string itself: white space is skipped, a sign is
    accepted, the longest run of digits is converted (0 when there is none)
    and whatever follows is ignored. *)
Definition strtol_string (s : list char) : Z :=
  match skip_spaces s with
  | c :: s' =>
      if Ascii.eqb c "-" then clamp_long (- leading_digits s' 0)
      else if Ascii.eqb c "+" then clamp_long (leading_digits s' 0)
      else clamp_long (leading_digits (c :: s') 0)
  | [] => 0%Z
  end.

Definition strtol (a : list char) : outcome Z :=
  match cstr a with
  | Some s => Ok (strtol_string s)
  | None => Undefined OutOfBounds
  end.

(** ** The connected socket and the standard streams *)

(** What one call of [recv] finds: bytes that have arrived, an orderly
    shutdown by the peer (return value 0) or a failure (return value -1). *)
Inductive recv_event : Type :=
| RecvBytes (bs : list char)
| RecvZero
| RecvFail.

(** What one call of [send] does: the kernel takes at most [k] bytes, or the
    call fails (return value -1). *)
Inductive send_event : Type :=
| SendAccepts (k : nat)
| SendFail.

Record world : Type := mkWorld {
  rx : list recv_event;   (* what the coming calls of [recv] find *)
  tx : list send_event;   (* what the coming calls of [send] do *)
  wire : list char;       (* the bytes sent so far, in order *)
  recv_log : list nat;    (* the lengths asked of [recv], in call order *)
  stdout : list string;   (* what was printed on the standard output *)
  stderr : list string    (* what was printed on the standard error *)
}.

Definition set_rx (w : world) (r : list recv_event) : world :=
  mkWorld r (tx w) (wire w) (recv_log w) (stdout w) (stderr w).

Definition log_recv (w : world) (len : nat) : world :=
  mkWorld (rx w) (tx w) (wire w) (recv_log w ++ [len]) (stdout w) (stderr w).

Definition sent (w : world) (rest : list send_event) (bs : list char) : world :=
  mkWorld (rx w) rest (wire w ++ bs) (recv_log w) (stdout w) (stderr w).

Definition set_tx (w : world) (rest : list send_event) : world :=
  mkWorld (rx w) rest (wire w) (recv_log w) (stdout w) (stderr w).

Definition printf (w : world) (text : string) : world :=
  mkWorld (rx w) (tx w) (wire w) (recv_log w) (stdout w ++ [text]) (stderr w).

Definition fprintf_stderr (w : world) (text : string) : world :=
  mkWorld (rx w) (tx w) (wire w) (recv_log w) (stdout w) (stderr w ++ [text]).

Definition newline : string := String "010"%char EmptyString.

(** The text that [_chatReceiveHelper] prints when [recv] returns 0. *)
Definition server_ended : string := ("Server ended connection." ++ newline)%string.

(** The script after [k] bytes of the chunk [c] were taken: what is left of
    the chunk, if anything, is found by the next call. *)
Definition after_chunk (k : nat) (c : list char) (r : list recv_event)
  : list recv_event :=
  match skipn k c with
  | [] => r
  | bs' => RecvBytes bs' :: r
  end.

(** [recv(sockfd, buffer, len, 0)]: at most [len] of the bytes that have
    arrived are copied to the start of [buffer]; what was not taken stays
    for the next call. *)
Definition recv (w : world) (buffer : list char) (len : nat)
  : outcome (Z * list char * world) :=
  let w := log_recv w len in
  match rx w with
  | [] => Blocked
  | RecvFail :: rest => Ok ((-1)%Z, buffer, set_rx w rest)
  | RecvZero :: rest => Ok (0%Z, buffer, set_rx w rest)
  | RecvBytes bs :: rest =>
      let k := Nat.min len (length bs) in
      if k <=? length buffer
      then Ok (Z.of_nat k, firstn k bs ++ skipn k buffer,
               set_rx w (after_chunk k bs rest))
      else Undefined OutOfBounds
  end.

(** [send(sockfd, data, len, 0)], where [data] is the array from the address
    given to the call onwards. *)
Definition send (w : world) (data : list char) (len : nat) : outcome (Z * world) :=
  match tx w with
  | [] => Blocked
  | SendFail :: rest => Ok ((-1)%Z, set_tx w rest)
  | SendAccepts k :: rest =>
      let n := Nat.min k len in
      if n <=? length data
      then Ok (Z.of_nat n, sent w rest (firstn n data))
      else Undefined OutOfBounds
  end.

(** The size of a receive script: every call of [recv] that asks for at
    least one byte makes it smaller. *)
Fixpoint rx_weight (r : list recv_event) : nat :=
  match r with
  | [] => 0
  | RecvBytes bs :: r' => S (length bs + rx_weight r')
  | _ :: r' => S (rx_weight r')
  end.

(** ** [validate.c] *)

(** [_validateMsg(msg)]; [None] is the null pointer. *)
Definition _validateMsg (w : world) (msg : option (list char)) : outcome (Z * world) :=
  let invalid :=
    Ok (0%Z, fprintf_stderr w ("chatclient: Invalid message length" ++ newline)) in
  match msg with
  | Some a =>
      n <- strlen a ;;
      if n <=? MAX_MSG then Ok (1%Z, w) else invalid
  | None => invalid
  end.

(** [_prependByteCountMsg(msg, msgLen)]. The local array [buffer] is not
    initialised: [stack] is whatever its [MAX_BYTES] cells hold on entry.
    The result is the new content of [msg]. *)
Definition _prependByteCountMsg (stack : list char) (msg : list char) (msgLen : Z)
  : outcome (list char) :=
  let buffer := stack in
  n <- strlen msg ;;
  buffer <- sprintf_03d buffer (n + 1) ;;
  buffer <- strcat buffer msg ;;
  msg <- memset msg NUL msgLen ;;
  strcpy msg buffer.

(** ** [network.c] *)

Fixpoint chatSend_loop (fuel : nat) (w : world) (message : list char)
    (msgLen totalSent : Z) : outcome world :=
  if (totalSent <? msgLen)%Z then
    match fuel with
    | O => OutOfFuel
    | S fuel' =>
        '(currSent, w) <- send w (skipn (Z.to_nat totalSent) message)
                                 (Z.to_nat (msgLen - totalSent)) ;;
        if (currSent =? -1)%Z then Exited (-1)  (* perror("send"); exit(-1) *)
        else
          totalSent <- int_result (totalSent + currSent) ;;
          chatSend_loop fuel' w message msgLen totalSent
    end
  else Ok w.

(** [chatSend(sockfd, message, msgLen)]. Every call of [send] consumes one
    event of the script, which bounds the number of iterations. *)
Definition chatSend (w : world) (message : list char) (msgLen : Z) : outcome world :=
  chatSend_loop (S (length (tx w))) w message msgLen 0.

(** The loop of [_chatReceiveHelper]. The scratch array is zeroed at the top
    of every iteration, so what it held before does not matter; [status] is
    [None] until the first assignment. Only the return value 0 of [recv]
    leaves the loop early: any other value, -1 included, is added to
    [bytesReceived] after the [strcat]. *)
Fixpoint _chatReceiveHelper_loop (fuel : nat) (w : world) (message : list char)
    (msgLen bytesReceived : Z) (status : option Z)
  : outcome (Z * list char * world) :=
  if (bytesReceived <? msgLen)%Z then
    match fuel with
    | O => OutOfFuel
    | S fuel' =>
        let buffer := repeat NUL MAX_BYTES in
        len <- int_result (msgLen - bytesReceived) ;;
        '(status, buffer, w) <- recv w buffer (Z.to_nat len) ;;
        if (status =? 0)%Z
        then Ok (status, message, printf w server_ended)
        else
          message <- strcat message buffer ;;
          bytesReceived <- int_result (bytesReceived + status) ;;
          _chatReceiveHelper_loop fuel' w message msgLen bytesReceived (Some status)
    end
  else
    match status with
    | Some status => Ok (status, message, w)
    | None => Undefined Uninitialized
    end.

(** [_chatReceiveHelper(sockfd, message, msgLen)]: the return value, the new
    content of [message] and the new state of the socket. The script of the
    socket is finite and every call of [recv] in the loop shortens it, which
    bounds the number of iterations. *)
Definition _chatReceiveHelper (w : world) (message : list char) (msgLen : Z)
  : outcome (Z * list char * world) :=
  _chatReceiveHelper_loop (S (rx_weight (rx w))) w message msgLen 0 None.

(** [chatReceive(sockfd, message)]. The two local arrays are zeroed on
    entry; the value of [strtol], a [long], is passed for the [int]
    parameter of the helper; [message] is written whatever the second
    status. *)
Definition chatReceive (w : world) (message : list char)
  : outcome (Z * list char * world) :=
  let header := repeat NUL (PREFIX_OFFSET + 1) in
  let body := repeat NUL MAX_BYTES in
  '(status, header, w) <- _chatReceiveHelper w header (Z.of_nat PREFIX_OFFSET) ;;
  if (status =? 0)%Z then Ok (status, message, w)
  else
    msgLen <- strtol header ;;
    '(status, body, w) <- _chatReceiveHelper w body (long_to_int msgLen) ;;
    message <- strcpy message body ;;
    Ok (status, message, w).

(** The call [chatSend(sockfd, buffer, strlen(buffer)+1)] of [main]. *)
Definition main_chatSend (w : world) (buffer : list char) : outcome world :=
  n <- strlen buffer ;;
  chatSend w buffer (Z.of_nat n + 1).

(** * Vocabulary of the properties *)

(** The stream delivers its bytes in the chunks [chunks]: none is empty, so
    every read yields at least one byte. *)
Definition nonempty_chunks (chunks : list (list char)) : bool :=
  forallb (fun c => 0 <? length c) chunks.

(** Every call of [send] takes at least one byte. *)
Definition accepts_some (caps : list nat) : bool :=
  forallb (fun k => 1 <=? k) caps.

Definition char_list_eqb (a b : list char) : bool :=
  String.eqb (string_of_list_ascii a) (string_of_list_ascii b).

(** The three decimal digits of [n], most significant first. *)
Definition three_digits (n : nat) : list char :=
  [digit_char (n / 100); digit_char (n / 10 mod 10); digit_char (n mod 10)].

Definition header_checks (n : nat) : bool :=
  char_list_eqb (format_03d n) (three_digits n)
  && nul_free (format_03d n)
  && forallb isdigit (format_03d n)
  && (strtol_string (format_03d n) =? Z.of_nat n)%Z.

(** The C library functions of the model return or are undefined; they
    never block, exit or run out of fuel. *)
Definition pure_outcome (A : Type) (o : outcome A) : Prop :=
  match o with
  | Ok _ | Undefined _ => True
  | _ => False
  end.

(** Side conditions on concrete data are settled by evaluation. *)
Ltac by_evaluation :=
  first [ reflexivity
        | lia
        | vm_compute; first [ reflexivity | lia | repeat split; (discriminate || lia) ] ].

(** Concrete data for the examples: a user buffer of [main]
    ([MAX_BYTES * 2] cells) that holds a given text, a stack array full of
    junk, and sockets given by their scripts. *)
Definition text (t : string) : list char := list_ascii_of_string t.

Definition user_buffer (t : string) : list char :=
  text t ++ repeat NUL (MAX_BYTES * 2 - length (text t)).

Definition junk : list char := repeat "#"%char MAX_BYTES.

Definition sender (caps : list nat) : world :=
  mkWorld [] (map SendAccepts caps) [] [] [] [].

Definition receiver (r : list recv_event) : world :=
  mkWorld r [] [] [] [] [].

(** What a caller can see of a receive: the status, the string left in the
    message array, and of the socket the rest of the script, the lengths
    that were asked of [recv] and the lines printed. *)
Definition observe (o : outcome (Z * list char * world))
  : outcome (Z * option (list char) * list recv_event * list nat * list string) :=
  ' (status, message, w) <- o ;;
  Ok (status, cstr message, rx w, recv_log w, stdout w).

(** The frame that [_prependByteCountMsg] leaves in the user buffer for the
    text [t], as a string, and the bytes that [main] then sends one at a
    time. *)
Definition frame_and_wire (t : list char) (msgLen : Z)
  : outcome (option (list char) * list char) :=
  frame <- _prependByteCountMsg junk
             (t ++ repeat NUL (MAX_BYTES * 2 - length t)) msgLen ;;
  w <- main_chatSend (sender (repeat 1 (length t + 4))) frame ;;
  Ok (cstr frame, wire w).

(** * The rest of the program *)

(** ** More of [validate.h], [ctype.h] and the C library *)

Definition MIN_PORT : Z := 1.
Definition MAX_PORT : Z := 65535.
Definition MAX_PORT_CHARS : nat := 5.
Definition MAX_HOST_LABEL : nat := 63.
Definition MAX_HANDLE_LEN : nat := 10.

Definition LF : char := "010"%char.

(** [isalpha] and [isalnum] in the "C" locale, the one in force since the
    program never calls [setlocale]. *)
Definition isalpha (c : char) : bool :=
  let n := nat_of_ascii c in
  ((65 <=? n) && (n <=? 90)) || ((97 <=? n) && (n <=? 122)).

Definition isalnum (c : char) : bool := isalpha c || isdigit c.

(** [a[i]] for an index computed in [int] or [size_t]. *)
Definition array_get (a : list char) (i : Z) : outcome char :=
  if (i <? 0)%Z then Undefined OutOfBounds
  else match nth_error a (Z.to_nat i) with
       | Some c => Ok c
       | None => Undefined OutOfBounds
       end.

(** [a[i] = c] *)
Definition array_set (a : list char) (i : Z) (c : char) : outcome (list char) :=
  if (i <? 0)%Z then Undefined OutOfBounds
  else if Z.to_nat i <? length a
       then Ok (firstn (Z.to_nat i) a ++ c :: skipn (S (Z.to_nat i)) a)
       else Undefined OutOfBounds.

(** [strchr(a, '\n') != NULL] *)
Fixpoint strchr_newline (a : list char) : outcome bool :=
  match a with
  | [] => Undefined OutOfBounds
  | c :: a' =>
      if Ascii.eqb c LF then Ok true
      else if is_nul c then Ok false
      else strchr_newline a'
  end.

(** [strcmp(a, lit) == 0] for a string literal [lit]. *)
Fixpoint strcmp_equal (a lit : list char) : outcome bool :=
  match a with
  | [] => Undefined OutOfBounds
  | c :: a' =>
      match lit with
      | [] => Ok (is_nul c)
      | l :: lit' => if Ascii.eqb c l then strcmp_equal a' lit' else Ok false
      end
  end.

(** Where [strtol(s, &str, 10)] leaves [str]: after the digits that were
    converted, or at the start of [s] when there is no digit to convert. *)
Fixpoint skip_digits (s : list char) : list char :=
  match s with
  | c :: s' => if isdigit c then skip_digits s' else s
  | [] => []
  end.

Definition strtol_rest (s : list char) : list char :=
  match skip_spaces s with
  | c :: s' =>
      if Ascii.eqb c "-" || Ascii.eqb c "+"
      then match s' with
           | d :: _ => if isdigit d then skip_digits s' else s
           | [] => s
           end
      else if isdigit c then skip_digits (c :: s') else s
  | [] => s
  end.

(** The characters that the conversion [%ld] prints. *)
Fixpoint decimal_digits_Z (fuel : nat) (v : Z) (acc : list char) : list char :=
  match fuel with
  | O => acc
  | S fuel' =>
      let acc' := digit_char (Z.to_nat (v mod 10)) :: acc in
      if (v / 10 =? 0)%Z then acc' else decimal_digits_Z fuel' (v / 10) acc'
  end.

Definition format_ld (v : Z) : list char :=
  if (v <? 0)%Z then "-"%char :: decimal_digits_Z 19 (- v) []
  else decimal_digits_Z 19 v [].

(** [snprintf(a, size, "%ld", v)]: at most [size - 1] characters and the
    terminator are written. *)
Definition snprintf_ld (a : list char) (size : nat) (v : Z) : outcome (list char) :=
  write_string a 0 (firstn (size - 1) (format_ld v)).

(** ** The validators of [validate.c] *)

(** The loop of [validateHostname]; it returns the final [strLen]. A failed
    test prints a line on the standard error and ends the process with
    [exit(1)]. [HOST_NAME_MAX] comes from [limits.h]. *)
Fixpoint validateHostname_loop (HOST_NAME_MAX : nat) (str : list char)
    (labelLen strLen : nat) : outcome nat :=
  match str with
  | [] => Undefined OutOfBounds
  | c :: str' =>
      if is_nul c then Ok strLen
      else if negb (isdigit c) && negb (isalpha c)
              && negb (Ascii.eqb c "-") && negb (Ascii.eqb c ".")
      then Exited 1
      else
        let labelLen := if Ascii.eqb c "." then 0 else S labelLen in
        let strLen := S strLen in
        if MAX_HOST_LABEL <? labelLen then Exited 1
        else if HOST_NAME_MAX <? strLen then Exited 1
        else validateHostname_loop HOST_NAME_MAX str' labelLen strLen
  end.

(** [validateHostname(hostname)] *)
Definition validateHostname (HOST_NAME_MAX : nat) (hostname : list char) : outcome Z :=
  strLen <- validateHostname_loop HOST_NAME_MAX hostname 0 0 ;;
  first <- array_get hostname 0 ;;
  dot <- (if Ascii.eqb first "." then Ok true
          else last <- array_get hostname (Z.of_nat strLen - 1) ;;
               Ok (Ascii.eqb last ".")) ;;
  if (dot : bool) then Exited 1
  else
    dash <- (if Ascii.eqb first "-" then Ok true
             else last <- array_get hostname (Z.of_nat strLen - 1) ;;
                  Ok (Ascii.eqb last "-")) ;;
    if (dash : bool) then Exited 1 else Ok 1%Z.

(** [validatePort(port)]: the return value and the new content of [port]. *)
Definition validatePort (port : list char) : outcome (Z * list char) :=
  match cstr port with
  | None => Undefined OutOfBounds
  | Some s =>
      let portVal := strtol_string s in
      match strtol_rest s with
      | _ :: _ => Exited (-1)     (* "port must contain only digits" *)
      | [] =>
          if (portVal <? MIN_PORT)%Z || (MAX_PORT <? portVal)%Z
          then Exited (-1)        (* "port must be between 1 and 65535" *)
          else
            port <- snprintf_ld port (MAX_PORT_CHARS + 1) portVal ;;
            Ok (1%Z, port)
      end
  end.

(** [validateArgs(hostname, port, numArgs)]; [&&] evaluates [validatePort]
    only when [validateHostname] returned a value other than 0. *)
Definition validateArgs (HOST_NAME_MAX : nat) (hostname port : list char)
    (numArgs : Z) : outcome (Z * list char) :=
  if negb (numArgs =? 3)%Z then Exited 1
  else
    h <- validateHostname HOST_NAME_MAX hostname ;;
    if (h =? 0)%Z then Ok (0%Z, port)
    else
      ' (p, port) <- validatePort port ;;
      Ok ((if (p =? 0)%Z then 0 else 1)%Z, port).

(** The loop of [validateHandle]: the text of an error or the final
    [strLen]. *)
Fixpoint validateHandle_loop (str : list char) (strLen : nat) : outcome (string + nat) :=
  match str with
  | [] => Undefined OutOfBounds
  | c :: str' =>
      if is_nul c || Ascii.eqb c LF then Ok (inr strLen)
      else if negb (isalnum c) && negb (Ascii.eqb c "_")
      then Ok (inl ("chatclient: handle must contain only alphanumerics or '_'"
                    ++ newline)%string)
      else
        let strLen := S strLen in
        if MAX_HANDLE_LEN <? strLen
        then Ok (inl ("chatclient: handle must contain fewer than 10 chars"
                      ++ newline)%string)
        else validateHandle_loop str' strLen
  end.

(** [validateHandle(handle)]: the return value, the new content of [handle]
    and the standard error. *)
Definition validateHandle (w : world) (handle : list char)
  : outcome (Z * list char * world) :=
  r <- validateHandle_loop handle 0 ;;
  match r with
  | inl message => Ok (0%Z, handle, fprintf_stderr w message)
  | inr strLen =>
      if strLen =? 0
      then Ok (0%Z, handle,
               fprintf_stderr w ("chatclient: handle cannot be empty" ++ newline)%string)
      else
        handle <- array_set handle (Z.of_nat strLen) NUL ;;
        Ok (1%Z, handle, w)
  end.

(** ** The standard input *)

(** The process: the characters still to come on the standard input, after
    which it is at end of file, and the socket with the output streams. *)
Record proc : Type := mkProc {
  stdin : list char;
  net : world
}.

(** What [fgets] reads with room for [n] characters: the line up to and
    with its newline, or its first [n] characters. *)
Fixpoint read_line (n : nat) (input : list char) : list char * list char :=
  match n, input with
  | S n', c :: rest =>
      if Ascii.eqb c LF then ([c], rest)
      else let (l, r) := read_line n' rest in (c :: l, r)
  | _, _ => ([], input)
  end.

(** [fgets(buf, n, stdin)], whose result the program never tests: the new
    content of [buf] and what is left of the input. Nothing is stored at end
    of file, nor for [n <= 0]; for [n = 1] only the terminator is. *)
Definition fgets (buf : list char) (n : Z) (input : list char)
  : outcome (list char * list char) :=
  if (n <=? 0)%Z then Ok (buf, input)
  else
    let (l, rest) := read_line (Z.to_nat n - 1) input in
    match l with
    | [] =>
        if (n =? 1)%Z then buf <- write_string buf 0 [] ;; Ok (buf, input)
        else Ok (buf, input)
    | _ => buf <- write_string buf 0 l ;; Ok (buf, rest)
    end.

(** [while (fgetc(stdin) != '\n') { }]: at end of file [fgetc] returns [EOF]
    for ever and the loop does not end. *)
Fixpoint fgetc_loop (fuel : nat) (input : list char) : outcome (list char) :=
  match fuel with
  | O => OutOfFuel
  | S fuel' =>
      match input with
      | [] => fgetc_loop fuel' []
      | c :: rest => if Ascii.eqb c LF then Ok rest else fgetc_loop fuel' rest
      end
  end.

(** [printf("%s", a)] *)
Definition printf_string (w : world) (a : list char) : outcome world :=
  match cstr a with
  | Some s => Ok (printf w (string_of_list_ascii s))
  | None => Undefined OutOfBounds
  end.

(** [sprintf(msg, "%s> ", handle)] *)
Definition sprintf_prompt (msg handle : list char) : outcome (list char) :=
  match cstr handle with
  | Some h => write_string msg 0 (h ++ [">"%char; " "%char])
  | None => Undefined OutOfBounds
  end.

Definition quit_command : list char := list_ascii_of_string "\quit".

(** [createValidatedHandle(handle)]: the loop runs until [validateHandle]
    accepts what [fgets] stored. *)
Fixpoint createValidatedHandle (fuel : nat) (p : proc) (handle : list char)
  : outcome (list char * proc) :=
  match fuel with
  | O => OutOfFuel
  | S fuel' =>
      let w := printf (net p) "Please enter the client handle: " in
      ' (handle, input) <- fgets handle (Z.of_nat MAX_MSG) (stdin p) ;;
      found <- strchr_newline handle ;;
      input <- (if (found : bool) then Ok input else fgetc_loop fuel' input) ;;
      ' (valid, handle, w) <- validateHandle w handle ;;
      if (valid =? 0)%Z
      then createValidatedHandle fuel' (mkProc input w) handle
      else Ok (handle, mkProc input w)
  end.

(** [createValidatedMsg(handle, msg, msgBufferLen)]: the return value, the
    new content of [msg] and the new state of the process. [stack] is what
    the local array of [_prependByteCountMsg] holds when it is called. *)
Fixpoint createValidatedMsg (fuel : nat) (stack : list char) (p : proc)
    (handle msg : list char) (msgBufferLen : Z) : outcome (Z * list char * proc) :=
  match fuel with
  | O => OutOfFuel
  | S fuel' =>
      let buffer := repeat NUL (MAX_MSG * 2) in
      msg <- memset msg NUL msgBufferLen ;;
      msg <- sprintf_prompt msg handle ;;
      w <- printf_string (net p) msg ;;
      n <- strlen msg ;;
      ' (buffer, input) <- fgets buffer (Z.of_nat (MAX_MSG * 2) - Z.of_nat n) (stdin p) ;;
      msg <- strcat msg buffer ;;
      found <- strchr_newline msg ;;
      ' (msg, input) <-
        (if (found : bool)
         then n <- strlen msg ;;
              msg <- array_set msg (Z.of_nat n - 1) NUL ;;
              Ok (msg, input)
         else input <- fgetc_loop fuel' input ;; Ok (msg, input)) ;;
      bufferLen <- strlen buffer ;;
      buffer <-
        (if 0 <? bufferLen
         then last <- array_get buffer (Z.of_nat bufferLen - 1) ;;
              if Ascii.eqb last LF
              then array_set buffer (Z.of_nat bufferLen - 1) NUL
              else Ok buffer
         else Ok buffer) ;;
      quit <- strcmp_equal buffer quit_command ;;
      if (quit : bool) then Ok (0%Z, msg, mkProc input w)
      else
        ' (valid, w) <- _validateMsg w (Some buffer) ;;
        if (valid =? 0)%Z
        then createValidatedMsg fuel' stack (mkProc input w) handle msg msgBufferLen
        else
          n <- strlen buffer ;;
          msg <- _prependByteCountMsg stack msg (Z.of_nat n) ;;
          Ok (1%Z, msg, mkProc input w)
  end.

(** ** The loop of [main] *)

(** [printf("%s\n", a)] *)
Definition printf_line (w : world) (a : list char) : outcome world :=
  match cstr a with
  | Some s => Ok (printf w (string_of_list_ascii s ++ newline)%string)
  | None => Undefined OutOfBounds
  end.

(** The [while (1)] loop of [main] on the connected socket, and the two
    statements after it; [stack i] is what the local array of
    [_prependByteCountMsg] holds when the iteration with [i] iterations of
    fuel left calls it. The result is the state in which [main] returns 0. *)
Fixpoint main_loop (fuel : nat) (stack : nat -> list char) (p : proc)
    (handle buffer : list char) : outcome proc :=
  match fuel with
  | O => OutOfFuel
  | S fuel' =>
      let finish (p : proc) : outcome proc :=
        (* close(sockfd); *)
        Ok (mkProc (stdin p)
              (printf (net p) ("Socket closed. Exiting chatclient." ++ newline)%string)) in
      ' (more, buffer, p) <- createValidatedMsg fuel' (stack fuel') p handle buffer
                               (Z.of_nat (length buffer)) ;;
      if (more =? 0)%Z then finish p
      else
        w <- main_chatSend (net p) buffer ;;
        ' (status, buffer, w) <- chatReceive w buffer ;;
        if (status =? 0)%Z then finish (mkProc (stdin p) w)
        else
          w <- printf_line w buffer ;;
          main_loop fuel' stack (mkProc (stdin p) w) handle buffer
  end.

(** ** [formConnection] and [main] *)

(** What the system answers for one address of the list of [getaddrinfo]:
    the value of [socket], the value of [connect] on that socket, and the
    text of [errno] after a failure. *)
Record candidate : Type := mkCandidate {
  socket_result : Z;
  connect_result : Z;
  error_text : string
}.

(** What [getaddrinfo] answers: its value, the text [gai_strerror] gives for
    it, and the list it stores in [res]. *)
Record resolution : Type := mkResolution {
  gai_status : Z;
  gai_text : string;
  gai_res : list candidate
}.

(** [perror(s)] *)
Definition perror (w : world) (s error : string) : world :=
  fprintf_stderr w (s ++ ": " ++ error ++ newline)%string.

(** The [for] loop of [formConnection] over the list: the descriptor with
    which it breaks out, or [None] when [p] reaches [NULL]; the descriptors
    closed on the way, in order. *)
Fixpoint formConnection_loop (w : world) (closed : list Z) (res : list candidate)
  : option Z * list Z * world :=
  match res with
  | [] => (None, closed, w)
  | p :: next =>
      let sockfd := socket_result p in
      if (sockfd =? -1)%Z
      then formConnection_loop (perror w "chatclient: socket" (error_text p)) closed next
      else if (connect_result p =? -1)%Z
      then formConnection_loop (perror w "chatclient: connect" (error_text p))
             (closed ++ [sockfd]) next
      else (Some sockfd, closed, w)
  end.

(** [formConnection(host, port)], given what the system answers for [host]
    and [port]: the descriptor returned, the descriptors closed, the world. *)
Definition formConnection (w : world) (r : resolution) : outcome (Z * list Z * world) :=
  if negb (gai_status r =? 0)%Z
  then (* fprintf(stderr, "getaddrinfo: %s\n", ...); *) Exited 2
  else
    match formConnection_loop w [] (gai_res r) with
    | (None, _, _) =>
        (* fprintf(stderr, "chatclient: failed to connect\n"); *) Exited 2
    | (Some sockfd, closed, w) => Ok (sockfd, closed, w)
    end.

(** [main(argc, argv)] with [argv[1] = hostname] and [argv[2] = port]:
    [handle] and [buffer] are its two local arrays as they are found, [r]
    is what the system answers to [formConnection], and the socket of the
    world is the one that [formConnection] returns. The value of
    [validateArgs] is not used. The result is the value returned and the
    final state. *)
Definition main (HOST_NAME_MAX fuel : nat) (stack : nat -> list char)
    (argc : Z) (hostname port : list char) (r : resolution)
    (handle buffer : list char) (p : proc) : outcome (Z * proc) :=
  _ <- validateArgs HOST_NAME_MAX hostname port argc ;;
  ' (handle, p) <- createValidatedHandle fuel p handle ;;
  ' (_, _, w) <- formConnection (net p) r ;;
  p <- main_loop fuel stack (mkProc (stdin p) w) handle buffer ;;
  Ok (0%Z, p).

(** * Vocabulary of the further properties *)

Definition not_fail (e : recv_event) : bool :=
  match e with
  | RecvFail => false
  | _ => true
  end.

(** An outcome that overran no array and overflowed no [int], and whose
    result, if there is one, satisfies [P]. *)
Definition within_bounds (A : Type) (P : A -> Prop) (o : outcome A) : Prop :=
  match o with
  | Ok a => P a
  | Undefined OutOfBounds | Undefined SignedOverflow => False
  | _ => True
  end.

(** The value that [chatReceive] makes of the header on the socket of [w]:
    what [strtol] returns for the array in which its first call of
    [_chatReceiveHelper] has put the header; [None] when that call does not
    return. *)
Definition header_value (w : world) : option Z :=
  match _chatReceiveHelper w (repeat NUL (PREFIX_OFFSET + 1)) (Z.of_nat PREFIX_OFFSET) with
  | Ok (_, header, _) =>
      match strtol header with
      | Ok v => Some v
      | _ => None
      end
  | _ => None
  end.

(** A line of text: no terminator and no newline in it. *)
Definition text_line (l : list char) : bool :=
  forallb (fun c => negb (is_nul c) && negb (Ascii.eqb c LF)) l.

(** The handles that the program accepts: 1 to 10 letters, digits or
    underscores. *)
Definition handle_char (c : char) : bool := isalnum c || Ascii.eqb c "_".

Definition valid_handle (l : list char) : bool :=
  (1 <=? length l) && (length l <=? MAX_HANDLE_LEN) && forallb handle_char l.

(** The labels of a host name: what stands between its dots. *)
Fixpoint split_labels (s : list char) : list (list char) :=
  match s with
  | [] => [[]]
  | c :: s' =>
      if Ascii.eqb c "." then [] :: split_labels s'
      else match split_labels s' with
           | l :: ls => (c :: l) :: ls
           | [] => [[c]]
           end
  end.

Definition hostname_char (c : char) : bool :=
  isdigit c || isalpha c || Ascii.eqb c "-" || Ascii.eqb c ".".

Definition dot_or_dash (c : char) : bool := Ascii.eqb c "." || Ascii.eqb c "-".

(** The host names that [validateHostname] accepts. *)
Definition valid_hostname (HOST_NAME_MAX : nat) (h : list char) : bool :=
  forallb hostname_char h
  && forallb (fun l => length l <=? MAX_HOST_LABEL) (split_labels h)
  && (length h <=? HOST_NAME_MAX)
  && negb (dot_or_dash (hd NUL h))
  && negb (dot_or_dash (last h NUL)).

(** [P] holds of the [n] integers from [v] on. *)
Fixpoint all_from (n : nat) (v : Z) (P : Z -> bool) : bool :=
  match n with
  | O => true
  | S n' => P v && all_from n' (v + 1)%Z P
  end.

Definition port_round_trip (v : Z) : bool :=
  (strtol_string (format_ld v) =? v)%Z
  && match strtol_rest (format_ld v) with [] => true | _ => false end.

(** The port strings that [validatePort] accepts: [strtol] converts them to
    their end, to a value from [MIN_PORT] to [MAX_PORT]. *)
Definition accepted_port (s : list char) : bool :=
  match strtol_rest s with
  | [] => (MIN_PORT <=? strtol_string s)%Z && (strtol_string s <=? MAX_PORT)%Z
  | _ :: _ => false
  end.

(** The labels of [s] are not too long, when [n] characters stand before
    [s] in its first label. *)
Definition labels_fit (n : nat) (s : list char) : bool :=
  match split_labels s with
  | l :: ls =>
      (n + length l <=? MAX_HOST_LABEL)
      && forallb (fun l => length l <=? MAX_HOST_LABEL) ls
  | [] => true
  end.

Definition has_newline (s : list char) : bool :=
  existsb (fun c => Ascii.eqb c LF) s.

(** The prompt that [createValidatedMsg] prints and puts before the text. *)
Definition prompt_of (h : list char) : list char := h ++ [">"%char; " "%char].

(** The input made of the lines [ls], each ended by a newline. *)
Definition input_lines (ls : list (list char)) : list char :=
  concat (map (fun l => l ++ [LF]) ls).

(** The world after the lines [out] were printed on the standard output and
    the lines [err] on the standard error. *)
Definition console (w : world) (out err : list string) : world :=
  mkWorld (rx w) (tx w) (wire w) (recv_log w) (stdout w ++ out) (stderr w ++ err).

(** The text of a prompt as [printf] prints it. *)
Definition prompt_text (h : list char) : string :=
  string_of_list_ascii (prompt_of h).

(** The text that [_validateMsg] prints. *)
Definition invalid_length : string :=
  ("chatclient: Invalid message length" ++ newline)%string.

(** The frame that the program makes of a body. *)
Definition frame_of (body : list char) : list char :=
  format_03d (length body + 1) ++ body.

(** The text that [main] prints before it returns. *)
Definition socket_closed : string :=
  ("Socket closed. Exiting chatclient." ++ newline)%string.

(** What one exchange sends, and what it prints, for the line [t] typed by
    the user and the reply [r] of the server. *)
Definition sent_frame (h t : list char) : list char :=
  frame_of (prompt_of h ++ t) ++ [NUL].

Definition reply_frame (r : list char) : list char := frame_of r ++ [NUL].

Definition reply_line (r : list char) : string :=
  (string_of_list_ascii r ++ newline)%string.

(** An exchange that the program carries out: a line of text of at most 500
    characters that is not the quit command, and a reply of at most 514
    characters. *)
Definition exchange_ok (e : list char * list char) : bool :=
  text_line (fst e) && (length (fst e) <=? MAX_MSG)
  && negb (char_list_eqb (fst e) quit_command)
  && nul_free (snd e) && (length (snd e) + 1 <? MAX_BYTES).

(** A session of the loop of [main]: the exchanges [exs], then the quit
    command. What the user types, what the server sends, what the program
    sends and what it prints. *)
Definition session_input (exs : list (list char * list char)) : list char :=
  input_lines (map fst exs) ++ quit_command ++ [LF].

Definition session_replies (exs : list (list char * list char)) : list char :=
  concat (map (fun e => reply_frame (snd e)) exs).

Definition session_wire (h : list char) (exs : list (list char * list char))
  : list char :=
  concat (map (fun e => sent_frame h (fst e)) exs).

Definition session_output (h : list char) (exs : list (list char * list char))
  : list string :=
  concat (map (fun e => [prompt_text h; reply_line (snd e)]) exs)
  ++ [prompt_text h; socket_closed].

(** An address on which [formConnection] does not stop. *)
Definition refused (c : candidate) : bool :=
  (socket_result c =? -1)%Z || (connect_result c =? -1)%Z.

(** The descriptors that [formConnection] opened on refused addresses. *)
Definition opened (cs : list candidate) : list Z :=
  map socket_result (filter (fun c => negb (socket_result c =? -1)%Z) cs).

(** The line that [formConnection] prints for a refused address. *)
Definition refusal (c : candidate) : string :=
  ((if (socket_result c =? -1)%Z then "chatclient: socket" else "chatclient: connect")
   ++ ": " ++ error_text c ++ newline)%string.

(** The prompt of [createValidatedHandle]. *)
Definition handle_prompt : string := "Please enter the client handle: ".

(** * Properties *)

(** ** Arithmetic of [int] values *)

Lemma int_result_ok (z : Z) :
  (INT_MIN <= z <= INT_MAX)%Z -> int_result z = Ok z.
Proof.
  intros [Hlo Hhi]. unfold int_result.
  apply Z.leb_le in Hlo. apply Z.leb_le in Hhi.
  now rewrite Hlo, Hhi.
Qed.

Lemma int_result_not_fuel (z : Z) : int_result z <> OutOfFuel.
Proof. unfold int_result. destruct (_ && _); discriminate. Qed.

Lemma long_to_int_small (z : Z) :
  (- 2 ^ 31 <= z < 2 ^ 31)%Z -> long_to_int z = z.
Proof.
  intros H. unfold long_to_int.
  rewrite Z.mod_small; lia.
Qed.

Lemma MAX_BYTES_val : MAX_BYTES = 516.
Proof. reflexivity. Qed.

Lemma INT_MIN_val : INT_MIN = (-2147483648)%Z.
Proof. reflexivity. Qed.

Lemma INT_MAX_val : INT_MAX = 2147483647%Z.
Proof. reflexivity. Qed.

(** ** Strings held by arrays *)

Lemma nul_free_app (s t : list char) :
  nul_free (s ++ t) = nul_free s && nul_free t.
Proof. apply forallb_app. Qed.

Lemma nul_free_firstn (n : nat) (s : list char) :
  nul_free s = true -> nul_free (firstn n s) = true.
Proof.
  revert n. induction s as [|c s IH]; intros [|n] H; simpl in *; auto.
  apply andb_true_iff in H as [Hc Hs]. rewrite Hc. simpl. auto.
Qed.

Lemma nul_free_skipn (n : nat) (s : list char) :
  nul_free s = true -> nul_free (skipn n s) = true.
Proof.
  revert n. induction s as [|c s IH]; intros [|n] H; simpl in *; auto.
  apply andb_true_iff in H as [_ Hs]. auto.
Qed.

Lemma nul_free_split (n : nat) (s : list char) :
  nul_free (firstn n s) = true -> nul_free (skipn n s) = true -> nul_free s = true.
Proof.
  intros H1 H2. rewrite <- (firstn_skipn n s), nul_free_app, H1, H2. reflexivity.
Qed.

Lemma is_nul_NUL : is_nul NUL = true.
Proof. reflexivity. Qed.

Lemma cstr_app_nul (s t : list char) :
  nul_free s = true -> cstr (s ++ NUL :: t) = Some s.
Proof.
  induction s as [|c s IH]; simpl; intros H.
  - reflexivity.
  - apply andb_true_iff in H as [Hc Hs].
    apply negb_true_iff in Hc. rewrite Hc, (IH Hs). reflexivity.
Qed.


(** An array that holds a string is that string, the terminator and the
    cells after it. *)
Lemma cstr_inv (a s : list char) :
  cstr a = Some s ->
  nul_free s = true /\ a = s ++ NUL :: skipn (S (length s)) a.
Proof.
  revert s. induction a as [|c a IH]; simpl; intros s H.
  - discriminate.
  - destruct (is_nul c) eqn:Hc.
    + injection H as <-. split; [reflexivity|].
      apply Ascii.eqb_eq in Hc. now subst c.
    + destruct (cstr a) as [s'|] eqn:Ha; [|discriminate].
      injection H as <-. destruct (IH s' eq_refl) as [Hs' Heq].
      split.
      * simpl. now rewrite Hc.
      * change (c :: a = c :: (s' ++ NUL :: skipn (S (length s')) a)).
        f_equal. exact Heq.
Qed.

Lemma cstr_length (a s : list char) :
  cstr a = Some s -> length s + 1 <= length a.
Proof.
  intros H. apply cstr_inv in H as [_ H].
  apply (f_equal (@length _)) in H.
  rewrite length_app in H. simpl in H. lia.
Qed.

Lemma cstr_firstn (a s : list char) :
  cstr a = Some s -> firstn (length s) a = s.
Proof.
  intros H. apply cstr_inv in H as [_ H].
  rewrite H. rewrite firstn_app, Nat.sub_diag, firstn_all. simpl.
  apply app_nil_r.
Qed.

(** The string held by a prefix followed by a terminator is a prefix of the
    prefix. *)
Lemma cstr_prefix (d t : list char) :
  exists s, cstr (d ++ NUL :: t) = Some s /\ length s <= length d.
Proof.
  induction d as [|c d [s [IH Hlen]]]; simpl.
  - exists []. split; [reflexivity | simpl; lia].
  - destruct (is_nul c).
    + exists []. split; [reflexivity | simpl; lia].
    + rewrite IH. exists (c :: s). split; [reflexivity | simpl; lia].
Qed.

Lemma cstr_zeroed (n : nat) : cstr (repeat NUL (S n)) = Some [].
Proof. reflexivity. Qed.

Lemma write_string_ok (a : list char) (off : nat) (s : list char) :
  off + length s + 1 <= length a ->
  nul_free (firstn off a) = true ->
  nul_free s = true ->
  exists a', write_string a off s = Ok a'
             /\ cstr a' = Some (firstn off a ++ s)
             /\ length a' = length a.
Proof.
  intros Hfit Hpre Hs. unfold write_string.
  apply Nat.leb_le in Hfit as Hfit'. rewrite Hfit'.
  eexists. split; [reflexivity|]. split.
  - rewrite app_assoc. apply cstr_app_nul.
    rewrite nul_free_app, Hpre, Hs. reflexivity.
  - rewrite !length_app. simpl. rewrite length_firstn, length_skipn. lia.
Qed.

Lemma write_string_overflow (a : list char) (off : nat) (s : list char) :
  length a < off + length s + 1 ->
  write_string a off s = Undefined OutOfBounds.
Proof.
  intros H. unfold write_string.
  apply Nat.leb_gt in H. now rewrite H.
Qed.

Lemma strcat_ok (dst src d s : list char) :
  cstr dst = Some d -> cstr src = Some s ->
  length d + length s + 1 <= length dst ->
  exists dst', strcat dst src = Ok dst'
               /\ cstr dst' = Some (d ++ s)
               /\ length dst' = length dst.
Proof.
  intros Hd Hs Hfit. unfold strcat. rewrite Hd, Hs.
  destruct (cstr_inv _ Hd) as [Hdf _]. destruct (cstr_inv _ Hs) as [Hsf _].
  destruct (write_string_ok dst (length d) s) as [dst' [H1 [H2 H3]]]; auto.
  - now rewrite (cstr_firstn _ Hd).
  - exists dst'. rewrite (cstr_firstn _ Hd) in H2. auto.
Qed.

Lemma strcat_overflow (dst src d s : list char) :
  cstr dst = Some d -> cstr src = Some s ->
  length dst < length d + length s + 1 ->
  strcat dst src = Undefined OutOfBounds.
Proof.
  intros Hd Hs H. unfold strcat. rewrite Hd, Hs.
  now apply write_string_overflow.
Qed.

Lemma strcpy_ok (dst src s : list char) :
  cstr src = Some s ->
  length s + 1 <= length dst ->
  exists dst', strcpy dst src = Ok dst'
               /\ cstr dst' = Some s
               /\ length dst' = length dst.
Proof.
  intros Hs Hfit. unfold strcpy. rewrite Hs.
  destruct (cstr_inv _ Hs) as [Hsf _].
  destruct (write_string_ok dst 0 s) as [dst' [H1 [H2 H3]]]; auto.
  exists dst'. auto.
Qed.

(** ** The scratch array of [_chatReceiveHelper] after a call of [recv] *)

Lemma skipn_repeat_lt (A : Type) (x : A) (k n : nat) :
  k < n -> skipn k (repeat x n) = x :: repeat x (n - S k).
Proof.
  revert n. induction k as [|k IH]; intros [|n] H; try lia; simpl.
  - now rewrite Nat.sub_0_r.
  - apply IH. lia.
Qed.

Lemma firstn_repeat (A : Type) (x : A) (j n : nat) :
  firstn j (repeat x n) = repeat x (Nat.min j n).
Proof.
  revert n. induction j as [|j IH]; intros [|n]; simpl; try reflexivity.
  now rewrite IH.
Qed.

Lemma skipn_repeat (A : Type) (x : A) (j n : nat) :
  skipn j (repeat x n) = repeat x (n - j).
Proof.
  revert n. induction j as [|j IH]; intros [|n]; simpl; try reflexivity.
  apply IH.
Qed.

(** The bytes [d] that arrived are text followed by terminators only: the
    scratch array then holds the text. *)
Lemma scratch_cstr (b : list char) (j k : nat) :
  length (b ++ repeat NUL j) = k -> k < MAX_BYTES -> nul_free b = true ->
  cstr ((b ++ repeat NUL j) ++ skipn k (repeat NUL MAX_BYTES)) = Some b.
Proof.
  intros _ Hk Hb. rewrite skipn_repeat_lt by assumption.
  rewrite <- app_assoc.
  destruct j as [|j]; simpl; now apply cstr_app_nul.
Qed.

Lemma scratch_cstr_prefix (d : list char) (k : nat) :
  length d = k -> k < MAX_BYTES ->
  exists s, cstr (d ++ skipn k (repeat NUL MAX_BYTES)) = Some s /\ length s <= k.
Proof.
  intros Hd Hk. rewrite skipn_repeat_lt by assumption.
  subst k. apply cstr_prefix.
Qed.


(** ** One call of [recv] *)

Lemma recv_chunk (w : world) (c : list char) (r : list recv_event) (len : nat) :
  rx w = RecvBytes c :: r ->
  Nat.min len (length c) <= MAX_BYTES ->
  recv w (repeat NUL MAX_BYTES) len =
    Ok (Z.of_nat (Nat.min len (length c)),
        firstn (Nat.min len (length c)) c
          ++ skipn (Nat.min len (length c)) (repeat NUL MAX_BYTES),
        set_rx (log_recv w len) (after_chunk (Nat.min len (length c)) c r)).
Proof.
  intros Hrx Hk. unfold recv.
  change (rx (log_recv w len)) with (rx w). rewrite Hrx.
  rewrite repeat_length.
  apply Nat.leb_le in Hk. rewrite Hk. reflexivity.
Qed.


Lemma after_chunk_all (c : list char) (r : list recv_event) (k : nat) :
  length c <= k -> after_chunk k c r = r.
Proof. intros H. unfold after_chunk. now rewrite skipn_all2. Qed.

Lemma after_chunk_part (c : list char) (r : list recv_event) (k : nat) :
  k < length c -> after_chunk k c r = RecvBytes (skipn k c) :: r.
Proof.
  intros H. unfold after_chunk.
  destruct (skipn k c) eqn:E; [|reflexivity].
  apply skipn_all_iff in E. lia.
Qed.

Lemma rx_weight_after_chunk (c : list char) (r : list recv_event) (k : nat) :
  1 <= k -> 1 <= length c ->
  rx_weight (after_chunk k c r) < rx_weight (RecvBytes c :: r).
Proof.
  intros Hk Hc. destruct (Nat.le_gt_cases (length c) k) as [H|H].
  - rewrite after_chunk_all by assumption. simpl. lia.
  - rewrite after_chunk_part by assumption. simpl. rewrite length_skipn. lia.
Qed.

(** ** The loop of [_chatReceiveHelper] *)

Lemma helper_loop_step (fuel : nat) (w : world) (message : list char)
    (msgLen got : Z) (st : option Z) :
  (got < msgLen)%Z ->
  _chatReceiveHelper_loop (S fuel) w message msgLen got st =
    (len <- int_result (msgLen - got) ;;
     ' (status, buffer, w) <- recv w (repeat NUL MAX_BYTES) (Z.to_nat len) ;;
     if (status =? 0)%Z
     then Ok (status, message, printf w server_ended)
     else
       message <- strcat message buffer ;;
       bytesReceived <- int_result (got + status) ;;
       _chatReceiveHelper_loop fuel w message msgLen bytesReceived (Some status)).
Proof.
  intros H. apply Z.ltb_lt in H.
  cbn [_chatReceiveHelper_loop]. rewrite H. reflexivity.
Qed.

Lemma helper_loop_done (fuel : nat) (w : world) (message : list char)
    (msgLen got st : Z) :
  (msgLen <= got)%Z ->
  _chatReceiveHelper_loop fuel w message msgLen got (Some st) = Ok (st, message, w).
Proof.
  intros H. apply Z.ltb_ge in H.
  destruct fuel; cbn [_chatReceiveHelper_loop]; rewrite H; reflexivity.
Qed.

Lemma nonempty_chunks_cons (c : list char) (cs : list (list char)) :
  nonempty_chunks (c :: cs) = true -> 1 <= length c /\ nonempty_chunks cs = true.
Proof.
  simpl. intros H. apply andb_true_iff in H as [Hc Hcs].
  apply Nat.ltb_lt in Hc. split; [lia | assumption].
Qed.

(** Reading [need] bytes that the stream does deliver, text followed by
    terminators only: the loop appends the text to the string of [message],
    in order, and leaves the rest of the stream for the next call. *)
Lemma helper_loop_reads :
  forall chunks rest fuel w message s msgLen got st need body z,
    rx w = map RecvBytes chunks ++ rest ->
    nonempty_chunks chunks = true ->
    1 <= need <= length (concat chunks) ->
    need < MAX_BYTES ->
    firstn need (concat chunks) = body ++ repeat NUL z ->
    nul_free body = true ->
    cstr message = Some s ->
    length s + length body + 1 <= length message ->
    msgLen = (got + Z.of_nat need)%Z ->
    (INT_MIN <= got)%Z -> (msgLen <= INT_MAX)%Z ->
    rx_weight (rx w) < fuel ->
    exists status message' w' chunks',
      _chatReceiveHelper_loop fuel w message msgLen got st
        = Ok (status, message', w')
      /\ (0 < status)%Z
      /\ cstr message' = Some (s ++ body)
      /\ length message' = length message
      /\ rx w' = map RecvBytes chunks' ++ rest
      /\ concat chunks' = skipn need (concat chunks)
      /\ nonempty_chunks chunks' = true
      /\ stdout w' = stdout w.
Proof.
  induction chunks as [|c cs IH];
    intros rest fuel w message s msgLen got st need body z
           Hrx Hne Hneed Hmax Hdata Hbody Hmsg Hfit HmsgLen Hlo Hhi Hfuel.
  - simpl in Hneed. lia.
  - apply nonempty_chunks_cons in Hne as [Hc Hcs].
    change (concat (c :: cs)) with (c ++ concat cs) in *.
    simpl in Hrx. rewrite length_app in Hneed.
    destruct fuel as [|fuel]; [lia|].
    pose proof INT_MIN_val as Hmin. pose proof INT_MAX_val as Hmaxv.
    pose proof MAX_BYTES_val as HMB.
    assert (Hdlen : length body + z = need).
    { apply (f_equal (@length _)) in Hdata.
      rewrite length_firstn, !length_app, repeat_length in Hdata. lia. }
    rewrite helper_loop_step by lia.
    rewrite int_result_ok by lia. cbn [bind].
    replace (msgLen - got)%Z with (Z.of_nat need) by lia.
    rewrite Nat2Z.id.
    set (k := Nat.min need (length c)).
    assert (Hk : 1 <= k <= need /\ k <= length c) by (unfold k; lia).
    rewrite (recv_chunk w need Hrx) by (fold k; lia).
    fold k. cbn [bind].
    assert (Hz : (Z.of_nat k =? 0)%Z = false) by (apply Z.eqb_neq; lia).
    rewrite Hz.
    (* what arrived is the start of the text and then terminators *)
    assert (Hpre : firstn k c
                   = firstn k body ++ repeat NUL (Nat.min (k - length body) z)).
    { rewrite <- firstn_repeat, <- firstn_app, <- Hdata.
      rewrite firstn_firstn, Nat.min_l by lia.
      rewrite firstn_app. replace (k - length c) with 0 by lia.
      rewrite firstn_0, app_nil_r. reflexivity. }
    assert (Hlenk : length (firstn k c) = k) by (rewrite length_firstn; lia).
    rewrite Hpre in Hlenk |- *.
    assert (Hb1 : length (firstn k body) <= length body)
      by (rewrite length_firstn; lia).
    destruct (strcat_ok message
                ((firstn k body ++ repeat NUL (Nat.min (k - length body) z))
                   ++ skipn k (repeat NUL MAX_BYTES)) Hmsg
                (scratch_cstr (firstn k body) _ Hlenk ltac:(lia)
                   (nul_free_firstn k body Hbody)))
      as [message1 [Hcat [Hmsg1 Hlen1]]]; [lia|].
    rewrite Hcat. cbn [bind].
    rewrite int_result_ok by lia. cbn [bind].
    set (w1 := set_rx (log_recv w need) (after_chunk k c (map RecvBytes cs ++ rest))).
    destruct (Nat.le_gt_cases need (length c)) as [Hlast|Hmore].
    + (* this chunk completes the read *)
      assert (Hkn : k = need) by (unfold k; lia).
      rewrite helper_loop_done by lia.
      rewrite firstn_all2 in Hmsg1 by lia.
      exists (Z.of_nat k), message1, w1.
      destruct (Nat.eq_dec need (length c)) as [Heq|Hneq].
      * exists cs. unfold w1. rewrite after_chunk_all by lia.
        repeat split; try assumption; try lia.
        rewrite skipn_app, skipn_all2 by lia.
        replace (need - length c) with 0 by lia. reflexivity.
      * exists (skipn k c :: cs).
        unfold w1. rewrite after_chunk_part by lia.
        cbn [concat map app nonempty_chunks forallb].
        repeat split; try assumption; try lia.
        -- rewrite skipn_app, Hkn.
           replace (need - length c) with 0 by lia. reflexivity.
        -- rewrite length_skipn.
           replace (0 <? length c - k) with true
             by (symmetry; apply Nat.ltb_lt; lia).
           assumption.
    + (* the chunk is taken whole and more is needed *)
      assert (Hkc : k = length c) by (unfold k; lia).
      assert (Hrx1 : rx w1 = map RecvBytes cs ++ rest).
      { unfold w1. simpl. apply after_chunk_all. lia. }
      assert (Hrest : firstn (need - length c) (concat cs)
                      = skipn k body ++ repeat NUL (z - (k - length body))).
      { rewrite <- skipn_repeat, <- skipn_app, <- Hdata.
        rewrite firstn_app, (@firstn_all2 _ need c) by lia.
        rewrite skipn_app, Hkc, skipn_all, Nat.sub_diag. reflexivity. }
      destruct (IH rest fuel w1 message1 (s ++ firstn k body) msgLen
                  (got + Z.of_nat k)%Z (Some (Z.of_nat k)) (need - length c)
                  (skipn k body) (z - (k - length body)))
        as [status [message' [w' [chunks' H]]]]; try assumption; try lia.
      * now apply nul_free_skipn.
      * rewrite length_app, length_skipn, length_firstn. lia.
      * rewrite Hrx1. rewrite Hrx in Hfuel. simpl in Hfuel. lia.
      * destruct H as [Hrun [Hst [Hm' [Hl' [Hrx' [Hcc [Hne' Hout]]]]]]].
        exists status, message', w', chunks'.
        rewrite <- app_assoc, firstn_skipn in Hm'.
        repeat split; try assumption; try lia.
        rewrite Hcc, skipn_app. rewrite (@skipn_all2 _ need c) by lia.
        reflexivity.
Qed.

Lemma recv_zero (w : world) (r : list recv_event) (buffer : list char) (len : nat) :
  rx w = RecvZero :: r ->
  recv w buffer len = Ok (0%Z, buffer, set_rx (log_recv w len) r).
Proof.
  intros Hrx. unfold recv.
  change (rx (log_recv w len)) with (rx w). now rewrite Hrx.
Qed.

Lemma recv_fail (w : world) (r : list recv_event) (buffer : list char) (len : nat) :
  rx w = RecvFail :: r ->
  recv w buffer len = Ok ((-1)%Z, buffer, set_rx (log_recv w len) r).
Proof.
  intros Hrx. unfold recv.
  change (rx (log_recv w len)) with (rx w). now rewrite Hrx.
Qed.

(** The peer closes before the bytes asked for have all arrived: the loop
    returns 0 after the chunks that did arrive, whatever bytes they hold. *)
Lemma helper_loop_closed :
  forall chunks rest fuel w message s msgLen got st,
    rx w = map RecvBytes chunks ++ RecvZero :: rest ->
    nonempty_chunks chunks = true ->
    (got + Z.of_nat (length (concat chunks)) < msgLen)%Z ->
    length (concat chunks) < MAX_BYTES ->
    cstr message = Some s ->
    length s + length (concat chunks) + 1 <= length message ->
    (0 <= got)%Z -> (msgLen <= INT_MAX)%Z ->
    rx_weight (rx w) < fuel ->
    exists message' w' part,
      _chatReceiveHelper_loop fuel w message msgLen got st = Ok (0%Z, message', w')
      /\ cstr message' = Some (s ++ part)
      /\ length part <= length (concat chunks)
      /\ length message' = length message
      /\ rx w' = rest
      /\ stdout w' = stdout w ++ [server_ended].
Proof.
  induction chunks as [|c cs IH];
    intros rest fuel w message s msgLen got st
           Hrx Hne Hshort Hmax Hmsg Hfit Hlo Hhi Hfuel;
    (destruct fuel as [|fuel]; [lia|]);
    pose proof INT_MIN_val as Hmin; pose proof INT_MAX_val as Hmaxv;
    pose proof MAX_BYTES_val as HMB.
  - simpl in Hrx, Hshort.
    rewrite helper_loop_step by lia.
    rewrite int_result_ok by lia. cbn [bind].
    rewrite (recv_zero w _ _ Hrx). cbn [bind]. rewrite Z.eqb_refl.
    exists message, (printf (set_rx (log_recv w (Z.to_nat (msgLen - got))) rest)
                       server_ended), [].
    rewrite app_nil_r. simpl. repeat split; auto.
  - apply nonempty_chunks_cons in Hne as [Hc Hcs].
    change (concat (c :: cs)) with (c ++ concat cs) in *.
    simpl in Hrx. rewrite length_app in *.
    rewrite helper_loop_step by lia.
    rewrite int_result_ok by lia. cbn [bind].
    assert (Hk : Nat.min (Z.to_nat (msgLen - got)) (length c) = length c) by lia.
    rewrite (recv_chunk w (Z.to_nat (msgLen - got)) Hrx) by lia.
    rewrite Hk, firstn_all. cbn [bind].
    assert (Hz : (Z.of_nat (length c) =? 0)%Z = false) by (apply Z.eqb_neq; lia).
    rewrite Hz.
    destruct (scratch_cstr_prefix c eq_refl) as [s1 [Hs1 Hlen1]]; [lia|].
    destruct (strcat_ok message _ Hmsg Hs1) as [message1 [Hcat [Hmsg1 Hl1]]];
      [lia|].
    rewrite Hcat. cbn [bind].
    rewrite int_result_ok by lia. cbn [bind].
    rewrite after_chunk_all by lia.
    destruct (IH rest fuel
                (set_rx (log_recv w (Z.to_nat (msgLen - got)))
                   (map RecvBytes cs ++ RecvZero :: rest))
                message1 (s ++ s1) msgLen (got + Z.of_nat (length c))%Z
                (Some (Z.of_nat (length c))))
      as [message' [w' [part H]]]; try assumption; try lia; try reflexivity.
    + rewrite length_app. lia.
    + rewrite Hrx in Hfuel. simpl in Hfuel |- *. lia.
    + destruct H as [Hrun [Hm' [Hp [Hl' [Hrx' Hout]]]]].
      exists message', w', (s1 ++ part).
      rewrite app_assoc, length_app.
      repeat split; try assumption; try lia.
Qed.




(** ** The three-digit header *)

Lemma char_list_eqb_eq (a b : list char) : char_list_eqb a b = true -> a = b.
Proof.
  unfold char_list_eqb. intros H. apply String.eqb_eq in H.
  rewrite <- (list_ascii_of_string_of_list_ascii a),
          <- (list_ascii_of_string_of_list_ascii b).
  now rewrite H.
Qed.

Lemma forallb_below (P : nat -> bool) (N : nat) :
  forallb P (seq 0 N) = true -> forall n, n < N -> P n = true.
Proof.
  intros H n Hn. rewrite forallb_forall in H. apply H.
  apply in_seq. lia.
Qed.

Lemma header_checks_below_1000 (n : nat) : n < 1000 -> header_checks n = true.
Proof. apply forallb_below. vm_compute. reflexivity. Qed.

Lemma format_03d_digits (n : nat) : n < 1000 -> format_03d n = three_digits n.
Proof.
  intros H. apply header_checks_below_1000 in H. unfold header_checks in H.
  repeat (apply andb_true_iff in H as [H ?]). now apply char_list_eqb_eq.
Qed.

Lemma format_03d_length (n : nat) : n < 1000 -> length (format_03d n) = 3.
Proof. intros H. now rewrite format_03d_digits. Qed.

Lemma format_03d_nul_free (n : nat) : n < 1000 -> nul_free (format_03d n) = true.
Proof.
  intros H. apply header_checks_below_1000 in H. unfold header_checks in H.
  repeat (apply andb_true_iff in H as [H ?]). assumption.
Qed.

Lemma format_03d_isdigit (n : nat) :
  n < 1000 -> forallb isdigit (format_03d n) = true.
Proof.
  intros H. apply header_checks_below_1000 in H. unfold header_checks in H.
  repeat (apply andb_true_iff in H as [H ?]). assumption.
Qed.

Lemma strtol_format_03d (n : nat) :
  n < 1000 -> strtol_string (format_03d n) = Z.of_nat n.
Proof.
  intros H. apply header_checks_below_1000 in H. unfold header_checks in H.
  repeat (apply andb_true_iff in H as [H ?]). now apply Z.eqb_eq.
Qed.

Lemma LONG_MIN_val : LONG_MIN = (-9223372036854775808)%Z.
Proof. reflexivity. Qed.

Lemma LONG_MAX_val : LONG_MAX = 9223372036854775807%Z.
Proof. reflexivity. Qed.

Lemma isdigit_value (c : char) :
  isdigit c = true -> (0 <= Z.of_nat (nat_of_ascii c - 48) <= 9)%Z.
Proof.
  unfold isdigit. intros H. apply andb_true_iff in H as [Hlo Hhi].
  apply Nat.leb_le in Hlo, Hhi. lia.
Qed.


(** Whatever the count, [%03d] prints at least three characters, none of
    them [NUL]. *)
Lemma format_03d_length_ge (n : nat) : 3 <= length (format_03d n).
Proof. unfold format_03d. cbv zeta. rewrite length_app, repeat_length. lia. Qed.

Lemma digit_char_not_nul (d : nat) : d < 10 -> is_nul (digit_char d) = false.
Proof.
  intros H. apply negb_true_iff.
  revert d H. apply forallb_below. reflexivity.
Qed.

Lemma decimal_digits_nul_free (fuel n : nat) (acc : list char) :
  nul_free acc = true -> nul_free (decimal_digits fuel n acc) = true.
Proof.
  revert n acc.
  induction fuel as [|fuel IH]; intros n acc Hacc; cbn [decimal_digits].
  - assumption.
  - assert (Hd : nul_free (digit_char (n mod 10) :: acc) = true).
    { unfold nul_free in *. cbn [forallb].
      rewrite digit_char_not_nul, Hacc; [reflexivity|].
      apply Nat.mod_upper_bound. lia. }
    destruct (n / 10 =? 0); [assumption | now apply IH].
Qed.

Lemma format_03d_nul_free_all (n : nat) : nul_free (format_03d n) = true.
Proof.
  unfold format_03d. cbv zeta. rewrite nul_free_app.
  rewrite decimal_digits_nul_free by reflexivity. rewrite andb_true_r.
  generalize (3 - length (decimal_digits (S n) n [])).
  intros k. induction k as [|k IH]; [reflexivity | exact IH].
Qed.

(** ** [_prependByteCountMsg] on a message that fits *)

Lemma strlen_cstr (a s : list char) : cstr a = Some s -> strlen a = Ok (length s).
Proof. intros H. unfold strlen. now rewrite H. Qed.

Lemma memset_ok (a : list char) (c : char) (n : Z) :
  (0 <= n <= Z.of_nat (length a))%Z ->
  exists a', memset a c n = Ok a' /\ length a' = length a.
Proof.
  intros [Hlo Hhi]. unfold memset.
  apply Z.leb_le in Hlo as Hlo'. apply Z.leb_le in Hhi as Hhi'.
  rewrite Hlo', Hhi'. simpl. eexists. split; [reflexivity|].
  rewrite length_app, repeat_length, length_skipn. lia.
Qed.

Lemma prepend_ok (stack msg p : list char) (msgLen : Z) :
  length stack = MAX_BYTES ->
  cstr msg = Some p ->
  PREFIX_OFFSET + length p + 1 <= MAX_BYTES ->
  PREFIX_OFFSET + length p + 1 <= length msg ->
  (0 <= msgLen <= Z.of_nat (length msg))%Z ->
  exists msg',
    _prependByteCountMsg stack msg msgLen = Ok msg'
    /\ cstr msg' = Some (format_03d (length p + 1) ++ p)
    /\ length msg' = length msg.
Proof.
  intros Hstack Hmsg Hfit Hcap HmsgLen.
  pose proof MAX_BYTES_val as HMB. unfold PREFIX_OFFSET in *.
  assert (Hn : length p + 1 < 1000) by lia.
  pose proof (format_03d_length Hn) as Hhl.
  pose proof (format_03d_nul_free Hn) as Hhf.
  destruct (cstr_inv _ Hmsg) as [Hpf _].
  unfold _prependByteCountMsg.
  rewrite (strlen_cstr _ Hmsg). cbn [bind].
  unfold sprintf_03d.
  destruct (write_string_ok stack 0 (format_03d (length p + 1)))
    as [buffer1 [Hw [Hb1 Hl1]]]; [lia | reflexivity | assumption |].
  rewrite Hw. cbn [bind]. simpl in Hb1.
  destruct (strcat_ok buffer1 msg Hb1 Hmsg) as [buffer2 [Hcat [Hb2 Hl2]]]; [lia|].
  rewrite Hcat. cbn [bind].
  destruct (memset_ok msg NUL HmsgLen) as [msg1 [Hset Hlm]].
  rewrite Hset. cbn [bind].
  destruct (strcpy_ok msg1 buffer2 Hb2) as [msg' [Hcpy [Hm' Hl']]].
  { rewrite length_app. lia. }
  exists msg'. rewrite Hcpy. repeat split; [assumption | lia].
Qed.

(** ** [_prependByteCountMsg] on a message that does not fit *)

Lemma prepend_overflows (stack msg p : list char) (msgLen : Z) :
  length stack = MAX_BYTES ->
  cstr msg = Some p ->
  MAX_BYTES < PREFIX_OFFSET + length p + 1 ->
  _prependByteCountMsg stack msg msgLen = Undefined OutOfBounds.
Proof.
  intros Hstack Hmsg Hbig. unfold PREFIX_OFFSET in Hbig.
  pose proof (format_03d_length_ge (length p + 1)) as Hge.
  unfold _prependByteCountMsg.
  rewrite (strlen_cstr _ Hmsg). cbn [bind]. unfold sprintf_03d.
  destruct (Nat.le_gt_cases (0 + length (format_03d (length p + 1)) + 1)
              (length stack)) as [Hfit|Hover].
  - destruct (write_string_ok stack 0 (format_03d (length p + 1)))
      as [buffer1 [Hw [Hb1 Hl1]]];
      [assumption | reflexivity | apply format_03d_nul_free_all |].
    rewrite Hw. cbn [bind]. simpl in Hb1.
    rewrite (strcat_overflow _ _ Hb1 Hmsg) by lia. reflexivity.
  - rewrite write_string_overflow by assumption. reflexivity.
Qed.

(** ** The loop of [chatSend] *)

Lemma chatSend_loop_step (fuel : nat) (w : world) (message : list char)
    (msgLen totalSent : Z) :
  (totalSent < msgLen)%Z ->
  chatSend_loop (S fuel) w message msgLen totalSent =
    (' (currSent, w) <- send w (skipn (Z.to_nat totalSent) message)
                             (Z.to_nat (msgLen - totalSent)) ;;
     if (currSent =? -1)%Z then Exited (-1)
     else
       totalSent <- int_result (totalSent + currSent) ;;
       chatSend_loop fuel w message msgLen totalSent).
Proof.
  intros H. apply Z.ltb_lt in H.
  cbn [chatSend_loop]. rewrite H. reflexivity.
Qed.

Lemma chatSend_loop_done (fuel : nat) (w : world) (message : list char)
    (msgLen totalSent : Z) :
  (msgLen <= totalSent)%Z ->
  chatSend_loop fuel w message msgLen totalSent = Ok w.
Proof.
  intros H. apply Z.ltb_ge in H.
  destruct fuel; cbn [chatSend_loop]; rewrite H; reflexivity.
Qed.

Lemma firstn_add (A : Type) (a b : nat) (l : list A) :
  firstn (a + b) l = firstn a l ++ firstn b (skipn a l).
Proof.
  revert l. induction a as [|a IH]; intros [|x l]; simpl.
  - reflexivity.
  - reflexivity.
  - now rewrite firstn_nil.
  - now rewrite IH.
Qed.

Lemma chatSend_loop_sends :
  forall caps rest fuel w message msgLen totalSent,
    tx w = map SendAccepts caps ++ rest ->
    accepts_some caps = true ->
    (0 <= totalSent <= msgLen)%Z ->
    (msgLen <= Z.of_nat (length message))%Z ->
    (msgLen <= INT_MAX)%Z ->
    (msgLen - totalSent <= Z.of_nat (length caps))%Z ->
    length (tx w) < fuel ->
    exists w',
      chatSend_loop fuel w message msgLen totalSent = Ok w'
      /\ wire w' = wire w ++ firstn (Z.to_nat (msgLen - totalSent))
                                   (skipn (Z.to_nat totalSent) message)
      /\ rx w' = rx w /\ stdout w' = stdout w.
Proof.
  induction caps as [|k caps IH];
    intros rest fuel w message msgLen totalSent
           Htx Hcaps Hsent Hlen Hmax Henough Hfuel.
  - simpl in Henough. rewrite chatSend_loop_done by lia.
    exists w. replace (Z.to_nat (msgLen - totalSent)) with 0 by lia.
    rewrite firstn_0, app_nil_r. auto.
  - destruct (Z.eq_dec totalSent msgLen) as [Heq|Hneq].
    { rewrite chatSend_loop_done by lia.
      exists w. replace (Z.to_nat (msgLen - totalSent)) with 0 by lia.
      rewrite firstn_0, app_nil_r. auto. }
    simpl in Htx, Henough.
    unfold accepts_some in Hcaps. cbn [forallb] in Hcaps.
    apply andb_true_iff in Hcaps as [Hk Hcaps]. apply Nat.leb_le in Hk.
    destruct fuel as [|fuel]; [lia|].
    pose proof INT_MIN_val as Hmin. pose proof INT_MAX_val as Hmaxv.
    rewrite chatSend_loop_step by lia.
    set (len := Z.to_nat (msgLen - totalSent)).
    set (data := skipn (Z.to_nat totalSent) message).
    set (n := Nat.min k len).
    assert (Hn : 1 <= n <= len) by (unfold n, len; lia).
    assert (Hdata : len <= length data).
    { unfold data, len. rewrite length_skipn. lia. }
    unfold send. rewrite Htx. fold n.
    replace (n <=? length data) with true by (symmetry; apply Nat.leb_le; lia).
    cbn [bind].
    assert (Hz : (Z.of_nat n =? -1)%Z = false) by (apply Z.eqb_neq; lia).
    rewrite Hz. rewrite int_result_ok by lia. cbn [bind].
    destruct (IH rest fuel (sent w (map SendAccepts caps ++ rest) (firstn n data))
                message msgLen (totalSent + Z.of_nat n)%Z)
      as [w' [Hrun [Hwire [Hrx Hout]]]]; try assumption; try lia; try reflexivity.
    + rewrite Htx in Hfuel. simpl in Hfuel |- *. lia.
    + exists w'. rewrite Hrun. repeat split; try assumption.
      rewrite Hwire. simpl. rewrite <- app_assoc. f_equal.
      replace (Z.to_nat (msgLen - (totalSent + Z.of_nat n))) with (len - n)
        by (unfold len; lia).
      replace (Z.to_nat (totalSent + Z.of_nat n)) with (n + Z.to_nat totalSent)
        by lia.
      rewrite <- skipn_skipn. fold data.
      replace len with (n + (len - n)) at 2 by lia.
      now rewrite firstn_add.
Qed.

(** ** [_chatReceiveHelper] and [chatReceive] on whole reads *)

Lemma concat_nonempty_nil (chunks : list (list char)) :
  nonempty_chunks chunks = true -> concat chunks = [] -> chunks = [].
Proof.
  destruct chunks as [|c cs]; [reflexivity|].
  intros Hne Hnil. apply nonempty_chunks_cons in Hne as [Hc _].
  simpl in Hnil. apply app_eq_nil in Hnil as [Hnil _]. subst c.
  simpl in Hc. lia.
Qed.

Lemma helper_reads (w : world) (message s : list char) (need : nat)
    (chunks : list (list char)) (rest : list recv_event) (body : list char) (z : nat) :
  rx w = map RecvBytes chunks ++ rest ->
  nonempty_chunks chunks = true ->
  1 <= need <= length (concat chunks) ->
  need < MAX_BYTES ->
  firstn need (concat chunks) = body ++ repeat NUL z ->
  nul_free body = true ->
  cstr message = Some s ->
  length s + length body + 1 <= length message ->
  exists status message' w' chunks',
    _chatReceiveHelper w message (Z.of_nat need) = Ok (status, message', w')
    /\ (0 < status)%Z
    /\ cstr message' = Some (s ++ body)
    /\ length message' = length message
    /\ rx w' = map RecvBytes chunks' ++ rest
    /\ concat chunks' = skipn need (concat chunks)
    /\ nonempty_chunks chunks' = true
    /\ stdout w' = stdout w.
Proof.
  intros Hrx Hne Hneed Hmax Hdata Hbody Hmsg Hfit.
  pose proof INT_MIN_val. pose proof INT_MAX_val. pose proof MAX_BYTES_val.
  unfold _chatReceiveHelper.
  apply helper_loop_reads with (z := z); try assumption; lia.
Qed.


(** The header phase of [chatReceive]: three bytes without [NUL] arrive and
    the function goes on to read as many bytes as [strtol] makes of them. *)
Lemma chatReceive_header (w : world) (message hdr : list char)
    (chunks : list (list char)) (rest : list recv_event) :
  rx w = map RecvBytes chunks ++ rest ->
  nonempty_chunks chunks = true ->
  PREFIX_OFFSET <= length (concat chunks) ->
  firstn PREFIX_OFFSET (concat chunks) = hdr ->
  nul_free hdr = true ->
  exists w1 chunks1,
    chatReceive w message =
      (' (status, body, w2) <- _chatReceiveHelper w1 (repeat NUL MAX_BYTES)
                                 (long_to_int (strtol_string hdr)) ;;
       message' <- strcpy message body ;;
       Ok (status, message', w2))
    /\ rx w1 = map RecvBytes chunks1 ++ rest
    /\ concat chunks1 = skipn PREFIX_OFFSET (concat chunks)
    /\ nonempty_chunks chunks1 = true
    /\ stdout w1 = stdout w.
Proof.
  intros Hrx Hne Hlen Hhdr Hfree.
  pose proof MAX_BYTES_val as HMB.
  assert (Hhl : length hdr = PREFIX_OFFSET).
  { subst hdr. rewrite length_firstn. lia. }
  destruct (@helper_reads w (repeat NUL (PREFIX_OFFSET + 1)) []
              PREFIX_OFFSET chunks rest hdr 0)
    as [status [header [w1 [chunks1 [Hrun [Hst [Hh [_ [Hrx1 [Hcc [Hne1 Hout]]]]]]]]]]];
    try assumption; try reflexivity.
  - unfold PREFIX_OFFSET in *. lia.
  - unfold PREFIX_OFFSET. lia.
  - simpl. now rewrite app_nil_r.
  - rewrite repeat_length. unfold PREFIX_OFFSET in *. simpl. lia.
  - exists w1, chunks1. unfold chatReceive. rewrite Hrun. cbn [bind].
    replace (status =? 0)%Z with false by (symmetry; apply Z.eqb_neq; lia).
    unfold strtol. simpl in Hh. rewrite Hh. cbn [bind].
    repeat split; assumption.
Qed.

(** A whole frame arrives: a header of three bytes that [strtol] converts to
    [n], then [n] bytes that are text followed by terminators only. *)
Lemma chatReceive_frame (w : world) (message hdr body : list char) (z n : nat)
    (chunks : list (list char)) (rest : list recv_event) :
  rx w = map RecvBytes chunks ++ rest ->
  nonempty_chunks chunks = true ->
  PREFIX_OFFSET + n <= length (concat chunks) ->
  firstn (PREFIX_OFFSET + n) (concat chunks) = hdr ++ body ++ repeat NUL z ->
  length hdr = PREFIX_OFFSET ->
  nul_free hdr = true ->
  strtol_string hdr = Z.of_nat n ->
  1 <= n < MAX_BYTES ->
  nul_free body = true ->
  length body + 1 <= length message ->
  exists status message' w' chunks',
    chatReceive w message = Ok (status, message', w')
    /\ (0 < status)%Z
    /\ cstr message' = Some body
    /\ length message' = length message
    /\ rx w' = map RecvBytes chunks' ++ rest
    /\ concat chunks' = skipn (PREFIX_OFFSET + n) (concat chunks)
    /\ nonempty_chunks chunks' = true
    /\ stdout w' = stdout w.
Proof.
  intros Hrx Hne Hlen Hframe Hhl Hhf Hval Hn Hbf Hcap.
  pose proof MAX_BYTES_val as HMB.
  assert (Hhdr : firstn PREFIX_OFFSET (concat chunks) = hdr).
  { rewrite <- (Nat.min_l PREFIX_OFFSET (PREFIX_OFFSET + n)) by lia.
    rewrite <- firstn_firstn, Hframe, firstn_app, Hhl, Nat.sub_diag.
    rewrite firstn_0, app_nil_r, <- Hhl. apply firstn_all. }
  destruct (@chatReceive_header w message hdr chunks rest
              Hrx Hne ltac:(lia) Hhdr Hhf)
    as [w1 [chunks1 [Hrun [Hrx1 [Hcc1 [Hne1 Hout1]]]]]].
  rewrite Hrun, Hval.
  rewrite long_to_int_small by lia.
  assert (Hblen : length body + z = n).
  { apply (f_equal (@length _)) in Hframe.
    rewrite length_firstn, !length_app, repeat_length in Hframe. lia. }
  assert (Hbody : firstn n (concat chunks1) = body ++ repeat NUL z).
  { rewrite Hcc1, firstn_skipn_comm, Hframe, skipn_app.
    rewrite skipn_all2, Hhl, Nat.sub_diag by lia. reflexivity. }
  destruct (@helper_reads w1 (repeat NUL MAX_BYTES) [] n chunks1 rest body z)
    as [status [body2 [w2 [chunks2 [Hrun2 [Hst [Hb2 [Hl2 [Hrx2 [Hcc2 [Hne2 Hout2]]]]]]]]]]];
    try assumption; try reflexivity.
  - rewrite Hcc1, length_skipn. lia.
  - lia.
  - rewrite repeat_length. simpl. lia.
  - rewrite Hrun2. cbn [bind]. simpl in Hb2.
    destruct (@strcpy_ok message body2 body Hb2)
      as [message' [Hcpy [Hm' Hl']]]; [lia|].
    rewrite Hcpy. cbn [bind].
    exists status, message', w2, chunks2.
    repeat split; try assumption; try congruence.
    rewrite Hcc2, Hcc1, skipn_skipn. f_equal. lia.
Qed.

(** ** The loops end within their fuel *)

Lemma int_result_pure (z : Z) : pure_outcome (int_result z).
Proof. unfold int_result. destruct (_ && _); exact I. Qed.

Lemma write_string_pure (a : list char) (off : nat) (s : list char) :
  pure_outcome (write_string a off s).
Proof. unfold write_string. destruct (_ <=? _); exact I. Qed.

Lemma strcat_pure (dst src : list char) : pure_outcome (strcat dst src).
Proof.
  unfold strcat. destruct (cstr dst); [|exact I].
  destruct (cstr src); [apply write_string_pure | exact I].
Qed.

Lemma strcpy_pure (dst src : list char) : pure_outcome (strcpy dst src).
Proof.
  unfold strcpy. destruct (cstr src); [apply write_string_pure | exact I].
Qed.

Lemma strtol_pure (a : list char) : pure_outcome (strtol a).
Proof. unfold strtol. destruct (cstr a); exact I. Qed.

Create HintDb pure_outcomes.

#[local] Hint Resolve int_result_pure write_string_pure strcat_pure
  strcpy_pure strtol_pure : pure_outcomes.

Lemma bind_pure_not_fuel (A B : Type) (m : outcome A) (k : A -> outcome B) :
  pure_outcome m ->
  (forall a, m = Ok a -> k a <> OutOfFuel) ->
  bind m k <> OutOfFuel.
Proof.
  destruct m; simpl; intros Hp Hk; try contradiction.
  - now apply Hk.
  - discriminate.
Qed.

Lemma helper_loop_total :
  forall fuel w message msgLen got st,
    rx_weight (rx w) < fuel ->
    _chatReceiveHelper_loop fuel w message msgLen got st <> OutOfFuel.
Proof.
  induction fuel as [|fuel IH]; intros w message msgLen got st Hfuel; [lia|].
  destruct (Z.ltb_spec got msgLen) as [Hlt|Hge].
  - rewrite helper_loop_step by assumption.
    apply bind_pure_not_fuel; [auto with pure_outcomes|].
    intros len Hlen.
    assert (Hpos : 1 <= Z.to_nat len).
    { unfold int_result in Hlen. destruct (_ && _); [|discriminate].
      injection Hlen as <-. lia. }
    unfold recv. change (rx (log_recv w (Z.to_nat len))) with (rx w).
    destruct (rx w) as [|[bs| |] r] eqn:Hrx; cbn [bind].
    + discriminate.
    + destruct (Nat.min (Z.to_nat len) (length bs) <=? length (repeat NUL MAX_BYTES));
        cbn [bind]; [|discriminate].
      destruct (Z.of_nat (Nat.min (Z.to_nat len) (length bs)) =? 0)%Z eqn:Hz;
        [discriminate|].
      apply Z.eqb_neq in Hz.
      apply bind_pure_not_fuel; [auto with pure_outcomes|]. intros message1 _.
      apply bind_pure_not_fuel; [auto with pure_outcomes|]. intros got1 _.
      apply IH. simpl rx.
      pose proof (@rx_weight_after_chunk bs r
                    (Nat.min (Z.to_nat len) (length bs))) as Hw.
      simpl in Hfuel. simpl in Hw. lia.
    + discriminate.
    + change (-1 =? 0)%Z with false. cbn iota.
      apply bind_pure_not_fuel; [auto with pure_outcomes|]. intros message1 _.
      apply bind_pure_not_fuel; [auto with pure_outcomes|]. intros got1 _.
      apply IH. simpl in Hfuel |- *. lia.
  - apply Z.ltb_ge in Hge. cbn [_chatReceiveHelper_loop]. rewrite Hge.
    destruct st; discriminate.
Qed.

Lemma chatReceiveHelper_total (w : world) (message : list char) (msgLen : Z) :
  _chatReceiveHelper w message msgLen <> OutOfFuel.
Proof. unfold _chatReceiveHelper. apply helper_loop_total. lia. Qed.

Lemma chatReceive_total (w : world) (message : list char) :
  chatReceive w message <> OutOfFuel.
Proof.
  unfold chatReceive.
  destruct (_chatReceiveHelper w (repeat NUL (PREFIX_OFFSET + 1))
              (Z.of_nat PREFIX_OFFSET)) as [[[status header] w1]| | | |] eqn:E;
    cbn [bind]; try discriminate.
  - destruct (status =? 0)%Z; [discriminate|].
    apply bind_pure_not_fuel; [auto with pure_outcomes|]. intros msgLen _.
    destruct (_chatReceiveHelper w1 (repeat NUL MAX_BYTES) (long_to_int msgLen))
      as [[[status2 body] w2]| | | |] eqn:E2; cbn [bind]; try discriminate.
    + apply bind_pure_not_fuel; [auto with pure_outcomes|]. discriminate.
    + now apply chatReceiveHelper_total in E2.
  - now apply chatReceiveHelper_total in E.
Qed.

Lemma chatSend_loop_total :
  forall fuel w message msgLen totalSent,
    length (tx w) < fuel ->
    chatSend_loop fuel w message msgLen totalSent <> OutOfFuel.
Proof.
  induction fuel as [|fuel IH]; intros w message msgLen totalSent Hfuel; [lia|].
  destruct (Z.ltb_spec totalSent msgLen) as [Hlt|Hge].
  - rewrite chatSend_loop_step by assumption.
    unfold send.
    destruct (tx w) as [|[k|] r] eqn:Htx; cbn [bind].
    + discriminate.
    + destruct (_ <=? _); cbn [bind]; [|discriminate].
      destruct (_ =? -1)%Z; [discriminate|].
      apply bind_pure_not_fuel; [auto with pure_outcomes|]. intros t _.
      apply IH. simpl in Hfuel |- *. lia.
    + discriminate.
  - rewrite chatSend_loop_done by assumption. discriminate.
Qed.

Lemma chatSend_total (w : world) (message : list char) (msgLen : Z) :
  chatSend w message msgLen <> OutOfFuel.
Proof. unfold chatSend. apply chatSend_loop_total. lia. Qed.

(** * The claims *)

(** ** C1: round trip *)

(** C1, as amended. For every payload [p] that the array [msg] holds as a
    string (so [p] has no [NUL]) and whose frame fits the [MAX_BYTES] cells
    of the local array, that is of at most 512 bytes: [_prependByteCountMsg]
    builds the frame, [chatSend] puts it on the wire whatever the sizes of
    the partial writes, and when the stream delivers exactly these bytes, in
    chunks of any sizes, [chatReceive] returns a positive status and leaves
    [p] in [message]. *)
Theorem roundtrip_within_capacity
    (p stack msg message : list char) (msgLen : Z)
    (w_tx : world) (caps : list nat) (tx_rest : list send_event)
    (w_rx : world) (chunks : list (list char)) (rx_rest : list recv_event) :
  cstr msg = Some p ->
  PREFIX_OFFSET + length p + 1 <= MAX_BYTES ->
  length stack = MAX_BYTES ->
  PREFIX_OFFSET + length p + 1 <= length msg ->
  (0 <= msgLen <= Z.of_nat (length msg))%Z ->
  tx w_tx = map SendAccepts caps ++ tx_rest ->
  accepts_some caps = true ->
  PREFIX_OFFSET + length p + 1 <= length caps ->
  rx w_rx = map RecvBytes chunks ++ rx_rest ->
  nonempty_chunks chunks = true ->
  length p + 1 <= length message ->
  exists frame w_tx',
    _prependByteCountMsg stack msg msgLen = Ok frame
    /\ main_chatSend w_tx frame = Ok w_tx'
    /\ (wire w_tx' = wire w_tx ++ concat chunks ->
        exists status message' w_rx',
          chatReceive w_rx message = Ok (status, message', w_rx')
          /\ (0 < status)%Z
          /\ cstr message' = Some p
          /\ rx w_rx' = rx_rest).
Proof.
  intros Hmsg Hfit Hstack Hcap HmsgLen Htx Hcaps Henough Hrx Hne Hroom.
  pose proof MAX_BYTES_val as HMB. pose proof INT_MAX_val as HIM.
  unfold PREFIX_OFFSET in *.
  assert (Hn : length p + 1 < 1000) by lia.
  destruct (cstr_inv _ Hmsg) as [Hpf _].
  destruct (@prepend_ok stack msg p msgLen Hstack Hmsg Hfit Hcap HmsgLen)
    as [frame [Hpre [Hframe Hfl]]].
  exists frame.
  unfold main_chatSend. rewrite (strlen_cstr _ Hframe). cbn [bind].
  rewrite length_app, (format_03d_length Hn).
  pose proof (cstr_length _ Hframe) as Hfcap.
  rewrite length_app, (format_03d_length Hn) in Hfcap.
  destruct (@chatSend_loop_sends caps tx_rest (S (length (tx w_tx))) w_tx frame
              (Z.of_nat (3 + length p) + 1)%Z 0%Z)
    as [w_tx' [Hsend [Hwire _]]]; try assumption; try lia.
  exists w_tx'. split; [assumption|]. split; [exact Hsend|].
  intros Hstream.
  rewrite Hwire in Hstream. apply app_inv_head in Hstream.
  assert (Hsent : concat chunks = format_03d (length p + 1) ++ p ++ repeat NUL 1).
  { rewrite <- Hstream. simpl skipn.
    destruct (cstr_inv _ Hframe) as [_ Heq]. rewrite Heq.
    replace (Z.to_nat (Z.of_nat (3 + length p) + 1 - 0))
      with (length (format_03d (length p + 1) ++ p) + 1)
      by (rewrite length_app, (format_03d_length Hn); lia).
    rewrite firstn_app, firstn_all2 by lia.
    replace (length (format_03d (length p + 1) ++ p) + 1
             - length (format_03d (length p + 1) ++ p)) with 1 by lia.
    rewrite <- app_assoc. reflexivity. }
  assert (Hclen : length (concat chunks) = 3 + (length p + 1)).
  { rewrite Hsent, !length_app, (format_03d_length Hn). simpl. lia. }
  destruct (@chatReceive_frame w_rx message (format_03d (length p + 1)) p 1
              (length p + 1) chunks rx_rest)
    as [status [message' [w_rx' [chunks' [Hrun [Hst [Hm' [_ [Hrx' [Hcc [Hne' _]]]]]]]]]]];
    try assumption; unfold PREFIX_OFFSET in *; try lia.
  - rewrite firstn_all2 by lia. exact Hsent.
  - now apply format_03d_length.
  - now apply format_03d_nul_free.
  - now apply strtol_format_03d.
  - exists status, message', w_rx'. repeat split; try assumption.
    rewrite Hrx'. rewrite skipn_all2 in Hcc by lia.
    now rewrite (concat_nonempty_nil chunks' Hne' Hcc).
Qed.

Lemma roundtrip_within_capacity_witness :
  exists frame w_tx',
    _prependByteCountMsg junk (user_buffer "bob> hi") 2 = Ok frame
    /\ main_chatSend (sender (repeat 1 11)) frame = Ok w_tx'
    /\ (wire w_tx' = wire (sender (repeat 1 11))
                     ++ concat [text "00"; text "8bob>"; text " h"; text "i" ++ [NUL]] ->
        exists status message' w_rx',
          chatReceive (receiver (map RecvBytes
                         [text "00"; text "8bob>"; text " h"; text "i" ++ [NUL]]))
                      (user_buffer "")
            = Ok (status, message', w_rx')
          /\ (0 < status)%Z
          /\ cstr message' = Some (text "bob> hi")
          /\ rx w_rx' = []).
Proof.
  apply (@roundtrip_within_capacity (text "bob> hi") junk (user_buffer "bob> hi")
           (user_buffer "") 2 (sender (repeat 1 11)) (repeat 1 11) []
           (receiver (map RecvBytes
                        [text "00"; text "8bob>"; text " h"; text "i" ++ [NUL]]))
           [text "00"; text "8bob>"; text " h"; text "i" ++ [NUL]] []);
    by_evaluation.
Defined.

(** C1 fails as stated: a payload of 999 bytes is within the stated range,
    but its count with the terminator is 1000, which [%03d] prints with four
    digits, and the frame overruns the [MAX_BYTES] cells of the local array
    of [_prependByteCountMsg]. *)
Lemma roundtrip_fails_at_999 :
  let p := repeat "a"%char 999 in
  let msg := p ++ repeat NUL (MAX_BYTES * 2 - 999) in
  length p = 999
  /\ cstr msg = Some p
  /\ format_03d (length p + 1) = text "1000"
  /\ _prependByteCountMsg junk msg 500 = Undefined OutOfBounds.
Proof. vm_compute. repeat split; reflexivity. Qed.

(** ** C2: the header *)

(** C2, as amended. For every payload [p] held by [msg] whose frame fits
    [MAX_BYTES] (at most 512 bytes), the frame is the three decimal digits
    of [length p + 1], most significant first, followed by [p]; the bytes
    that [main] sends for it are these [3 + length p] bytes and the
    terminating [NUL], which the header counts. *)
Theorem frame_header_counts_terminator
    (p stack msg : list char) (msgLen : Z)
    (w : world) (caps : list nat) (rest : list send_event) :
  cstr msg = Some p ->
  PREFIX_OFFSET + length p + 1 <= MAX_BYTES ->
  length stack = MAX_BYTES ->
  PREFIX_OFFSET + length p + 1 <= length msg ->
  (0 <= msgLen <= Z.of_nat (length msg))%Z ->
  tx w = map SendAccepts caps ++ rest ->
  accepts_some caps = true ->
  PREFIX_OFFSET + length p + 1 <= length caps ->
  exists frame w',
    _prependByteCountMsg stack msg msgLen = Ok frame
    /\ cstr frame = Some (three_digits (length p + 1) ++ p)
    /\ main_chatSend w frame = Ok w'
    /\ wire w' = wire w ++ three_digits (length p + 1) ++ p ++ [NUL]
    /\ length (three_digits (length p + 1) ++ p ++ [NUL]) = 3 + length p + 1.
Proof.
  intros Hmsg Hfit Hstack Hcap HmsgLen Htx Hcaps Henough.
  pose proof MAX_BYTES_val as HMB. pose proof INT_MAX_val as HIM.
  unfold PREFIX_OFFSET in *.
  assert (Hn : length p + 1 < 1000) by lia.
  destruct (@prepend_ok stack msg p msgLen Hstack Hmsg Hfit Hcap HmsgLen)
    as [frame [Hpre [Hframe Hfl]]].
  rewrite (format_03d_digits Hn) in Hframe.
  exists frame.
  unfold main_chatSend. rewrite (strlen_cstr _ Hframe). cbn [bind].
  pose proof (cstr_length _ Hframe) as Hfcap.
  rewrite length_app in *. change (length (three_digits (length p + 1))) with 3 in *.
  destruct (@chatSend_loop_sends caps rest (S (length (tx w))) w frame
              (Z.of_nat (3 + length p) + 1)%Z 0%Z)
    as [w' [Hsend [Hwire _]]]; try assumption; try lia.
  exists w'. repeat split; try assumption.
  - rewrite Hwire. f_equal. simpl skipn.
    destruct (cstr_inv _ Hframe) as [_ Heq]. rewrite Heq.
    replace (Z.to_nat (Z.of_nat (3 + length p) + 1 - 0))
      with (length (three_digits (length p + 1) ++ p) + 1)
      by (rewrite length_app; simpl; lia).
    rewrite firstn_app, firstn_all2 by lia.
    replace (length (three_digits (length p + 1) ++ p) + 1
             - length (three_digits (length p + 1) ++ p)) with 1 by lia.
    rewrite <- app_assoc. reflexivity.
  - rewrite !length_app. simpl. lia.
Qed.

Lemma frame_header_counts_terminator_witness :
  exists frame w',
    _prependByteCountMsg junk (user_buffer "abcdefg") 7 = Ok frame
    /\ cstr frame = Some (three_digits (7 + 1) ++ text "abcdefg")
    /\ main_chatSend (sender (repeat 1 11)) frame = Ok w'
    /\ wire w' = wire (sender (repeat 1 11))
                 ++ three_digits (7 + 1) ++ text "abcdefg" ++ [NUL]
    /\ length (three_digits (7 + 1) ++ text "abcdefg" ++ [NUL]) = 3 + 7 + 1.
Proof.
  apply (@frame_header_counts_terminator (text "abcdefg") junk
           (user_buffer "abcdefg") 7 (sender (repeat 1 11)) (repeat 1 11) []);
    by_evaluation.
Defined.

(** C2 fails as stated: for a payload of 7 bytes the header is ["008"], not
    ["007"], and 11 bytes are sent, not 10: the payload is followed by its
    terminator, and the header counts it. *)
Lemma header_of_7_bytes_is_008 :
  frame_and_wire (text "abcdefg") 7
    = Ok (Some (text "008abcdefg"), text "008abcdefg" ++ [NUL])
  /\ text "008" <> three_digits (length (text "abcdefg"))
  /\ length (text "008abcdefg" ++ [NUL]) <> 3 + length (text "abcdefg").
Proof. vm_compute. repeat split; (reflexivity || discriminate). Qed.

(** ** C3: a header that is not three digits *)

(** C3, as amended. [chatReceive] has no outcome for a malformed header. For
    every header of three bytes other than [NUL], digits or not, the length
    of the body is what [strtol] makes of the header: when this is [n] with
    [1 <= n < MAX_BYTES] and [n] bytes of text follow, [chatReceive] reads
    them and returns them with a positive status. *)
Theorem chatReceive_converts_any_header
    (w : world) (message hdr body : list char)
    (chunks : list (list char)) (rest : list recv_event) :
  rx w = map RecvBytes chunks ++ rest ->
  nonempty_chunks chunks = true ->
  concat chunks = hdr ++ body ->
  length hdr = PREFIX_OFFSET ->
  nul_free hdr = true ->
  strtol_string hdr = Z.of_nat (length body) ->
  1 <= length body < MAX_BYTES ->
  nul_free body = true ->
  length body + 1 <= length message ->
  exists status message' w',
    chatReceive w message = Ok (status, message', w')
    /\ (0 < status)%Z
    /\ cstr message' = Some body
    /\ rx w' = rest
    /\ stdout w' = stdout w.
Proof.
  intros Hrx Hne Hcc Hhl Hhf Hval Hn Hbf Hcap.
  assert (Hlen : length (concat chunks) = PREFIX_OFFSET + length body).
  { rewrite Hcc, length_app. lia. }
  destruct (@chatReceive_frame w message hdr body 0 (length body) chunks rest)
    as [status [message' [w' [chunks' [Hrun [Hst [Hm' [_ [Hrx' [Hcc' [Hne' Hout]]]]]]]]]]];
    try assumption; try lia.
  - rewrite firstn_all2 by lia. simpl. now rewrite app_nil_r.
  - exists status, message', w'. repeat split; try assumption.
    rewrite skipn_all2 in Hcc' by lia.
    now rewrite Hrx', (concat_nonempty_nil chunks' Hne' Hcc').
Qed.

Lemma chatReceive_converts_any_header_witness :
  exists status message' w',
    chatReceive (receiver (map RecvBytes [text "12"; text "ahello "; text "world!"]))
                (user_buffer "")
      = Ok (status, message', w')
    /\ (0 < status)%Z
    /\ cstr message' = Some (text "hello world!")
    /\ rx w' = []
    /\ stdout w' = [].
Proof.
  apply (@chatReceive_converts_any_header
           (receiver (map RecvBytes [text "12"; text "ahello "; text "world!"]))
           (user_buffer "") (text "12a") (text "hello world!")
           [text "12"; text "ahello "; text "world!"] []);
    by_evaluation.
Defined.

(** C3 fails as stated: the header ["12a"] is taken as the length 12 and
    the 12 bytes that follow are read and returned with a positive status;
    the header ["0a1"] is taken as the length 0, and then the body read
    returns the [status] that it never assigned. No run reports an error. *)
Lemma malformed_header_is_converted :
  forallb isdigit (text "12a") = false
  /\ observe (chatReceive (receiver [RecvBytes (text "12ahello world!")])
                          (user_buffer ""))
     = Ok (12%Z, Some (text "hello world!"), [], [3; 12], [])
  /\ forallb isdigit (text "0a1") = false
  /\ strtol_string (text "0a1") = 0%Z
  /\ chatReceive (receiver [RecvBytes (text "0a1")]) (user_buffer "")
     = Undefined Uninitialized.
Proof. vm_compute. repeat split; reflexivity. Qed.

(** ** C5: the peer closes between two messages *)

(** C5. When the first read for the header finds the connection closed,
    [chatReceive] returns 0; it has called [recv] once, for the header, and
    has not touched [message]. *)
Theorem chatReceive_clean_closure
    (w : world) (message : list char) (rest : list recv_event) :
  rx w = RecvZero :: rest ->
  exists w',
    chatReceive w message = Ok (0%Z, message, w')
    /\ recv_log w' = recv_log w ++ [PREFIX_OFFSET]
    /\ rx w' = rest
    /\ stdout w' = stdout w ++ [server_ended].
Proof.
  intros Hrx.
  exists (printf (set_rx (log_recv w PREFIX_OFFSET) rest) server_ended).
  unfold chatReceive, _chatReceiveHelper.
  rewrite helper_loop_step by (unfold PREFIX_OFFSET; lia).
  rewrite int_result_ok by (vm_compute; split; discriminate).
  cbn [bind]. rewrite (recv_zero w _ _ Hrx). cbn [bind].
  repeat split; reflexivity.
Qed.

Lemma chatReceive_clean_closure_witness :
  exists w',
    chatReceive (receiver [RecvZero; RecvBytes (text "003abc")]) (user_buffer "")
      = Ok (0%Z, user_buffer "", w')
    /\ recv_log w' = recv_log (receiver [RecvZero; RecvBytes (text "003abc")])
                     ++ [PREFIX_OFFSET]
    /\ rx w' = [RecvBytes (text "003abc")]
    /\ stdout w' = stdout (receiver [RecvZero; RecvBytes (text "003abc")])
                   ++ [server_ended].
Proof.
  apply (@chatReceive_clean_closure
           (receiver [RecvZero; RecvBytes (text "003abc")]) (user_buffer "")
           [RecvBytes (text "003abc")]).
  reflexivity.
Defined.

(** ** C4: the peer closes inside a message *)

(** C4, as amended. When the header promises [n > 0] bytes and the
    connection is closed after fewer have arrived, [chatReceive] returns 0
    and prints the same line as for a closure between two messages: the
    caller is told not to use [message], and cannot tell the two closures
    apart. *)
Theorem chatReceive_mid_message_closure
    (w : world) (message hdr partial : list char) (n : Z)
    (chunks : list (list char)) (rest : list recv_event) :
  rx w = map RecvBytes chunks ++ RecvZero :: rest ->
  nonempty_chunks chunks = true ->
  concat chunks = hdr ++ partial ->
  length hdr = PREFIX_OFFSET ->
  nul_free hdr = true ->
  strtol_string hdr = n ->
  (0 < n <= 999)%Z ->
  (Z.of_nat (length partial) < n)%Z ->
  length partial < MAX_BYTES ->
  MAX_BYTES <= length message ->
  exists message' w',
    chatReceive w message = Ok (0%Z, message', w')
    /\ rx w' = rest
    /\ stdout w' = stdout w ++ [server_ended]
    /\ forall w0 rest0, rx w0 = RecvZero :: rest0 ->
         exists w0', chatReceive w0 message = Ok (0%Z, message, w0')
                     /\ stdout w0' = stdout w0 ++ [server_ended].
Proof.
  intros Hrx Hne Hcc Hhl Hhf Hval Hn Hshort Hpart Hcap.
  pose proof MAX_BYTES_val as HMB. pose proof INT_MAX_val as HIM.
  assert (Hhdr : firstn PREFIX_OFFSET (concat chunks) = hdr).
  { rewrite Hcc, firstn_app, Hhl, Nat.sub_diag, firstn_0, app_nil_r, <- Hhl.
    apply firstn_all. }
  destruct (@chatReceive_header w message hdr chunks (RecvZero :: rest)
              Hrx Hne) as [w1 [chunks1 [Hrun [Hrx1 [Hcc1 [Hne1 Hout1]]]]]];
    try assumption.
  { rewrite Hcc, length_app. lia. }
  assert (Hc1 : concat chunks1 = partial).
  { rewrite Hcc1, Hcc, skipn_app, skipn_all2, Hhl, Nat.sub_diag by lia.
    reflexivity. }
  rewrite Hrun, Hval, long_to_int_small by lia.
  destruct (@helper_loop_closed chunks1 rest (S (rx_weight (rx w1))) w1
              (repeat NUL MAX_BYTES) [] n 0%Z None)
    as [body [w2 [part [Hrun2 [Hb [Hpl [_ [Hrx2 Hout2]]]]]]]];
    try assumption; try reflexivity; rewrite ?Hc1, ?repeat_length;
    try (simpl; lia).
  unfold _chatReceiveHelper. rewrite Hrun2. cbn [bind].
  simpl in Hb. rewrite Hc1 in Hpl.
  destruct (@strcpy_ok message body part Hb) as [message' [Hcpy [_ _]]]; [lia|].
  rewrite Hcpy. cbn [bind].
  exists message', w2. repeat split; try assumption; try congruence.
  intros w0 rest0 Hrx0.
  exists (printf (set_rx (log_recv w0 PREFIX_OFFSET) rest0) server_ended).
  unfold chatReceive, _chatReceiveHelper.
  rewrite helper_loop_step by (unfold PREFIX_OFFSET; lia).
  rewrite int_result_ok by (vm_compute; split; discriminate).
  cbn [bind]. rewrite (recv_zero w0 _ _ Hrx0). cbn [bind].
  split; reflexivity.
Qed.

Lemma chatReceive_mid_message_closure_witness :
  exists message' w',
    chatReceive (receiver (map RecvBytes [text "00"; text "5a"; text "b"]
                           ++ RecvZero :: []))
                (user_buffer "")
      = Ok (0%Z, message', w')
    /\ rx w' = []
    /\ stdout w' = stdout (receiver (map RecvBytes [text "00"; text "5a"; text "b"]
                                     ++ RecvZero :: []))
                   ++ [server_ended]
    /\ forall w0 rest0, rx w0 = RecvZero :: rest0 ->
         exists w0', chatReceive w0 (user_buffer "") = Ok (0%Z, user_buffer "", w0')
                     /\ stdout w0' = stdout w0 ++ [server_ended].
Proof.
  apply (@chatReceive_mid_message_closure
           (receiver (map RecvBytes [text "00"; text "5a"; text "b"]
                      ++ RecvZero :: []))
           (user_buffer "") (text "005") (text "ab") 5
           [text "00"; text "5a"; text "b"] []);
    by_evaluation.
Defined.

(** C4 fails as stated: after the header ["005"] and two of the five bytes,
    a closure gives the status 0 and the printed line of a closure between
    two messages, and the two bytes that did arrive are copied to
    [message]. *)
Lemma mid_message_closure_not_distinguished :
  observe (chatReceive (receiver [RecvBytes (text "005ab"); RecvZero])
                       (user_buffer ""))
    = Ok (0%Z, Some (text "ab"), [], [3; 5; 3], [server_ended])
  /\ observe (chatReceive (receiver [RecvZero]) (user_buffer ""))
     = Ok (0%Z, Some [], [], [3], [server_ended]).
Proof. vm_compute. split; reflexivity. Qed.

(** ** C6: the largest frame *)

(** C6, as amended. [_prependByteCountMsg] makes no check of the length: it
    builds the frame of every message that fits the [MAX_BYTES] cells of its
    local array with the header and the terminator (at most 512 bytes,
    header ["513"]) and overruns the array on every longer one. The check is
    [_validateMsg], in the caller: it accepts
    the messages of at most [MAX_MSG] = 500 bytes and answers 0 for the
    others, with a line on the standard error and the socket untouched. *)
Theorem message_length_check
    (w : world) (stack msg p : list char) (msgLen : Z) :
  cstr msg = Some p ->
  _validateMsg w (Some msg)
    = Ok (if length p <=? MAX_MSG
          then (1%Z, w)
          else (0%Z, fprintf_stderr w
                       ("chatclient: Invalid message length" ++ newline)%string))
  /\ (length stack = MAX_BYTES ->
      PREFIX_OFFSET + length p + 1 <= MAX_BYTES ->
      PREFIX_OFFSET + length p + 1 <= length msg ->
      (0 <= msgLen <= Z.of_nat (length msg))%Z ->
      exists frame,
        _prependByteCountMsg stack msg msgLen = Ok frame
        /\ cstr frame = Some (three_digits (length p + 1) ++ p))
  /\ (length stack = MAX_BYTES ->
      MAX_BYTES < PREFIX_OFFSET + length p + 1 ->
      _prependByteCountMsg stack msg msgLen = Undefined OutOfBounds).
Proof.
  intros Hmsg. split; [|split].
  - unfold _validateMsg. rewrite (strlen_cstr _ Hmsg). cbn [bind].
    now destruct (length p <=? MAX_MSG).
  - intros Hstack Hfit Hcap HmsgLen.
    destruct (@prepend_ok stack msg p msgLen Hstack Hmsg Hfit Hcap HmsgLen)
      as [frame [Hpre [Hframe _]]].
    exists frame. split; [assumption|].
    rewrite <- format_03d_digits; [assumption|].
    unfold PREFIX_OFFSET in Hfit. pose proof MAX_BYTES_val. lia.
  - intros Hstack Hbig. now apply prepend_overflows with (p := p).
Qed.

Lemma message_length_check_witness :
  _validateMsg (sender []) (Some (repeat "m"%char 512 ++ repeat NUL 520))
    = Ok (if length (repeat "m"%char 512) <=? MAX_MSG
          then (1%Z, sender [])
          else (0%Z, fprintf_stderr (sender [])
                       ("chatclient: Invalid message length" ++ newline)%string))
  /\ (length junk = MAX_BYTES ->
      PREFIX_OFFSET + length (repeat "m"%char 512) + 1 <= MAX_BYTES ->
      PREFIX_OFFSET + length (repeat "m"%char 512) + 1
        <= length (repeat "m"%char 512 ++ repeat NUL 520) ->
      (0 <= 500 <= Z.of_nat (length (repeat "m"%char 512 ++ repeat NUL 520)))%Z ->
      exists frame,
        _prependByteCountMsg junk (repeat "m"%char 512 ++ repeat NUL 520) 500
          = Ok frame
        /\ cstr frame = Some (three_digits (length (repeat "m"%char 512) + 1)
                              ++ repeat "m"%char 512))
  /\ (length junk = MAX_BYTES ->
      MAX_BYTES < PREFIX_OFFSET + length (repeat "m"%char 512) + 1 ->
      _prependByteCountMsg junk (repeat "m"%char 512 ++ repeat NUL 520) 500
        = Undefined OutOfBounds).
Proof.
  apply (@message_length_check (sender []) junk
           (repeat "m"%char 512 ++ repeat NUL 520) (repeat "m"%char 512) 500).
  by_evaluation.
Defined.

(** C6 fails as stated: with 999 bytes the count is 1000, printed with four
    digits, and the local array is overrun; with 1000 bytes the same
    happens. Neither call reports an error of its own, and the two lengths
    are not told apart. *)
Lemma no_frame_too_large_check :
  let p999 := repeat "a"%char 999 in
  let p1000 := repeat "a"%char 1000 in
  format_03d (length p999 + 1) = text "1000"
  /\ _prependByteCountMsg junk (p999 ++ repeat NUL 33) 500 = Undefined OutOfBounds
  /\ _prependByteCountMsg junk (p1000 ++ repeat NUL 32) 500 = Undefined OutOfBounds.
Proof. vm_compute. repeat split; reflexivity. Qed.

(** ** C7: partial writes *)

(** C7. For every array and count [n] of its bytes to send, and every
    socket whose calls of [send] each take at least one byte, [chatSend]
    puts these [n] bytes on the wire, in order. *)
Theorem chatSend_transmits_all
    (w : world) (message : list char) (n : nat)
    (caps : list nat) (rest : list send_event) :
  n <= length message ->
  (Z.of_nat n <= INT_MAX)%Z ->
  tx w = map SendAccepts caps ++ rest ->
  accepts_some caps = true ->
  n <= length caps ->
  exists w',
    chatSend w message (Z.of_nat n) = Ok w'
    /\ wire w' = wire w ++ firstn n message.
Proof.
  intros Hn Hint Htx Hcaps Henough.
  destruct (@chatSend_loop_sends caps rest (S (length (tx w))) w message
              (Z.of_nat n) 0%Z)
    as [w' [Hrun [Hwire _]]]; try assumption; try lia.
  exists w'. split; [exact Hrun|].
  rewrite Hwire. simpl skipn. now rewrite Z.sub_0_r, Nat2Z.id.
Qed.

Lemma chatSend_transmits_all_witness :
  exists w',
    chatSend (sender (repeat 1 5)) (text "hello") (Z.of_nat 5) = Ok w'
    /\ wire w' = wire (sender (repeat 1 5)) ++ firstn 5 (text "hello").
Proof.
  apply (@chatSend_transmits_all (sender (repeat 1 5)) (text "hello") 5
           (repeat 1 5) []);
    by_evaluation.
Defined.

(** ** C8: partial reads *)

(** C8, as amended. For every count [n] with [1 <= n < MAX_BYTES] and every
    stream that delivers at least [n] bytes, the first [n] of them other than
    [NUL], in chunks of any positive sizes, [_chatReceiveHelper] on an array
    that holds the empty string and has room for [n] bytes and a terminator
    returns a positive status and leaves exactly these [n] bytes in it, in
    the order of arrival; the bytes after them stay in the stream. *)
Theorem chatReceiveHelper_assembles_text
    (w : world) (message : list char) (n : nat)
    (chunks : list (list char)) (rest : list recv_event) :
  rx w = map RecvBytes chunks ++ rest ->
  nonempty_chunks chunks = true ->
  1 <= n < MAX_BYTES ->
  n <= length (concat chunks) ->
  nul_free (firstn n (concat chunks)) = true ->
  cstr message = Some [] ->
  n + 1 <= length message ->
  exists status message' w' chunks',
    _chatReceiveHelper w message (Z.of_nat n) = Ok (status, message', w')
    /\ (0 < status)%Z
    /\ cstr message' = Some (firstn n (concat chunks))
    /\ length (firstn n (concat chunks)) = n
    /\ rx w' = map RecvBytes chunks' ++ rest
    /\ concat chunks' = skipn n (concat chunks).
Proof.
  intros Hrx Hne Hn Hlen Hfree Hmsg Hcap.
  assert (Hdl : length (firstn n (concat chunks)) = n)
    by (rewrite length_firstn; lia).
  destruct (@helper_reads w message [] n chunks rest (firstn n (concat chunks)) 0)
    as [status [message' [w' [chunks' [Hrun [Hst [Hm' [_ [Hrx' [Hcc _]]]]]]]]]];
    try assumption; try lia.
  - simpl. now rewrite app_nil_r.
  - simpl. lia.
  - exists status, message', w', chunks'. repeat split; assumption.
Qed.

Lemma chatReceiveHelper_assembles_text_witness :
  exists status message' w' chunks',
    _chatReceiveHelper
        (receiver (map RecvBytes [text "ab"; text "cd"; text "ef"; text "gh"; text "ij"]))
        (repeat NUL 11) (Z.of_nat 10)
      = Ok (status, message', w')
    /\ (0 < status)%Z
    /\ cstr message'
       = Some (firstn 10 (concat [text "ab"; text "cd"; text "ef"; text "gh"; text "ij"]))
    /\ length (firstn 10 (concat [text "ab"; text "cd"; text "ef"; text "gh"; text "ij"]))
       = 10
    /\ rx w' = map RecvBytes chunks' ++ []
    /\ concat chunks'
       = skipn 10 (concat [text "ab"; text "cd"; text "ef"; text "gh"; text "ij"]).
Proof.
  apply (@chatReceiveHelper_assembles_text
           (receiver (map RecvBytes [text "ab"; text "cd"; text "ef"; text "gh"; text "ij"]))
           (repeat NUL 11) 10
           [text "ab"; text "cd"; text "ef"; text "gh"; text "ij"] []);
    by_evaluation.
Defined.

(** C8 fails as stated. With 10 bytes asked for and 2 delivered per call, a
    [NUL] among them ends what [strcat] copies of its chunk: 9 bytes are
    assembled, the fourth and its successors are not those that arrived.
    With 0 bytes asked for, the function returns a [status] that it never
    assigned. With 600 bytes asked for and delivered at once, the scratch
    array of [MAX_BYTES] cells is overrun. *)
Lemma chatReceiveHelper_not_for_all_bytes :
  let chunks := [text "ab"; ["c"%char; NUL]; text "ef"; text "gh"; text "ij"] in
  observe (_chatReceiveHelper (receiver (map RecvBytes chunks)) (repeat NUL 11) 10)
    = Ok (2%Z, Some (text "abcefghij"), [], [10; 8; 6; 4; 2], [])
  /\ text "abcefghij" <> concat chunks
  /\ _chatReceiveHelper (receiver [RecvBytes (text "abc")]) (repeat NUL 11) 0
     = Undefined Uninitialized
  /\ _chatReceiveHelper (receiver [RecvBytes (repeat "a"%char 600)])
                        (repeat NUL 601) 600
     = Undefined OutOfBounds.
Proof. vm_compute. repeat split; (reflexivity || discriminate). Qed.

(** ** C9: a failure of [recv] *)

(** C9 does not hold of the code. On the return value -1 of [recv] the
    loop neither returns nor reports: it adds -1 to [bytesReceived] and
    calls [recv] again, for one more byte than was left. Here 3 bytes are
    asked for; after the failed call 4 are requested, taken and returned
    with the positive status 4. In [chatReceive], where the header array has
    4 cells, the same script overruns it. *)
Theorem recv_failure_is_counted_as_progress :
  observe (_chatReceiveHelper (receiver [RecvFail; RecvBytes (text "abcdef")])
                              (repeat NUL 8) 3)
    = Ok (4%Z, Some (text "abcd"), [RecvBytes (text "ef")], [3; 4], [])
  /\ chatReceive (receiver [RecvFail; RecvBytes (text "0031abc")]) (user_buffer "")
     = Undefined OutOfBounds.
Proof. vm_compute. split; reflexivity. Qed.

(** ** C10: a body longer than the arrays *)




(** * Further properties of [network.c] *)

(** ** [chatSend] on any socket *)

Lemma chatSend_loop_outcome :
  forall fuel w message msgLen totalSent,
    (0 <= totalSent <= msgLen)%Z ->
    (msgLen <= Z.of_nat (length message))%Z ->
    (msgLen <= INT_MAX)%Z ->
    length (tx w) < fuel ->
    match chatSend_loop fuel w message msgLen totalSent with
    | Ok w' =>
        wire w' = wire w ++ firstn (Z.to_nat (msgLen - totalSent))
                                   (skipn (Z.to_nat totalSent) message)
        /\ rx w' = rx w /\ stdout w' = stdout w
    | Exited code => code = (-1)%Z
    | Blocked => True
    | _ => False
    end.
Proof.
  induction fuel as [|fuel IH]; intros w message msgLen totalSent Hsent Hlen Hmax Hfuel;
    [lia|].
  destruct (Z.eq_dec totalSent msgLen) as [Heq|Hneq].
  { rewrite chatSend_loop_done by lia.
    replace (Z.to_nat (msgLen - totalSent)) with 0 by lia.
    rewrite firstn_0, app_nil_r. auto. }
  pose proof INT_MIN_val as Hmin. pose proof INT_MAX_val as Hmaxv.
  rewrite chatSend_loop_step by lia.
  set (len := Z.to_nat (msgLen - totalSent)).
  set (data := skipn (Z.to_nat totalSent) message).
  assert (Hdata : len <= length data).
  { unfold data, len. rewrite length_skipn. lia. }
  unfold send. destruct (tx w) as [|[k|] r] eqn:Htx; cbn [bind].
  - exact I.
  - set (n := Nat.min k len).
    replace (n <=? length data) with true
      by (symmetry; apply Nat.leb_le; unfold n; lia).
    cbn [bind].
    assert (Hz : (Z.of_nat n =? -1)%Z = false) by (apply Z.eqb_neq; lia).
    rewrite Hz. rewrite int_result_ok by (unfold n, len; lia). cbn [bind].
    assert (H1 : (0 <= totalSent + Z.of_nat n <= msgLen)%Z) by (unfold n, len; lia).
    assert (H4 : length (tx (sent w r (firstn n data))) < fuel)
      by (simpl in *; lia).
    specialize (IH (sent w r (firstn n data)) message msgLen
                  (totalSent + Z.of_nat n)%Z H1 Hlen Hmax H4).
    destruct (chatSend_loop fuel (sent w r (firstn n data)) message msgLen
                (totalSent + Z.of_nat n)) as [w'| | | |]; try exact IH.
    destruct IH as [Hwire [Hrx Hout]].
    repeat split; try assumption.
    rewrite Hwire. simpl. rewrite <- app_assoc. f_equal.
    replace (Z.to_nat (msgLen - (totalSent + Z.of_nat n))) with (len - n)
      by (unfold len, n; lia).
    replace (Z.to_nat (totalSent + Z.of_nat n)) with (n + Z.to_nat totalSent)
      by lia.
    rewrite <- skipn_skipn. fold data.
    replace len with (n + (len - n)) at 2 by (unfold n; lia).
    now rewrite firstn_add.
  - reflexivity.
Qed.

(** X1: whatever the socket does, [chatSend] returns only when all [n] bytes
    are on the wire, in order; otherwise the process exits with status -1 on
    a failed [send], or waits in [send] for ever. No part of the message is
    ever reported as sent. *)
Theorem chatSend_all_or_nothing (w : world) (message : list char) (n : nat) :
  n <= length message ->
  (Z.of_nat n <= INT_MAX)%Z ->
  (exists w', chatSend w message (Z.of_nat n) = Ok w'
              /\ wire w' = wire w ++ firstn n message)
  \/ chatSend w message (Z.of_nat n) = Exited (-1)
  \/ chatSend w message (Z.of_nat n) = Blocked.
Proof.
  intros Hn Hint.
  pose proof (@chatSend_loop_outcome (S (length (tx w))) w message (Z.of_nat n) 0%Z)
    as H.
  unfold chatSend.
  destruct (chatSend_loop (S (length (tx w))) w message (Z.of_nat n) 0)
    as [w'| | |code|]; try (exfalso; apply H; lia).
  - left. exists w'. split; [reflexivity|].
    destruct H as [Hwire _]; try lia.
    rewrite Hwire. simpl skipn. now rewrite Z.sub_0_r, Nat2Z.id.
  - right. now right.
  - right. left. f_equal. apply H; lia.
Qed.

Lemma chatSend_all_or_nothing_witness :
  (exists w', chatSend (mkWorld [] [SendAccepts 2; SendAccepts 0; SendAccepts 9] [] [] [] [])
                (text "hello") (Z.of_nat 5) = Ok w'
              /\ wire w' = wire (mkWorld [] [SendAccepts 2; SendAccepts 0; SendAccepts 9]
                                   [] [] [] [])
                           ++ firstn 5 (text "hello"))
  \/ chatSend (mkWorld [] [SendAccepts 2; SendAccepts 0; SendAccepts 9] [] [] [] [])
       (text "hello") (Z.of_nat 5) = Exited (-1)
  \/ chatSend (mkWorld [] [SendAccepts 2; SendAccepts 0; SendAccepts 9] [] [] [] [])
       (text "hello") (Z.of_nat 5) = Blocked.
Proof.
  apply (@chatSend_all_or_nothing
           (mkWorld [] [SendAccepts 2; SendAccepts 0; SendAccepts 9] [] [] [] [])
           (text "hello") 5); by_evaluation.
Defined.

(** ** [chatSend] when a call of [send] fails *)

Lemma chatSend_loop_fails :
  forall caps rest fuel w message msgLen totalSent,
    tx w = map SendAccepts caps ++ SendFail :: rest ->
    (0 <= totalSent)%Z ->
    (totalSent + Z.of_nat (list_sum caps) < msgLen)%Z ->
    (msgLen <= Z.of_nat (length message))%Z ->
    (msgLen <= INT_MAX)%Z ->
    length (tx w) < fuel ->
    chatSend_loop fuel w message msgLen totalSent = Exited (-1).
Proof.
  induction caps as [|k caps IH];
    intros rest fuel w message msgLen totalSent Htx Hsent Hsum Hlen Hmax Hfuel;
    (destruct fuel as [|fuel]; [lia|]);
    pose proof INT_MIN_val as Hmin; pose proof INT_MAX_val as Hmaxv;
    simpl in Htx, Hsum; rewrite chatSend_loop_step by lia;
    unfold send; rewrite Htx.
  - reflexivity.
  - set (len := Z.to_nat (msgLen - totalSent)).
    set (data := skipn (Z.to_nat totalSent) message).
    assert (Hdata : len <= length data).
    { unfold data, len. rewrite length_skipn. lia. }
    replace (Nat.min k len) with k by (unfold len; lia).
    replace (k <=? length data) with true
      by (symmetry; apply Nat.leb_le; unfold len in *; lia).
    cbn [bind].
    assert (Hz : (Z.of_nat k =? -1)%Z = false) by (apply Z.eqb_neq; lia).
    rewrite Hz. rewrite int_result_ok by lia. cbn [bind].
    apply IH with (rest := rest); try lia; try reflexivity.
    rewrite Htx in Hfuel. simpl in Hfuel |- *. lia.
Qed.

(** X2: when a call of [send] fails before the whole message was taken,
    [chatSend] ends the process with [exit(-1)], however many bytes the
    calls before it had put on the wire. *)
Theorem chatSend_exits_on_failure
    (w : world) (message : list char) (n : nat)
    (caps : list nat) (rest : list send_event) :
  tx w = map SendAccepts caps ++ SendFail :: rest ->
  list_sum caps < n <= length message ->
  (Z.of_nat n <= INT_MAX)%Z ->
  chatSend w message (Z.of_nat n) = Exited (-1).
Proof.
  intros Htx Hn Hint. unfold chatSend.
  apply chatSend_loop_fails with (caps := caps) (rest := rest); try assumption; lia.
Qed.

Lemma chatSend_exits_on_failure_witness :
  chatSend (mkWorld [] (map SendAccepts [2; 1] ++ SendFail :: [SendAccepts 9]) [] [] [] [])
    (text "hello") (Z.of_nat 5) = Exited (-1).
Proof.
  apply (@chatSend_exits_on_failure
           (mkWorld [] (map SendAccepts [2; 1] ++ SendFail :: [SendAccepts 9]) [] [] [] [])
           (text "hello") 5 [2; 1] [SendAccepts 9]); by_evaluation.
Defined.

(** ** What [strtol] can make of three bytes *)

Lemma strtol_three_bytes (hdr : list char) :
  length hdr = 3 -> (-99 <= strtol_string hdr <= 999)%Z.
Proof.
  destruct hdr as [|a [|b [|c [|d hdr]]]]; try discriminate. intros _.
  pose proof LONG_MIN_val as Hmin. pose proof LONG_MAX_val as Hmax.
  unfold strtol_string, clamp_long.
  cbn [skip_spaces leading_digits].
  repeat match goal with
         | |- context [if ?x then _ else _] =>
             destruct x eqn:?; cbn [skip_spaces leading_digits]
         end;
    repeat match goal with
           | E : isdigit ?x = true |- _ => apply isdigit_value in E
           end;
    lia.
Qed.

Lemma strtol_short_string (hdr : list char) :
  length hdr <= 3 -> (-99 <= strtol_string hdr <= 999)%Z.
Proof.
  destruct hdr as [|a [|b [|c [|d hdr]]]]; intros Hlen;
    try (simpl in Hlen; lia);
    pose proof LONG_MIN_val as Hmin; pose proof LONG_MAX_val as Hmax;
    unfold strtol_string, clamp_long;
    cbn [skip_spaces leading_digits];
    repeat match goal with
           | |- context [if ?x then _ else _] =>
               destruct x eqn:?; cbn [skip_spaces leading_digits]
           end;
    repeat match goal with
           | E : isdigit ?x = true |- _ => apply isdigit_value in E
           end;
    lia.
Qed.

(** ** A header that promises no byte *)

(** X3: when the three header bytes convert to 0 or less (["000"], a sign, no
    digit at all), [chatReceive] calls [recv] for no body byte and returns
    the [status] of a helper that never assigned it: the result for a frame
    that promises no byte is not defined. *)
Theorem chatReceive_empty_body_undefined
    (w : world) (message hdr : list char)
    (chunks : list (list char)) (rest : list recv_event) :
  rx w = map RecvBytes chunks ++ rest ->
  nonempty_chunks chunks = true ->
  PREFIX_OFFSET <= length (concat chunks) ->
  firstn PREFIX_OFFSET (concat chunks) = hdr ->
  nul_free hdr = true ->
  (strtol_string hdr <= 0)%Z ->
  chatReceive w message = Undefined Uninitialized.
Proof.
  intros Hrx Hne Hlen Hhdr Hfree Hval.
  destruct (@chatReceive_header w message hdr chunks rest Hrx Hne Hlen Hhdr Hfree)
    as [w1 [chunks1 [Hrun _]]].
  assert (Hhl : length hdr = 3).
  { subst hdr. rewrite length_firstn. unfold PREFIX_OFFSET in *. lia. }
  pose proof (strtol_three_bytes hdr Hhl) as Hb.
  rewrite Hrun, long_to_int_small by lia.
  unfold _chatReceiveHelper. cbn [_chatReceiveHelper_loop].
  replace (0 <? strtol_string hdr)%Z with false
    by (symmetry; apply Z.ltb_ge; lia).
  reflexivity.
Qed.

Lemma chatReceive_empty_body_undefined_witness :
  chatReceive (receiver (map RecvBytes [text "00"; text "0003abc"])) (user_buffer "")
  = Undefined Uninitialized.
Proof.
  apply (@chatReceive_empty_body_undefined
           (receiver (map RecvBytes [text "00"; text "0003abc"])) (user_buffer "")
           (text "000") [text "00"; text "0003abc"] []); by_evaluation.
Defined.

(** ** What the receive functions leave alone *)

Lemma helper_loop_frame :
  forall fuel w message msgLen got st status message' w',
    _chatReceiveHelper_loop fuel w message msgLen got st = Ok (status, message', w') ->
    tx w' = tx w /\ wire w' = wire w /\ stderr w' = stderr w.
Proof.
  induction fuel as [|fuel IH]; intros w message msgLen got st status message' w' H.
  - cbn [_chatReceiveHelper_loop] in H.
    destruct (got <? msgLen)%Z; [discriminate|].
    destruct st; [|discriminate]. injection H as _ _ <-. auto.
  - destruct (Z.ltb_spec got msgLen) as [Hlt|Hge].
    + rewrite helper_loop_step in H by assumption.
      destruct (int_result (msgLen - got)) as [len| | | |]; try discriminate.
      cbn [bind] in H. unfold recv in H.
      change (rx (log_recv w (Z.to_nat len))) with (rx w) in H.
      destruct (rx w) as [|[bs| |] r]; cbn [bind] in H; try discriminate.
      * destruct (_ <=? _); cbn [bind] in H; [|discriminate].
        destruct (_ =? 0)%Z.
        { injection H as _ _ <-. auto. }
        destruct (strcat _ _); try discriminate. cbn [bind] in H.
        destruct (int_result _); try discriminate. cbn [bind] in H.
        apply IH in H. exact H.
      * injection H as _ _ <-. auto.
      * change (-1 =? 0)%Z with false in H. cbn iota in H.
        destruct (strcat _ _); try discriminate. cbn [bind] in H.
        destruct (int_result _); try discriminate. cbn [bind] in H.
        apply IH in H. exact H.
    + apply Z.ltb_ge in Hge. cbn [_chatReceiveHelper_loop] in H. rewrite Hge in H.
      destruct st; [|discriminate]. injection H as _ _ <-. auto.
Qed.

Lemma chatReceive_frame_rule (w : world) (message : list char)
    (status : Z) (message' : list char) (w' : world) :
  chatReceive w message = Ok (status, message', w') ->
  tx w' = tx w /\ wire w' = wire w /\ stderr w' = stderr w.
Proof.
  unfold chatReceive, _chatReceiveHelper. intros H.
  destruct (_chatReceiveHelper_loop _ w _ _ 0 None) as [[[st1 header] w1]| | | |] eqn:E1;
    try discriminate.
  cbn [bind] in H. apply helper_loop_frame in E1.
  destruct (st1 =? 0)%Z.
  - injection H as _ _ <-. exact E1.
  - destruct (strtol header); try discriminate. cbn [bind] in H.
    destruct (_chatReceiveHelper_loop _ w1 _ _ 0 None) as [[[st2 body] w2]| | | |] eqn:E2;
      try discriminate.
    cbn [bind] in H. apply helper_loop_frame in E2.
    destruct (strcpy _ _); try discriminate. cbn [bind] in H.
    injection H as _ _ <-.
    destruct E1 as [A [B C]], E2 as [A' [B' C']]. repeat split; congruence.
Qed.

(** ** [chatReceive] within the arrays *)

Lemma forallb_after_chunk (k : nat) (c : list char) (r : list recv_event) :
  forallb not_fail r = true -> forallb not_fail (after_chunk k c r) = true.
Proof.
  intros H. unfold after_chunk. destruct (skipn k c); [assumption|].
  simpl. assumption.
Qed.

Lemma helper_loop_within_bounds :
  forall fuel w message s msgLen got st,
    forallb not_fail (rx w) = true ->
    cstr message = Some s ->
    (0 <= got)%Z -> (msgLen <= INT_MAX)%Z ->
    (msgLen - got < Z.of_nat MAX_BYTES)%Z ->
    (Z.of_nat (length s) + Z.max 0 (msgLen - got) + 1 <= Z.of_nat (length message))%Z ->
    within_bounds
      (fun r => let '(_, message', w') := r in
                exists s', cstr message' = Some s'
                           /\ (Z.of_nat (length s')
                               <= Z.of_nat (length s) + Z.max 0 (msgLen - got))%Z
                           /\ length message' = length message
                           /\ forallb not_fail (rx w') = true)
      (_chatReceiveHelper_loop fuel w message msgLen got st).
Proof.
  induction fuel as [|fuel IH];
    intros w message s msgLen got st Hnf Hmsg Hgot Hmax Hrem Hfit.
  - cbn [_chatReceiveHelper_loop].
    destruct (got <? msgLen)%Z; [exact I|].
    destruct st; [|exact I]. simpl. exists s. repeat split; auto; lia.
  - pose proof INT_MIN_val as Hmin. pose proof INT_MAX_val as Hmaxv.
    pose proof MAX_BYTES_val as HMB.
    destruct (Z.ltb_spec got msgLen) as [Hlt|Hge].
    + rewrite helper_loop_step by assumption.
      rewrite int_result_ok by lia. cbn [bind].
      destruct (rx w) as [|[bs| |] r] eqn:Hrx.
      * unfold recv. change (rx (log_recv w _)) with (rx w). rewrite Hrx. exact I.
      * simpl in Hnf.
        set (len := Z.to_nat (msgLen - got)).
        set (k := Nat.min len (length bs)).
        assert (Hk : k <= len /\ k <= length bs) by (unfold k; lia).
        rewrite (recv_chunk w len Hrx) by (fold k; unfold len in *; lia).
        fold k. cbn [bind].
        destruct (Z.of_nat k =? 0)%Z eqn:Hz.
        { simpl. exists s. repeat split; auto; try lia.
          now apply forallb_after_chunk. }
        apply Z.eqb_neq in Hz.
        assert (Hlenk : length (firstn k bs) = k) by (rewrite length_firstn; lia).
        destruct (scratch_cstr_prefix (firstn k bs) Hlenk) as [s1 [Hs1 Hl1]];
          [unfold len in *; lia|].
        destruct (strcat_ok message _ Hmsg Hs1) as [message1 [Hcat [Hmsg1 Hlm]]];
          [unfold len in *; lia|].
        rewrite Hcat. cbn [bind].
        rewrite int_result_ok by (unfold len in *; lia). cbn [bind].
        specialize (IH (set_rx (log_recv w len) (after_chunk k bs r)) message1
                      (s ++ s1) msgLen (got + Z.of_nat k)%Z (Some (Z.of_nat k))).
        assert (P1 : forallb not_fail
                       (rx (set_rx (log_recv w len) (after_chunk k bs r))) = true)
          by (simpl; now apply forallb_after_chunk).
        assert (P5 : (Z.of_nat (length (s ++ s1))
                      + Z.max 0 (msgLen - (got + Z.of_nat k)) + 1
                      <= Z.of_nat (length message1))%Z)
          by (rewrite length_app; unfold len in *; lia).
        specialize (IH P1 Hmsg1 ltac:(lia) Hmax ltac:(lia) P5).
        destruct (_chatReceiveHelper_loop fuel _ message1 msgLen _ _)
          as [[[st' m'] w']| [] | | |]; try exact IH.
        simpl in IH |- *. destruct IH as [s' [A [B [C D]]]].
        exists s'. rewrite length_app in B.
        repeat split; try assumption; unfold len in *; lia.
      * rewrite (recv_zero w _ _ Hrx). cbn [bind]. rewrite Z.eqb_refl.
        simpl. simpl in Hnf. exists s. repeat split; auto; lia.
      * simpl in Hnf. discriminate.
    + apply Z.ltb_ge in Hge. cbn [_chatReceiveHelper_loop]. rewrite Hge.
      destruct st; [|exact I]. simpl. exists s. repeat split; auto; lia.
Qed.

(** X4: when no call of [recv] fails, the caller's array has [MAX_BYTES]
    cells and the value that [chatReceive] makes of the header is less than
    [MAX_BYTES], [chatReceive] stays within every array and overflows no
    [int], whatever bytes arrive, terminators in the header included, in
    whatever chunks, and whether or not the peer closes. If it returns, it
    either returns 0 with [message] as it was, the peer having closed before
    the header was complete, or leaves in [message] a string of fewer than
    [MAX_BYTES] characters. *)
Theorem chatReceive_within_bounds (w : world) (message : list char) :
  forallb not_fail (rx w) = true ->
  MAX_BYTES <= length message ->
  match header_value w with
  | Some v => (v < Z.of_nat MAX_BYTES)%Z
  | None => True
  end ->
  within_bounds
    (fun r => let '(status, message', _) := r in
              (status = 0%Z /\ message' = message)
              \/ exists s', cstr message' = Some s' /\ length s' < MAX_BYTES)
    (chatReceive w message).
Proof.
  intros Hnf Hcap Hval.
  pose proof INT_MAX_val as Hmaxv. pose proof MAX_BYTES_val as HMB.
  unfold header_value in Hval. unfold chatReceive.
  pose proof (@helper_loop_within_bounds (S (rx_weight (rx w))) w
                (repeat NUL (PREFIX_OFFSET + 1)) [] (Z.of_nat PREFIX_OFFSET) 0%Z None
                Hnf eq_refl) as Hhdr.
  unfold _chatReceiveHelper in *.
  destruct (_chatReceiveHelper_loop _ w _ _ 0 None) as [[[st1 header] w1]| [] | | |];
    cbn [bind]; try exact I;
    try (apply Hhdr; rewrite ?repeat_length; unfold PREFIX_OFFSET; simpl; lia).
  destruct Hhdr as [s1 [Hs1 [Hl1 [_ Hnf1]]]];
    try (rewrite ?repeat_length; unfold PREFIX_OFFSET; simpl; lia).
  destruct (st1 =? 0)%Z eqn:Hst.
  { apply Z.eqb_eq in Hst. simpl. left. auto. }
  unfold strtol in *. rewrite Hs1 in *. cbn [bind].
  assert (Hb : (-99 <= strtol_string s1 <= 999)%Z).
  { apply strtol_short_string. unfold PREFIX_OFFSET in Hl1. simpl in Hl1. lia. }
  rewrite long_to_int_small by lia.
  pose proof (@helper_loop_within_bounds (S (rx_weight (rx w1))) w1
                (repeat NUL MAX_BYTES) [] (strtol_string s1) 0%Z None
                Hnf1 eq_refl) as H.
  destruct (_chatReceiveHelper_loop _ w1 _ _ 0 None) as [[[st body] w2]| [] | | |];
    cbn [bind]; try exact I;
    try (apply H; rewrite ?repeat_length; simpl; lia).
  destruct H as [s' [Hb' [Hl' _]]]; try (rewrite ?repeat_length; simpl; lia).
  simpl in Hl'.
  destruct (@strcpy_ok message body s' Hb') as [message' [Hcpy [Hm' _]]]; [lia|].
  rewrite Hcpy. cbn [bind]. simpl. right. exists s'. split; [assumption | lia].
Qed.

Lemma chatReceive_within_bounds_witness :
  within_bounds
    (fun r => let '(status, message', _) := r in
              (status = 0%Z /\ message' = user_buffer "")
              \/ exists s', cstr message' = Some s' /\ length s' < MAX_BYTES)
    (chatReceive
       (receiver [RecvBytes ("1"%char :: NUL :: text "2abc"); RecvZero])
       (user_buffer "")).
Proof.
  apply (@chatReceive_within_bounds
           (receiver [RecvBytes ("1"%char :: NUL :: text "2abc"); RecvZero])
           (user_buffer "")).
  - reflexivity.
  - vm_compute. lia.
  - vm_compute. reflexivity.
Defined.

(** * Properties of the validators *)

(** ** Arrays that hold strings *)

Lemma cstr_cells (a s : list char) :
  cstr a = Some s -> nul_free s = true /\ exists t, a = s ++ NUL :: t.
Proof.
  intros H. destruct (cstr_inv _ H) as [Hnf Heq]. split; [assumption|].
  now exists (skipn (S (length s)) a).
Qed.

(** ** [validateHandle] *)

Lemma text_line_cons (c : char) (l : list char) :
  text_line (c :: l) = true ->
  is_nul c = false /\ Ascii.eqb c LF = false /\ text_line l = true.
Proof.
  unfold text_line. cbn [forallb]. intros H.
  apply andb_true_iff in H as [Hc Hl]. apply andb_true_iff in Hc as [H1 H2].
  apply negb_true_iff in H1, H2. auto.
Qed.

Lemma text_line_nul_free (l : list char) : text_line l = true -> nul_free l = true.
Proof.
  induction l as [|c l IH]; [reflexivity|]. intros H.
  apply text_line_cons in H as [Hc [_ Hl]].
  unfold nul_free in *. cbn [forallb]. now rewrite Hc, (IH Hl).
Qed.

Lemma text_line_app (l1 l2 : list char) :
  text_line (l1 ++ l2) = text_line l1 && text_line l2.
Proof. apply forallb_app. Qed.

Lemma array_set_app (l : list char) (t : char) (rest : list char) (c : char) :
  array_set (l ++ t :: rest) (Z.of_nat (length l)) c = Ok (l ++ c :: rest).
Proof.
  unfold array_set.
  replace (Z.of_nat (length l) <? 0)%Z with false
    by (symmetry; apply Z.ltb_ge; lia).
  rewrite Nat2Z.id.
  replace (length l <? length (l ++ t :: rest)) with true
    by (symmetry; apply Nat.ltb_lt; rewrite length_app; simpl; lia).
  rewrite firstn_app, Nat.sub_diag, firstn_all, firstn_0, app_nil_r.
  do 3 f_equal.
  replace (S (length l)) with (length l + 1) by lia.
  rewrite skipn_app, skipn_all2 by lia.
  replace (length l + 1 - length l) with 1 by lia. reflexivity.
Qed.

Lemma validateHandle_loop_accepts :
  forall l t rest strLen,
    text_line l = true ->
    is_nul t || Ascii.eqb t LF = true ->
    forallb handle_char l = true ->
    strLen + length l <= MAX_HANDLE_LEN ->
    validateHandle_loop (l ++ t :: rest) strLen = Ok (inr (strLen + length l)).
Proof.
  induction l as [|c l IH]; intros t rest strLen Hl Ht Hc Hlen.
  - simpl. rewrite Ht. now rewrite Nat.add_0_r.
  - apply text_line_cons in Hl as [Hn [Hf Hl]].
    cbn [forallb] in Hc. apply andb_true_iff in Hc as [Hc Hcs].
    simpl app. cbn [validateHandle_loop]. rewrite Hn, Hf. cbn [orb].
    unfold handle_char in Hc.
    replace (negb (isalnum c) && negb (Ascii.eqb c "_")) with false
      by (symmetry; rewrite <- negb_orb; now apply negb_false_iff).
    simpl length in Hlen.
    replace (MAX_HANDLE_LEN <? S strLen) with false
      by (symmetry; apply Nat.ltb_ge; lia).
    rewrite IH by (try assumption; lia). f_equal. f_equal. simpl. lia.
Qed.

Lemma validateHandle_loop_rejects :
  forall l t rest strLen,
    text_line l = true ->
    strLen <= MAX_HANDLE_LEN ->
    forallb handle_char l && (strLen + length l <=? MAX_HANDLE_LEN) = false ->
    exists message, validateHandle_loop (l ++ t :: rest) strLen = Ok (inl message).
Proof.
  induction l as [|c l IH]; intros t rest strLen Hl Hs Hbad.
  - simpl in Hbad. apply Nat.leb_gt in Hbad. lia.
  - apply text_line_cons in Hl as [Hn [Hf Hl]].
    simpl app. cbn [validateHandle_loop]. rewrite Hn, Hf. cbn [orb].
    cbn [forallb] in Hbad. unfold handle_char at 1 in Hbad.
    rewrite <- negb_orb.
    destruct (isalnum c || Ascii.eqb c "_"); cbn [negb andb] in *.
    + destruct (MAX_HANDLE_LEN <? S strLen) eqn:Hlt; [eexists; reflexivity|].
      apply Nat.ltb_ge in Hlt. apply IH; try assumption.
      simpl length in Hbad. now rewrite <- Nat.add_succ_comm in Hbad.
    + eexists; reflexivity.
Qed.

Lemma validateHandle_valid
    (w : world) (l : list char) (t : char) (rest : list char) :
  text_line l = true ->
  is_nul t || Ascii.eqb t LF = true ->
  valid_handle l = true ->
  validateHandle w (l ++ t :: rest) = Ok (1%Z, l ++ NUL :: rest, w).
Proof.
  intros Hl Ht Hv. unfold valid_handle in Hv.
  apply andb_true_iff in Hv as [Hv Hc]. apply andb_true_iff in Hv as [Hlo Hhi].
  apply Nat.leb_le in Hlo, Hhi. unfold validateHandle.
  rewrite validateHandle_loop_accepts by (try assumption; lia). cbn [bind].
  rewrite Nat.add_0_l.
  replace (length l =? 0) with false by (symmetry; apply Nat.eqb_neq; lia).
  now rewrite array_set_app.
Qed.

Lemma validateHandle_invalid
    (w : world) (l : list char) (t : char) (rest : list char) :
  text_line l = true ->
  is_nul t || Ascii.eqb t LF = true ->
  valid_handle l = false ->
  exists message,
    validateHandle w (l ++ t :: rest)
    = Ok (0%Z, l ++ t :: rest, fprintf_stderr w message).
Proof.
  intros Hl Ht Hv. unfold validateHandle.
  destruct (forallb handle_char l && (0 + length l <=? MAX_HANDLE_LEN)) eqn:Hok.
  - apply andb_true_iff in Hok as [Hc Hlen]. apply Nat.leb_le in Hlen.
    rewrite validateHandle_loop_accepts by assumption. cbn [bind].
    rewrite Nat.add_0_l in *. unfold valid_handle in Hv.
    rewrite Hc, andb_true_r in Hv.
    replace (length l <=? MAX_HANDLE_LEN) with true in Hv
      by (symmetry; now apply Nat.leb_le).
    rewrite andb_true_r in Hv. apply Nat.leb_gt in Hv.
    replace (length l =? 0) with true by (symmetry; apply Nat.eqb_eq; lia).
    eexists. reflexivity.
  - destruct (@validateHandle_loop_rejects l t rest 0 Hl ltac:(lia) Hok)
      as [message Hrun].
    rewrite Hrun. cbn [bind]. now exists message.
Qed.

(** X5: on an array that holds a line of text ended by a newline or by the
    terminator, [validateHandle] returns 1 exactly when the line is a valid
    handle (1 to 10 letters, digits or underscores); it then puts the
    terminator in place of the newline and prints nothing. Otherwise it
    returns 0, leaves the array as it was and prints one line on the standard
    error. *)
Theorem validateHandle_accepts_valid_handles
    (w : world) (l : list char) (t : char) (rest : list char) :
  text_line l = true ->
  is_nul t || Ascii.eqb t LF = true ->
  exists message,
    validateHandle w (l ++ t :: rest)
    = Ok (if valid_handle l
          then (1%Z, l ++ NUL :: rest, w)
          else (0%Z, l ++ t :: rest, fprintf_stderr w message)).
Proof.
  intros Hl Ht. destruct (valid_handle l) eqn:Hv.
  - exists EmptyString. now apply validateHandle_valid.
  - now apply validateHandle_invalid.
Qed.

Lemma validateHandle_accepts_valid_handles_witness :
  exists message,
    validateHandle (receiver []) (text "bob_7" ++ LF :: text "junk")
    = Ok (if valid_handle (text "bob_7")
          then (1%Z, text "bob_7" ++ NUL :: text "junk", receiver [])
          else (0%Z, text "bob_7" ++ LF :: text "junk",
                fprintf_stderr (receiver []) message)).
Proof.
  apply (@validateHandle_accepts_valid_handles (receiver []) (text "bob_7") LF
           (text "junk")); by_evaluation.
Defined.

(** ** [validateHostname] *)

Lemma split_labels_cons (s : list char) :
  exists l ls, split_labels s = l :: ls.
Proof.
  induction s as [|c s [l [ls IH]]]; simpl.
  - eauto.
  - destruct (Ascii.eqb c "."); [eauto|]. rewrite IH. eauto.
Qed.

Lemma nul_free_cons (c : char) (s : list char) :
  nul_free (c :: s) = true -> is_nul c = false /\ nul_free s = true.
Proof.
  unfold nul_free. cbn [forallb]. intros H.
  apply andb_true_iff in H as [Hc Hs]. apply negb_true_iff in Hc. auto.
Qed.

Lemma validateHostname_loop_spec (HOST_NAME_MAX : nat) :
  forall s rest n strLen,
    nul_free s = true ->
    n <= MAX_HOST_LABEL ->
    strLen <= HOST_NAME_MAX ->
    validateHostname_loop HOST_NAME_MAX (s ++ NUL :: rest) n strLen
    = if forallb hostname_char s && labels_fit n s
         && (strLen + length s <=? HOST_NAME_MAX)
      then Ok (strLen + length s)
      else Exited 1.
Proof.
  induction s as [|c s IH]; intros rest n strLen Hs Hn Hlen.
  - simpl. unfold labels_fit. simpl.
    rewrite !Nat.add_0_r.
    replace (n <=? MAX_HOST_LABEL) with true by (symmetry; now apply Nat.leb_le).
    replace (strLen <=? HOST_NAME_MAX) with true by (symmetry; now apply Nat.leb_le).
    reflexivity.
  - apply nul_free_cons in Hs as [Hc Hs].
    simpl app. cbn [validateHostname_loop forallb]. rewrite Hc.
    unfold hostname_char at 1.
    rewrite <- !negb_orb.
    destruct (isdigit c || isalpha c || Ascii.eqb c "-" || Ascii.eqb c ".") eqn:Hok;
      cbn [negb andb]; [|reflexivity].
    destruct (split_labels_cons s) as [l [ls Hsplit]].
    assert (Hfit : labels_fit n (c :: s)
                   = labels_fit (if Ascii.eqb c "." then 0 else S n) s).
    { unfold labels_fit. simpl. rewrite Hsplit.
      destruct (Ascii.eqb c "."); cbn [length forallb].
      - rewrite Nat.add_0_r, Nat.add_0_l.
        replace (n <=? MAX_HOST_LABEL) with true
          by (symmetry; now apply Nat.leb_le).
        reflexivity.
      - now rewrite Nat.add_succ_comm. }
    rewrite Hfit. simpl length.
    set (n' := if Ascii.eqb c "." then 0 else S n).
    destruct (MAX_HOST_LABEL <? n') eqn:Hlab.
    { apply Nat.ltb_lt in Hlab.
      replace (labels_fit n' s) with false; [now rewrite andb_false_r|].
      unfold labels_fit. rewrite Hsplit. symmetry.
      apply andb_false_iff. left. apply Nat.leb_gt. lia. }
    apply Nat.ltb_ge in Hlab.
    destruct (HOST_NAME_MAX <? S strLen) eqn:Htot.
    { apply Nat.ltb_lt in Htot.
      replace (strLen + S (length s) <=? HOST_NAME_MAX) with false
        by (symmetry; apply Nat.leb_gt; lia).
      now rewrite andb_false_r. }
    apply Nat.ltb_ge in Htot.
    rewrite IH by assumption.
    now rewrite Nat.add_succ_comm.
Qed.

Lemma nth_error_last (h : list char) (d : char) :
  h <> [] -> nth_error h (length h - 1) = Some (last h d).
Proof.
  induction h as [|c h IH]; [congruence|]. intros _.
  destruct h as [|c' h]; [reflexivity|].
  simpl length. replace (S (S (length h)) - 1) with (S (length (c' :: h) - 1))
    by (simpl; lia).
  cbn [nth_error]. rewrite IH by discriminate. reflexivity.
Qed.

Lemma array_get_last (h : list char) (t : char) (rest : list char) :
  h <> [] ->
  array_get (h ++ t :: rest) (Z.of_nat (length h) - 1) = Ok (last h NUL).
Proof.
  intros Hh. unfold array_get.
  assert (Hpos : 1 <= length h) by (destruct h; [congruence | simpl; lia]).
  replace (Z.of_nat (length h) - 1 <? 0)%Z with false
    by (symmetry; apply Z.ltb_ge; lia).
  replace (Z.to_nat (Z.of_nat (length h) - 1)) with (length h - 1) by lia.
  rewrite nth_error_app1 by lia.
  now rewrite (nth_error_last NUL Hh).
Qed.

(** X6: on an array that holds the name [h], [validateHostname] returns 1
    exactly when [h] is made of letters, digits, dashes and dots, none of
    its labels has more than 63 characters, it has at most [HOST_NAME_MAX]
    characters and it neither starts nor ends with a dot or a dash; it
    ends the process with [exit(1)] on every other name that is not empty.
    On the empty name it reads [hostname[-1]]. An empty label, as in
    ["a..b"], is accepted. *)
Theorem validateHostname_accepts_valid_names
    (HOST_NAME_MAX : nat) (h rest : list char) :
  nul_free h = true ->
  validateHostname HOST_NAME_MAX (h ++ NUL :: rest)
  = match h with
    | [] => Undefined OutOfBounds
    | _ :: _ => if valid_hostname HOST_NAME_MAX h then Ok 1%Z else Exited 1
    end.
Proof.
  intros Hh. unfold validateHostname.
  rewrite validateHostname_loop_spec by (try assumption; unfold MAX_HOST_LABEL; lia).
  destruct h as [|c h].
  - reflexivity.
  - unfold valid_hostname.
    assert (Hfit : labels_fit 0 (c :: h)
                   = forallb (fun l => length l <=? MAX_HOST_LABEL)
                       (split_labels (c :: h))).
    { unfold labels_fit.
      destruct (split_labels_cons (c :: h)) as [l [ls ->]]. reflexivity. }
    rewrite Hfit, Nat.add_0_l.
    destruct (forallb hostname_char (c :: h)
              && forallb (fun l => length l <=? MAX_HOST_LABEL) (split_labels (c :: h))
              && (length (c :: h) <=? HOST_NAME_MAX)); [|reflexivity].
    cbn [bind andb].
    change (array_get ((c :: h) ++ NUL :: rest) 0) with (@Ok ascii c).
    cbn [bind]. rewrite array_get_last by discriminate.
    cbn [hd]. unfold dot_or_dash.
    destruct (Ascii.eqb c ".") eqn:E1; cbn [bind orb negb andb]; [reflexivity|].
    destruct (Ascii.eqb (last (c :: h) NUL) ".") eqn:E2;
      cbn [bind orb negb andb]; [now rewrite andb_false_r|].
    destruct (Ascii.eqb c "-") eqn:E3; cbn [bind orb negb andb]; [reflexivity|].
    destruct (Ascii.eqb (last (c :: h) NUL) "-"); reflexivity.
Qed.

Lemma validateHostname_accepts_valid_names_witness :
  validateHostname 64 (text "a..b-1.example" ++ NUL :: text "junk")
  = match text "a..b-1.example" with
    | [] => Undefined OutOfBounds
    | _ :: _ => if valid_hostname 64 (text "a..b-1.example") then Ok 1%Z else Exited 1
    end.
Proof.
  apply (@validateHostname_accepts_valid_names 64 (text "a..b-1.example") (text "junk"));
    by_evaluation.
Defined.

(** ** [validatePort] *)

Lemma skip_spaces_length (s : list char) : length (skip_spaces s) <= length s.
Proof.
  induction s as [|c s IH]; simpl; [lia|].
  destruct (isspace c); simpl; lia.
Qed.

Lemma skip_digits_nil (s : list char) :
  skip_digits s = [] -> forallb isdigit s = true.
Proof.
  induction s as [|c s IH]; simpl; [reflexivity|].
  destruct (isdigit c); [exact IH | discriminate].
Qed.

Lemma leading_digits_bound :
  forall ds acc,
    forallb isdigit ds = true -> (0 <= acc)%Z ->
    (0 <= leading_digits ds acc < (acc + 1) * 10 ^ Z.of_nat (length ds))%Z.
Proof.
  induction ds as [|c ds IH]; intros acc Hds Hacc.
  - simpl. lia.
  - cbn [forallb] in Hds. apply andb_true_iff in Hds as [Hc Hds].
    cbn [leading_digits]. rewrite Hc.
    pose proof (isdigit_value c Hc) as Hv.
    specialize (IH (10 * acc + Z.of_nat (nat_of_ascii c - 48))%Z Hds ltac:(lia)).
    replace (Z.of_nat (length (c :: ds))) with (Z.succ (Z.of_nat (length ds)))
      by (simpl length; lia).
    rewrite Z.pow_succ_r by lia.
    assert (Hp : (0 < 10 ^ Z.of_nat (length ds))%Z) by (apply Z.pow_pos_nonneg; lia).
    nia.
Qed.

Lemma decimal_digits_Z_length :
  forall fuel k v acc,
    (0 <= v < 10 ^ Z.of_nat k)%Z -> 1 <= k ->
    length (decimal_digits_Z fuel v acc) <= length acc + k.
Proof.
  induction fuel as [|fuel IH]; intros k v acc Hv Hk; cbn [decimal_digits_Z].
  - lia.
  - destruct (v / 10 =? 0)%Z eqn:Hq.
    + simpl. lia.
    + apply Z.eqb_neq in Hq.
      destruct k as [|[|k]]; [lia| |].
      * exfalso. apply Hq. apply Z.div_small. simpl in Hv. lia.
      * specialize (IH (S k) (v / 10)%Z
                      (digit_char (Z.to_nat (v mod 10)) :: acc)).
        simpl length in IH.
        assert (Hdiv : (0 <= v / 10 < 10 ^ Z.of_nat (S k))%Z).
        { split; [apply Z.div_pos; lia|].
          apply Z.div_lt_upper_bound; [lia|].
          replace (Z.of_nat (S (S k))) with (Z.succ (Z.of_nat (S k))) in Hv by lia.
          rewrite Z.pow_succ_r in Hv by lia. lia. }
        specialize (IH Hdiv ltac:(lia)). lia.
Qed.

Lemma decimal_digits_Z_nul_free :
  forall fuel v acc,
    (0 <= v)%Z -> nul_free acc = true ->
    nul_free (decimal_digits_Z fuel v acc) = true.
Proof.
  induction fuel as [|fuel IH]; intros v acc Hv Hacc; cbn [decimal_digits_Z].
  - assumption.
  - assert (Hd : nul_free (digit_char (Z.to_nat (v mod 10)) :: acc) = true).
    { unfold nul_free in *. cbn [forallb].
      rewrite digit_char_not_nul, Hacc; [reflexivity|].
      pose proof (Z.mod_pos_bound v 10). lia. }
    destruct (v / 10 =? 0)%Z; [assumption|].
    apply IH; [apply Z.div_pos; lia | assumption].
Qed.

(** The string that [strtol] converts to the end, to a value of 1 or more,
    ends with the digits of that value. *)
Lemma strtol_to_the_end (s : list char) :
  strtol_rest s = [] -> (1 <= strtol_string s)%Z ->
  exists ds, forallb isdigit ds = true
             /\ length ds <= length s
             /\ strtol_string s = clamp_long (leading_digits ds 0).
Proof.
  unfold strtol_rest, strtol_string.
  pose proof (skip_spaces_length s) as Hlen.
  pose proof LONG_MIN_val as Hmin. pose proof LONG_MAX_val as Hmax.
  destruct (skip_spaces s) as [|c s'] eqn:Hs.
  - intros _ H. lia.
  - simpl length in Hlen.
    destruct (Ascii.eqb c "-") eqn:Em.
    + cbn [orb]. intros Hrest Hv. exfalso.
      destruct s' as [|d s'']; [subst s; discriminate|].
      destruct (isdigit d) eqn:Hd; [|subst s; discriminate].
      apply skip_digits_nil in Hrest.
      pose proof (@leading_digits_bound (d :: s'') 0 Hrest ltac:(lia)) as Hb.
      unfold clamp_long in Hv. lia.
    + cbn [orb]. destruct (Ascii.eqb c "+") eqn:Ep.
      * intros Hrest Hv.
        destruct s' as [|d s'']; [subst s; discriminate|].
        destruct (isdigit d) eqn:Hd; [|subst s; discriminate].
        apply skip_digits_nil in Hrest.
        exists (d :: s''). repeat split; [assumption | simpl in *; lia].
      * intros Hrest Hv.
        destruct (isdigit c) eqn:Hc; [|subst s; discriminate].
        apply skip_digits_nil in Hrest.
        exists (c :: s'). repeat split; [assumption | simpl in *; lia].
Qed.

Lemma all_from_spec (P : Z -> bool) :
  forall n v, all_from n v P = true ->
              forall x, (v <= x < v + Z.of_nat n)%Z -> P x = true.
Proof.
  induction n as [|n IH]; intros v H x Hx; [lia|].
  cbn [all_from] in H. apply andb_true_iff in H as [Hv Hrest].
  destruct (Z.eq_dec x v) as [->|Hne]; [assumption|].
  apply (IH (v + 1)%Z Hrest). lia.
Qed.

Lemma port_round_trip_all (v : Z) :
  (1 <= v <= 65535)%Z -> port_round_trip v = true.
Proof.
  intros Hv.
  apply (@all_from_spec port_round_trip (Z.to_nat 65535) 1%Z); [|lia].
  vm_compute. reflexivity.
Qed.

Lemma write_string_same (a s : list char) :
  cstr a = Some s -> write_string a 0 s = Ok a.
Proof.
  intros H. pose proof (cstr_length _ H) as Hlen.
  apply cstr_inv in H as [_ Heq].
  unfold write_string.
  replace (0 + length s + 1 <=? length a) with true
    by (symmetry; apply Nat.leb_le; lia).
  replace (0 + length s + 1) with (S (length s)) by lia.
  simpl firstn. simpl app. f_equal.
  symmetry. exact Heq.
Qed.

Lemma validatePort_rejects (port s : list char) :
  cstr port = Some s ->
  accepted_port s = false ->
  validatePort port = Exited (-1).
Proof.
  intros Hport Hacc. unfold validatePort. rewrite Hport.
  unfold accepted_port in Hacc.
  destruct (strtol_rest s) as [|c r]; [|reflexivity].
  apply andb_false_iff in Hacc.
  replace ((strtol_string s <? MIN_PORT)%Z || (MAX_PORT <? strtol_string s)%Z)
    with true; [reflexivity|].
  symmetry. apply orb_true_iff.
  destruct Hacc as [H|H]; apply Z.leb_gt in H; [left | right];
    now apply Z.ltb_lt.
Qed.

Lemma validatePort_accepts (port s : list char) :
  cstr port = Some s ->
  accepted_port s = true ->
  exists port',
    validatePort port = Ok (1%Z, port')
    /\ cstr port' = Some (format_ld (strtol_string s))
    /\ length port' = length port
    /\ accepted_port (format_ld (strtol_string s)) = true
    /\ validatePort port' = Ok (1%Z, port').
Proof.
  intros Hport Hacc. unfold accepted_port in Hacc.
  destruct (strtol_rest s) as [|c r] eqn:Hrest; [|discriminate].
  apply andb_true_iff in Hacc as [Hlo Hhi].
  unfold MIN_PORT, MAX_PORT in *. apply Z.leb_le in Hlo, Hhi.
  unfold validatePort at 1. rewrite Hport, Hrest.
  unfold MIN_PORT, MAX_PORT.
  replace (strtol_string s <? 1)%Z with false by (symmetry; apply Z.ltb_ge; lia).
  replace (65535 <? strtol_string s)%Z with false by (symmetry; apply Z.ltb_ge; lia).
  cbn [orb].
  set (v := strtol_string s) in *.
  destruct (strtol_to_the_end s Hrest Hlo) as [ds [Hds [Hdl Hv]]].
  fold v in Hv.
  pose proof LONG_MIN_val as Hmin. pose proof LONG_MAX_val as Hmax.
  pose proof (@leading_digits_bound ds 0 Hds ltac:(lia)) as Hb.
  assert (Hval : v = leading_digits ds 0) by (unfold clamp_long in Hv; lia).
  assert (Hne : 1 <= length ds).
  { destruct ds; [simpl in Hval; lia | simpl; lia]. }
  assert (Hfmt : format_ld v = decimal_digits_Z 19 v []).
  { unfold format_ld. now replace (v <? 0)%Z with false
      by (symmetry; apply Z.ltb_ge; lia). }
  assert (Hl5 : length (format_ld v) <= 5).
  { rewrite Hfmt.
    apply (@decimal_digits_Z_length 19 5 v []); [simpl; lia | lia]. }
  assert (Hls : length (format_ld v) <= length ds).
  { rewrite Hfmt.
    apply (@decimal_digits_Z_length 19 (length ds) v []); [lia | lia]. }
  assert (Hnf : nul_free (format_ld v) = true).
  { rewrite Hfmt. apply decimal_digits_Z_nul_free; [lia | reflexivity]. }
  pose proof (cstr_length _ Hport) as Hcap.
  unfold snprintf_ld, MAX_PORT_CHARS.
  rewrite firstn_all2 by (simpl; lia).
  destruct (write_string_ok port 0 (format_ld v)) as [port' [Hw [Hc' Hl']]];
    [lia | reflexivity | assumption |].
  simpl in Hc'.
  exists port'. rewrite Hw. cbn [bind].
  pose proof (@port_round_trip_all v ltac:(lia)) as Hrt.
  unfold port_round_trip in Hrt. apply andb_true_iff in Hrt as [Hrv Hrr].
  apply Z.eqb_eq in Hrv.
  assert (Hagain : accepted_port (format_ld v) = true).
  { unfold accepted_port. destruct (strtol_rest (format_ld v)); [|discriminate].
    rewrite Hrv. unfold MIN_PORT, MAX_PORT.
    apply andb_true_iff. split; apply Z.leb_le; lia. }
  repeat split; try assumption.
  (* the canonical string is accepted again *)
  unfold validatePort. rewrite Hc'.
  destruct (strtol_rest (format_ld v)); [|discriminate].
  rewrite Hrv. unfold MIN_PORT, MAX_PORT.
  replace (v <? 1)%Z with false by (symmetry; apply Z.ltb_ge; lia).
  replace (65535 <? v)%Z with false by (symmetry; apply Z.ltb_ge; lia).
  cbn [orb]. unfold snprintf_ld, MAX_PORT_CHARS.
  rewrite firstn_all2 by (simpl; lia).
  rewrite (write_string_same _ Hc'). reflexivity.
Qed.

(** X7: on an array that holds the string [s], [validatePort] returns 1
    exactly when [strtol] converts [s] to its end and to a value from 1 to
    65535 (white space, a [+] and zeros may come first). It then leaves the
    decimal digits of the value in the array, whose size it keeps, and these
    digits are a string that it accepts again and leaves unchanged. On every
    other string it ends the process with [exit(-1)]. *)
Theorem validatePort_canonical (port s : list char) :
  cstr port = Some s ->
  if accepted_port s
  then exists port',
         validatePort port = Ok (1%Z, port')
         /\ cstr port' = Some (format_ld (strtol_string s))
         /\ length port' = length port
         /\ validatePort port' = Ok (1%Z, port')
  else validatePort port = Exited (-1).
Proof.
  intros Hport. destruct (accepted_port s) eqn:Hacc.
  - destruct (validatePort_accepts _ Hport Hacc)
      as [port' [Hrun [Hc [Hl [_ Hagain]]]]].
    exists port'. auto.
  - exact (@validatePort_rejects port s Hport Hacc).
Qed.

Lemma validatePort_canonical_witness :
  exists port',
    validatePort (text " +0080" ++ [NUL]) = Ok (1%Z, port')
    /\ cstr port' = Some (format_ld (strtol_string (text " +0080")))
    /\ length port' = length (text " +0080" ++ [NUL])
    /\ validatePort port' = Ok (1%Z, port').
Proof.
  exact (@validatePort_canonical (text " +0080" ++ [NUL]) (text " +0080") eq_refl).
Defined.

(** ** [validateArgs] *)

Lemma validateHostname_value (HOST_NAME_MAX : nat) (h rest : list char) :
  nul_free h = true ->
  validateHostname HOST_NAME_MAX (h ++ NUL :: rest)
  = match h with
    | [] => Undefined OutOfBounds
    | _ :: _ => if valid_hostname HOST_NAME_MAX h then Ok 1%Z else Exited 1
    end.
Proof.
  intros Hh. unfold validateHostname.
  rewrite validateHostname_loop_spec by (try assumption; unfold MAX_HOST_LABEL; lia).
  destruct h as [|c h].
  - reflexivity.
  - unfold valid_hostname.
    assert (Hfit : labels_fit 0 (c :: h)
                   = forallb (fun l => length l <=? MAX_HOST_LABEL)
                       (split_labels (c :: h))).
    { unfold labels_fit.
      destruct (split_labels_cons (c :: h)) as [l [ls ->]]. reflexivity. }
    rewrite Hfit, Nat.add_0_l.
    destruct (forallb hostname_char (c :: h)
              && forallb (fun l => length l <=? MAX_HOST_LABEL) (split_labels (c :: h))
              && (length (c :: h) <=? HOST_NAME_MAX)); [|reflexivity].
    cbn [bind andb].
    change (array_get ((c :: h) ++ NUL :: rest) 0) with (@Ok ascii c).
    cbn [bind]. rewrite array_get_last by discriminate.
    cbn [hd]. unfold dot_or_dash.
    destruct (Ascii.eqb c ".") eqn:E1; cbn [bind orb negb andb]; [reflexivity|].
    destruct (Ascii.eqb (last (c :: h) NUL) ".") eqn:E2;
      cbn [bind orb negb andb]; [now rewrite andb_false_r|].
    destruct (Ascii.eqb c "-") eqn:E3; cbn [bind orb negb andb]; [reflexivity|].
    destruct (Ascii.eqb (last (c :: h) NUL) "-"); reflexivity.
Qed.

(** X8: on arrays that hold strings, what [validateArgs] does is decided by
    its arguments, and it never returns 0. With a number of arguments other
    than 3 it ends the process with [exit(1)]. Otherwise, on the empty host
    name it reads [hostname[-1]]; on another host name that is not valid it
    ends the process with [exit(1)]; on a valid host name and a port that
    [validatePort] does not accept it ends the process with [exit(-1)]; on
    a valid host name and an accepted port, and only then, it returns, the
    value 1, with the digits of the port in the port array. *)
Theorem validateArgs_never_returns_0
    (HOST_NAME_MAX : nat) (hostname port h s : list char) (numArgs : Z) :
  cstr hostname = Some h ->
  cstr port = Some s ->
  if negb (numArgs =? 3)%Z
  then validateArgs HOST_NAME_MAX hostname port numArgs = Exited 1
  else match h with
       | [] =>
           validateArgs HOST_NAME_MAX hostname port numArgs = Undefined OutOfBounds
       | _ :: _ =>
           if valid_hostname HOST_NAME_MAX h
           then if accepted_port s
                then exists port',
                       validateArgs HOST_NAME_MAX hostname port numArgs
                       = Ok (1%Z, port')
                       /\ cstr port' = Some (format_ld (strtol_string s))
                else validateArgs HOST_NAME_MAX hostname port numArgs = Exited (-1)
           else validateArgs HOST_NAME_MAX hostname port numArgs = Exited 1
       end.
Proof.
  intros Hhost Hport. unfold validateArgs.
  destruct (negb (numArgs =? 3)%Z); [reflexivity|].
  destruct (cstr_cells _ Hhost) as [Hfree [rest ->]].
  rewrite validateHostname_value by assumption.
  destruct h as [|c h]; [reflexivity|].
  destruct (valid_hostname HOST_NAME_MAX (c :: h)); [|reflexivity].
  cbn [bind]. change (1 =? 0)%Z with false. cbn iota.
  destruct (accepted_port s) eqn:Hacc.
  - destruct (validatePort_accepts _ Hport Hacc) as [port' [Hrun [Hc _]]].
    exists port'. rewrite Hrun. cbn [bind]. change (1 =? 0)%Z with false. auto.
  - now rewrite (validatePort_rejects _ Hport Hacc).
Qed.

Lemma validateArgs_never_returns_0_witness :
  exists port',
    validateArgs 64 (text "localhost" ++ [NUL]) (text "08080" ++ [NUL]) 3
    = Ok (1%Z, port')
    /\ cstr port' = Some (format_ld (strtol_string (text "08080"))).
Proof.
  exact (@validateArgs_never_returns_0 64 (text "localhost" ++ [NUL])
           (text "08080" ++ [NUL]) (text "localhost") (text "08080") 3
           eq_refl eq_refl).
Defined.

(** * Properties of the functions that read the standard input *)

(** ** The C library on lines of text *)

Lemma text_line_no_newline (l : list char) :
  text_line l = true -> has_newline l = false.
Proof.
  induction l as [|c l IH]; [reflexivity|]. intros H.
  apply text_line_cons in H as [_ [Hf Hl]].
  unfold has_newline in *. cbn [existsb]. now rewrite Hf, (IH Hl).
Qed.

Lemma has_newline_app (a b : list char) :
  has_newline (a ++ b) = has_newline a || has_newline b.
Proof. apply existsb_app. Qed.

Lemma text_line_firstn (n : nat) (l : list char) :
  text_line l = true -> text_line (firstn n l) = true.
Proof.
  revert n. induction l as [|c l IH]; intros [|n] H; try reflexivity.
  apply text_line_cons in H as [Hn [Hf Hl]].
  unfold text_line in *. cbn [firstn forallb]. now rewrite Hn, Hf, (IH n Hl).
Qed.

Lemma text_line_skipn (n : nat) (l : list char) :
  text_line l = true -> text_line (skipn n l) = true.
Proof.
  revert n. induction l as [|c l IH]; intros [|n] H; try assumption.
  apply text_line_cons in H as [_ [_ Hl]]. now apply IH.
Qed.

Lemma read_line_whole :
  forall l n rest,
    text_line l = true -> length l < n ->
    read_line n (l ++ LF :: rest) = (l ++ [LF], rest).
Proof.
  induction l as [|c l IH]; intros n rest Hl Hn.
  - destruct n; [simpl in Hn; lia|]. reflexivity.
  - apply text_line_cons in Hl as [_ [Hf Hl]].
    destruct n; [simpl in Hn; lia|].
    simpl app. cbn [read_line]. rewrite Hf.
    rewrite IH by (try assumption; simpl in Hn; lia). reflexivity.
Qed.

Lemma read_line_part :
  forall l n rest,
    text_line l = true -> n <= length l ->
    read_line n (l ++ rest) = (firstn n l, skipn n l ++ rest).
Proof.
  induction l as [|c l IH]; intros n rest Hl Hn.
  - destruct n; [|simpl in Hn; lia]. destruct rest; reflexivity.
  - apply text_line_cons in Hl as [_ [Hf Hl]].
    destruct n; [reflexivity|].
    simpl app. cbn [read_line]. rewrite Hf.
    rewrite IH by (try assumption; simpl in Hn; lia). reflexivity.
Qed.

Lemma strchr_newline_cstr :
  forall a s, cstr a = Some s -> strchr_newline a = Ok (has_newline s).
Proof.
  induction a as [|c a IH]; intros s H; [discriminate|].
  cbn [cstr] in H. cbn [strchr_newline].
  destruct (is_nul c) eqn:Hc.
  - injection H as <-. apply Ascii.eqb_eq in Hc. subst c. reflexivity.
  - destruct (cstr a) as [s'|]; [|discriminate]. injection H as <-.
    unfold has_newline. cbn [existsb].
    destruct (Ascii.eqb c LF); [reflexivity|].
    now rewrite (IH s' eq_refl).
Qed.

Lemma strcmp_equal_same :
  forall lit a, cstr a = Some lit -> strcmp_equal a lit = Ok true.
Proof.
  induction lit as [|l lit IH]; intros a H.
  - destruct a as [|c a]; [discriminate|]. cbn [cstr] in H.
    cbn [strcmp_equal]. destruct (is_nul c); [reflexivity|].
    destruct (cstr a); discriminate.
  - destruct a as [|c a]; [discriminate|]. cbn [cstr] in H.
    destruct (is_nul c); [discriminate|].
    destruct (cstr a) as [s'|] eqn:Ha; [|discriminate].
    injection H as -> ->. cbn [strcmp_equal].
    rewrite Ascii.eqb_refl. now apply IH.
Qed.

Lemma strcmp_equal_other :
  forall lit a s,
    cstr a = Some s -> nul_free lit = true -> s <> lit ->
    strcmp_equal a lit = Ok false.
Proof.
  induction lit as [|l lit IH]; intros a s H Hlit Hne.
  - destruct a as [|c a]; [discriminate|]. cbn [cstr] in H.
    cbn [strcmp_equal]. destruct (is_nul c); [|reflexivity].
    injection H as <-. congruence.
  - apply nul_free_cons in Hlit as [Hl Hlit].
    destruct a as [|c a]; [discriminate|]. cbn [cstr] in H. cbn [strcmp_equal].
    destruct (Ascii.eqb c l) eqn:Hcl; [|reflexivity].
    apply Ascii.eqb_eq in Hcl. subst c. rewrite Hl in H.
    destruct (cstr a) as [s'|] eqn:Ha; [|discriminate].
    injection H as <-. apply (IH a s' Ha Hlit). congruence.
Qed.

Lemma fgetc_loop_line :
  forall l fuel rest,
    text_line l = true -> length l < fuel ->
    fgetc_loop fuel (l ++ LF :: rest) = Ok rest.
Proof.
  induction l as [|c l IH]; intros fuel rest Hl Hfuel;
    (destruct fuel as [|fuel]; [simpl in Hfuel; lia|]).
  - reflexivity.
  - apply text_line_cons in Hl as [_ [Hf Hl]].
    simpl app. cbn [fgetc_loop]. rewrite Hf.
    apply IH; [assumption | simpl in Hfuel; lia].
Qed.

Lemma fgetc_loop_no_newline :
  forall fuel input, has_newline input = false -> fgetc_loop fuel input = OutOfFuel.
Proof.
  induction fuel as [|fuel IH]; intros input H; [reflexivity|].
  cbn [fgetc_loop]. destruct input as [|c input]; [now apply IH|].
  unfold has_newline in H. cbn [existsb] in H.
  apply orb_false_iff in H as [Hc H]. rewrite Hc. now apply IH.
Qed.

Lemma array_set_end (a s : list char) (c : char) :
  cstr a = Some (s ++ [c]) ->
  exists a', array_set a (Z.of_nat (length (s ++ [c])) - 1) NUL = Ok a'
             /\ cstr a' = Some s /\ length a' = length a.
Proof.
  intros H. destruct (cstr_cells _ H) as [Hnf [t ->]].
  rewrite nul_free_app in Hnf. apply andb_true_iff in Hnf as [Hs _].
  rewrite length_app. simpl length.
  replace (Z.of_nat (length s + 1) - 1)%Z with (Z.of_nat (length s)) by lia.
  rewrite <- app_assoc. simpl app.
  rewrite array_set_app. eexists. split; [reflexivity|]. split.
  - now apply cstr_app_nul.
  - rewrite !length_app. simpl. lia.
Qed.

Lemma array_get_end (a s : list char) :
  cstr a = Some s -> s <> [] ->
  array_get a (Z.of_nat (length s) - 1) = Ok (last s NUL).
Proof.
  intros H Hs. destruct (cstr_cells _ H) as [_ [t ->]].
  now apply array_get_last.
Qed.

Lemma last_snoc (s : list char) (c d : char) : last (s ++ [c]) d = c.
Proof. apply last_last. Qed.

Lemma text_line_last (s : list char) :
  text_line s = true -> s <> [] -> Ascii.eqb (last s NUL) LF = false.
Proof.
  intros Hs Hne. destruct (exists_last Hne) as [s' [c ->]].
  rewrite last_last. rewrite text_line_app in Hs.
  apply andb_true_iff in Hs as [_ Hc].
  apply text_line_cons in Hc as [_ [Hf _]]. exact Hf.
Qed.

(** [fgets] on a line that fits, and on a line that does not. *)
Lemma fgets_whole (buf l rest : list char) (n : Z) :
  text_line l = true ->
  (Z.of_nat (length l) + 2 <= n)%Z ->
  length l + 2 <= length buf ->
  exists buf', fgets buf n (l ++ LF :: rest) = Ok (buf', rest)
               /\ cstr buf' = Some (l ++ [LF]) /\ length buf' = length buf.
Proof.
  intros Hl Hn Hcap. unfold fgets.
  replace (n <=? 0)%Z with false by (symmetry; apply Z.leb_gt; lia).
  rewrite read_line_whole by (try assumption; lia).
  destruct (write_string_ok buf 0 (l ++ [LF])) as [buf' [Hw [Hc Hlen]]].
  - rewrite length_app. simpl. lia.
  - reflexivity.
  - rewrite nul_free_app, (text_line_nul_free _ Hl). reflexivity.
  - exists buf'. destruct (l ++ [LF]) eqn:E.
    + destruct l; discriminate.
    + rewrite Hw. cbn [bind]. auto.
Qed.

Lemma fgets_part (buf l rest : list char) (n : Z) :
  text_line l = true ->
  (2 <= n)%Z -> (n - 1 <= Z.of_nat (length l))%Z ->
  Z.to_nat n <= length buf ->
  exists buf', fgets buf n (l ++ rest)
               = Ok (buf', skipn (Z.to_nat n - 1) l ++ rest)
               /\ cstr buf' = Some (firstn (Z.to_nat n - 1) l)
               /\ length buf' = length buf.
Proof.
  intros Hl Hn Hlong Hcap. unfold fgets.
  replace (n <=? 0)%Z with false by (symmetry; apply Z.leb_gt; lia).
  rewrite read_line_part by (try assumption; lia).
  assert (Hfl : length (firstn (Z.to_nat n - 1) l) = Z.to_nat n - 1)
    by (rewrite length_firstn; lia).
  destruct (write_string_ok buf 0 (firstn (Z.to_nat n - 1) l)) as [buf' [Hw [Hc Hlen]]].
  - rewrite Hfl. lia.
  - reflexivity.
  - apply text_line_nul_free. now apply text_line_firstn.
  - exists buf'. destruct (firstn (Z.to_nat n - 1) l) eqn:E.
    + simpl in Hfl. lia.
    + rewrite Hw. cbn [bind]. auto.
Qed.

Lemma read_line_text :
  forall l n, text_line l = true -> read_line n l = (firstn n l, skipn n l).
Proof.
  induction l as [|c l IH]; intros n Hl.
  - destruct n; reflexivity.
  - apply text_line_cons in Hl as [_ [Hf Hl]].
    destruct n; [reflexivity|]. cbn [read_line]. rewrite Hf, (IH n Hl). reflexivity.
Qed.

(** [fgets] on what is left of the input when no newline is. *)
Lemma fgets_text (buf input : list char) (n : Z) :
  text_line input = true -> input <> [] ->
  (2 <= n)%Z -> Z.to_nat n <= length buf ->
  exists buf', fgets buf n input
               = Ok (buf', skipn (Z.to_nat n - 1) input)
               /\ cstr buf' = Some (firstn (Z.to_nat n - 1) input)
               /\ length buf' = length buf.
Proof.
  intros Hl Hne Hn Hcap. unfold fgets.
  replace (n <=? 0)%Z with false by (symmetry; apply Z.leb_gt; lia).
  rewrite read_line_text by assumption.
  destruct (write_string_ok buf 0 (firstn (Z.to_nat n - 1) input)) as [buf' [Hw [Hc Hlen]]].
  - rewrite length_firstn. lia.
  - reflexivity.
  - apply text_line_nul_free. now apply text_line_firstn.
  - exists buf'. destruct (firstn (Z.to_nat n - 1) input) eqn:E.
    + destruct input; [congruence|]. destruct (Z.to_nat n - 1) eqn:En; [lia|discriminate].
    + rewrite Hw. cbn [bind]. auto.
Qed.

(** ** [createValidatedHandle] *)

Lemma handle_char_text (c : char) :
  handle_char c = true -> negb (is_nul c) && negb (Ascii.eqb c LF) = true.
Proof.
  destruct c as [[] [] [] [] [] [] [] []]; vm_compute; congruence.
Qed.

Lemma valid_handle_text_line (l : list char) :
  valid_handle l = true -> text_line l = true.
Proof.
  unfold valid_handle, text_line. intros H.
  apply andb_true_iff in H as [_ H].
  rewrite forallb_forall in *. intros c Hc. apply handle_char_text. now apply H.
Qed.

Lemma valid_handle_length (l : list char) :
  valid_handle l = true -> 1 <= length l <= MAX_HANDLE_LEN.
Proof.
  unfold valid_handle. intros H.
  apply andb_true_iff in H as [H _]. apply andb_true_iff in H as [H1 H2].
  apply Nat.leb_le in H1, H2. lia.
Qed.

Lemma valid_handle_long (l : list char) :
  MAX_HANDLE_LEN < length l -> valid_handle l = false.
Proof.
  intros H. destruct (valid_handle l) eqn:E; [|reflexivity].
  apply valid_handle_length in E. lia.
Qed.

(** One turn of the loop on a line of text. *)
Lemma createValidatedHandle_step
    (fuel : nat) (p : proc) (handle l rest : list char) :
  MAX_MSG <= length handle ->
  stdin p = l ++ LF :: rest ->
  text_line l = true ->
  length l < fuel ->
  let w := printf (net p) handle_prompt in
  exists handle',
    length handle' = length handle
    /\ if valid_handle l
       then createValidatedHandle (S fuel) p handle = Ok (handle', mkProc rest w)
            /\ cstr handle' = Some l
       else exists message,
            createValidatedHandle (S fuel) p handle
            = createValidatedHandle fuel (mkProc rest (fprintf_stderr w message)) handle'.
Proof.
  intros Hcap Hin Hl Hfuel w. cbn [createValidatedHandle]. rewrite Hin.
  fold handle_prompt. fold w. unfold MAX_MSG in Hcap.
  destruct (le_lt_dec (length l + 2) MAX_MSG) as [Hshort|Hlong]; unfold MAX_MSG in *.
  - destruct (@fgets_whole handle l rest 500 Hl ltac:(lia) ltac:(lia))
      as [h1 [Hf [Hc Hlen]]].
    change (Z.of_nat 500) with 500%Z. rewrite Hf. cbn [bind].
    rewrite (strchr_newline_cstr _ Hc). cbn [bind].
    rewrite has_newline_app. simpl (has_newline [LF]). rewrite orb_true_r.
    destruct (cstr_cells _ Hc) as [_ [tl Hh1]].
    rewrite <- app_assoc in Hh1. simpl app in Hh1. subst h1.
    destruct (valid_handle l) eqn:Hvalid.
    + rewrite (@validateHandle_valid w l LF (NUL :: tl) Hl eq_refl Hvalid).
      exists (l ++ NUL :: NUL :: tl).
      split; [rewrite <- Hlen, !length_app; reflexivity|].
      split; [reflexivity|].
      apply cstr_app_nul. now apply text_line_nul_free.
    + destruct (@validateHandle_invalid w l LF (NUL :: tl) Hl eq_refl Hvalid)
        as [message Hv].
      rewrite Hv. exists (l ++ LF :: NUL :: tl).
      split; [assumption|]. exists message. reflexivity.
  - destruct (@fgets_part handle l (LF :: rest) 500 Hl ltac:(lia) ltac:(lia) ltac:(lia))
      as [h1 [Hf [Hc Hlen]]].
    change (Z.of_nat 500) with 500%Z. rewrite Hf. cbn [bind].
    rewrite (strchr_newline_cstr _ Hc). cbn [bind].
    rewrite (text_line_no_newline _ (text_line_firstn _ _ Hl)).
    rewrite fgetc_loop_line
      by (try (now apply text_line_skipn); rewrite length_skipn; lia).
    cbn [bind].
    destruct (cstr_cells _ Hc) as [_ [tl Hh1]].
    destruct (@validateHandle_invalid w (firstn (Z.to_nat 500 - 1) l) NUL tl
                (text_line_firstn _ _ Hl) eq_refl) as [message Hv].
    { apply valid_handle_long. rewrite length_firstn. unfold MAX_HANDLE_LEN. lia. }
    subst h1. rewrite Hv.
    rewrite (@valid_handle_long l) by (unfold MAX_HANDLE_LEN; lia).
    eexists. split; [exact Hlen|]. exists message. reflexivity.
Qed.

Lemma input_lines_cons (l : list char) (ls : list (list char)) :
  input_lines (l :: ls) = l ++ LF :: input_lines ls.
Proof. unfold input_lines. simpl. now rewrite <- app_assoc. Qed.

(** X9: [createValidatedHandle] skips the lines of text that are no valid
    handle and returns with the first valid one in the array, terminated;
    it has then printed its prompt once for each line read and one line on
    the standard error for each line skipped, and has consumed the input up
    to and with the newline of the valid line. *)
Theorem createValidatedHandle_takes_first_valid_line :
  forall (bad : list (list char)) (fuel : nat) (p : proc)
         (handle good rest : list char),
    MAX_MSG <= length handle ->
    forallb (fun l => text_line l && negb (valid_handle l)) bad = true ->
    valid_handle good = true ->
    stdin p = input_lines bad ++ good ++ LF :: rest ->
    length (input_lines bad ++ good ++ [LF]) < fuel ->
    exists handle' w',
      createValidatedHandle fuel p handle = Ok (handle', mkProc rest w')
      /\ cstr handle' = Some good
      /\ length handle' = length handle
      /\ stdout w' = stdout (net p) ++ repeat handle_prompt (S (length bad))
      /\ length (stderr w') = length (stderr (net p)) + length bad
      /\ (rx w', tx w', wire w') = (rx (net p), tx (net p), wire (net p)).
Proof.
  induction bad as [|l bad IH]; intros fuel p handle good rest Hcap Hbad Hgood Hin Hfuel.
  - simpl in Hin, Hfuel. rewrite length_app in Hfuel. simpl in Hfuel.
    destruct fuel as [|fuel]; [lia|].
    destruct (@createValidatedHandle_step fuel p handle good rest Hcap Hin
                (valid_handle_text_line _ Hgood) ltac:(lia)) as [h' [Hlen Hrun]].
    rewrite Hgood in Hrun. destruct Hrun as [Hrun Hc].
    exists h', (printf (net p) handle_prompt).
    repeat split; try assumption. simpl. lia.
  - cbn [forallb] in Hbad. apply andb_true_iff in Hbad as [Hl Hbad].
    apply andb_true_iff in Hl as [Hl Hinvalid]. apply negb_true_iff in Hinvalid.
    rewrite input_lines_cons in Hin, Hfuel. rewrite <- app_assoc in Hin.
    simpl app in Hin. rewrite !length_app in Hfuel. simpl in Hfuel.
    destruct fuel as [|fuel]; [lia|].
    destruct (@createValidatedHandle_step fuel p handle l _ Hcap Hin Hl
                ltac:(lia)) as [h' [Hlen Hrun]].
    rewrite Hinvalid in Hrun. destruct Hrun as [message Hrun].
    rewrite Hrun.
    destruct (IH fuel (mkProc (input_lines bad ++ good ++ LF :: rest)
                         (fprintf_stderr (printf (net p) handle_prompt) message))
                h' good rest ltac:(lia) Hbad Hgood eq_refl
                ltac:(rewrite !length_app; simpl; lia))
      as [handle' [w' [Hrun' [Hc [Hlen' [Hout [Herr Hnet]]]]]]].
    exists handle', w'. split; [assumption|]. split; [assumption|].
    split; [lia|]. cbn [net stdout stderr fprintf_stderr printf rx tx wire] in *.
    split; [|split; [|assumption]].
    + rewrite Hout, <- app_assoc. reflexivity.
    + rewrite Herr, length_app. simpl. lia.
Qed.

Lemma createValidatedHandle_takes_first_valid_line_witness :
  exists handle' w',
    createValidatedHandle 40 (mkProc (text "not a handle" ++ LF :: text "bob_7" ++ LF :: text "hi") (receiver []))
      (repeat "#"%char MAX_BYTES)
    = Ok (handle', mkProc (text "hi") w')
    /\ cstr handle' = Some (text "bob_7")
    /\ length handle' = length (repeat "#"%char MAX_BYTES)
    /\ stdout w' = stdout (receiver []) ++ repeat handle_prompt 2
    /\ length (stderr w') = length (stderr (receiver [])) + 1
    /\ (rx w', tx w', wire w') = (rx (receiver []), tx (receiver []), wire (receiver [])).
Proof.
  apply (@createValidatedHandle_takes_first_valid_line
           [text "not a handle"] 40
           (mkProc (text "not a handle" ++ LF :: text "bob_7" ++ LF :: text "hi") (receiver []))
           (repeat "#"%char MAX_BYTES) (text "bob_7") (text "hi")).
  - vm_compute. lia.
  - reflexivity.
  - reflexivity.
  - reflexivity.
  - vm_compute. lia.
Defined.

(** X10: when the input holds characters but no newline, so that the end of
    the input comes before the line ends, [createValidatedHandle] never returns:
    the loop that discards the rest of the line runs for ever. *)
Theorem createValidatedHandle_hangs_at_end_of_input
    (fuel : nat) (p : proc) (handle : list char) :
  MAX_MSG <= length handle ->
  text_line (stdin p) = true ->
  stdin p <> [] ->
  createValidatedHandle fuel p handle = OutOfFuel.
Proof.
  intros Hcap Hin Hne. destruct fuel as [|fuel]; [reflexivity|].
  cbn [createValidatedHandle].
  destruct (@fgets_text handle (stdin p) (Z.of_nat MAX_MSG) Hin Hne
              ltac:(unfold MAX_MSG; lia) ltac:(lia)) as [h1 [Hf [Hc _]]].
  rewrite Hf. cbn [bind].
  rewrite (strchr_newline_cstr _ Hc). cbn [bind].
  rewrite (text_line_no_newline _ (text_line_firstn _ _ Hin)).
  rewrite fgetc_loop_no_newline
    by (apply text_line_no_newline; now apply text_line_skipn).
  reflexivity.
Qed.

Lemma createValidatedHandle_hangs_at_end_of_input_witness :
  createValidatedHandle 50 (mkProc (text "bob_7") (receiver []))
    (repeat "#"%char MAX_BYTES) = OutOfFuel.
Proof.
  apply (@createValidatedHandle_hangs_at_end_of_input 50
           (mkProc (text "bob_7") (receiver [])) (repeat "#"%char MAX_BYTES)).
  - vm_compute. lia.
  - reflexivity.
  - discriminate.
Defined.

(** ** [createValidatedMsg] *)

Lemma prompt_of_length (h : list char) : length (prompt_of h) = length h + 2.
Proof. unfold prompt_of. rewrite length_app. reflexivity. Qed.

Lemma prompt_of_text_line (h : list char) :
  text_line h = true -> text_line (prompt_of h) = true.
Proof. intros H. unfold prompt_of. now rewrite text_line_app, H. Qed.

Lemma quit_command_length : length quit_command = 5.
Proof. reflexivity. Qed.

Section CreateValidatedMsg.

Variables (stack handle h : list char) (L : nat) (msgBufferLen : Z).

Hypothesis Hstack : length stack = MAX_BYTES.
Hypothesis Hhandle : cstr handle = Some h.
Hypothesis Hvalid : valid_handle h = true.
Hypothesis HL : MAX_MSG * 2 <= L.
Hypothesis HmsgBufferLen : (0 <= msgBufferLen <= Z.of_nat L)%Z.

(** The statements of the loop before [fgets]. *)
Lemma createValidatedMsg_prompt (msg : list char) :
  length msg = L ->
  exists msg0 msg1,
    memset msg NUL msgBufferLen = Ok msg0
    /\ sprintf_prompt msg0 handle = Ok msg1
    /\ cstr msg1 = Some (prompt_of h)
    /\ length msg1 = L.
Proof using Hhandle Hvalid HL HmsgBufferLen.
  clear Hstack. intros Hlen. pose proof (valid_handle_length _ Hvalid) as Hh.
  unfold MAX_HANDLE_LEN, MAX_MSG in *.
  destruct (@memset_ok msg NUL msgBufferLen ltac:(lia)) as [msg0 [Hm Hlen0]].
  unfold sprintf_prompt. rewrite Hhandle. fold (prompt_of h).
  destruct (@write_string_ok msg0 0 (prompt_of h)) as [msg1 [Hw [Hc Hlen1]]].
  - rewrite prompt_of_length. lia.
  - reflexivity.
  - apply text_line_nul_free, prompt_of_text_line.
    now apply valid_handle_text_line.
  - exists msg0, msg1. repeat split; try assumption. lia.
Qed.

(** One turn of the loop on a line of text. *)
Lemma createValidatedMsg_step
    (fuel : nat) (p : proc) (msg t rest : list char) :
  length msg = L ->
  stdin p = t ++ LF :: rest ->
  text_line t = true ->
  length t < fuel ->
  let w := printf (net p) (prompt_text h) in
  exists msg',
    length msg' = L
    /\ if list_eq_dec ascii_dec t quit_command
       then createValidatedMsg (S fuel) stack p handle msg msgBufferLen
            = Ok (0%Z, msg', mkProc rest w)
            /\ cstr msg' = Some (prompt_of h ++ t)
       else if length t <=? MAX_MSG
       then createValidatedMsg (S fuel) stack p handle msg msgBufferLen
            = Ok (1%Z, msg', mkProc rest w)
            /\ cstr msg' = Some (frame_of (prompt_of h ++ t))
       else createValidatedMsg (S fuel) stack p handle msg msgBufferLen
            = createValidatedMsg fuel stack
                (mkProc rest (fprintf_stderr w invalid_length)) handle msg' msgBufferLen.
Proof.
  intros Hlen Hin Ht Hfuel w.
  pose proof (valid_handle_length _ Hvalid) as Hh.
  pose proof (valid_handle_text_line _ Hvalid) as Hhtext.
  pose proof (prompt_of_length h) as Hpl.
  pose proof (prompt_of_text_line _ Hhtext) as Hptext.
  pose proof MAX_BYTES_val as HMB.
  destruct (createValidatedMsg_prompt _ Hlen) as [msg0 [msg1 [Hm [Hs [Hc1 Hlen1]]]]].
  cbn [createValidatedMsg]. rewrite Hm. cbn [bind]. rewrite Hs. cbn [bind].
  unfold printf_string. rewrite Hc1. cbn [bind]. fold (prompt_text h). fold w.
  rewrite (strlen_cstr _ Hc1). cbn [bind]. rewrite Hin.
  unfold MAX_HANDLE_LEN in Hh. unfold MAX_MSG in HL.
  set (n := (Z.of_nat (MAX_MSG * 2) - Z.of_nat (length (prompt_of h)))%Z).
  assert (Hn : n = (998 - Z.of_nat (length h))%Z) by (unfold n, MAX_MSG; lia).
  assert (Hbuf : length (repeat NUL (MAX_MSG * 2)) = 1000) by apply repeat_length.
  destruct (le_lt_dec (length t + 2) (Z.to_nat n)) as [Hshort|Hlong].
  - (* The whole line is read. *)
    destruct (@fgets_whole (repeat NUL (MAX_MSG * 2)) t rest n Ht ltac:(lia) ltac:(lia))
      as [b1 [Hf [Hcb Hlenb]]].
    rewrite Hf. cbn [bind].
    destruct (@strcat_ok msg1 b1 (prompt_of h) (t ++ [LF]) Hc1 Hcb)
      as [msg2 [Hcat [Hc2 Hlen2]]].
    { rewrite length_app. simpl. lia. }
    rewrite Hcat. cbn [bind]. rewrite app_assoc in Hc2.
    rewrite (strchr_newline_cstr _ Hc2). cbn [bind].
    rewrite has_newline_app. simpl (has_newline [LF]). rewrite orb_true_r.
    rewrite (strlen_cstr _ Hc2). cbn [bind].
    destruct (@array_set_end _ _ _ Hc2) as [msg3 [Hset [Hc3 Hlen3]]].
    rewrite Hset. cbn [bind].
    rewrite (strlen_cstr _ Hcb). cbn [bind].
    replace (0 <? length (t ++ [LF])) with true
      by (symmetry; apply Nat.ltb_lt; rewrite length_app; simpl; lia).
    rewrite (@array_get_end _ _ Hcb) by (destruct t; discriminate).
    cbn [bind]. rewrite last_last. change (Ascii.eqb LF LF) with true. cbv iota.
    destruct (@array_set_end _ _ _ Hcb) as [b2 [Hsetb [Hcb2 Hlenb2]]].
    rewrite Hsetb. cbn [bind].
    destruct (list_eq_dec ascii_dec t quit_command) as [Hquit|Hquit].
    + subst t. rewrite (strcmp_equal_same _ Hcb2). cbn [bind].
      exists msg3. split; [lia|]. split; [reflexivity | assumption].
    + rewrite (@strcmp_equal_other quit_command b2 t Hcb2 eq_refl Hquit). cbn [bind].
      unfold _validateMsg. rewrite (strlen_cstr _ Hcb2). cbn [bind].
      fold invalid_length.
      destruct (length t <=? MAX_MSG) eqn:Hfit.
      * apply Nat.leb_le in Hfit. unfold MAX_MSG in Hfit. cbn [bind Z.eqb].
        destruct (@prepend_ok stack msg3 (prompt_of h ++ t) (Z.of_nat (length t))
                    Hstack Hc3)
          as [msg4 [Hpre [Hc4 Hlen4]]];
          try (unfold PREFIX_OFFSET; rewrite length_app; lia); try lia.
        rewrite Hpre. cbn [bind]. exists msg4. split; [lia|].
        split; [reflexivity | assumption].
      * cbn [bind Z.eqb]. exists msg3. split; [lia | reflexivity].
  - (* Only the beginning of the line fits. *)
    destruct (@fgets_part (repeat NUL (MAX_MSG * 2)) t (LF :: rest) n Ht
                ltac:(lia) ltac:(lia) ltac:(lia))
      as [b1 [Hf [Hcb Hlenb]]].
    rewrite Hf. cbn [bind].
    assert (Hfl : length (firstn (Z.to_nat n - 1) t) = Z.to_nat n - 1)
      by (rewrite length_firstn; lia).
    pose proof (text_line_firstn (Z.to_nat n - 1) _ Ht) as Hftext.
    destruct (@strcat_ok msg1 b1 (prompt_of h) _ Hc1 Hcb)
      as [msg2 [Hcat [Hc2 Hlen2]]]; [lia|].
    rewrite Hcat. cbn [bind].
    rewrite (strchr_newline_cstr _ Hc2). cbn [bind].
    rewrite has_newline_app, (text_line_no_newline _ Hptext),
      (text_line_no_newline _ Hftext). cbn [orb].
    rewrite fgetc_loop_line
      by (try (now apply text_line_skipn); rewrite length_skipn; lia).
    cbn [bind].
    rewrite (strlen_cstr _ Hcb). cbn [bind].
    replace (0 <? length (firstn (Z.to_nat n - 1) t)) with true
      by (symmetry; apply Nat.ltb_lt; lia).
    rewrite (@array_get_end _ _ Hcb) by (intros E; rewrite E in Hfl; simpl in Hfl; lia).
    cbn [bind].
    rewrite text_line_last
      by (try assumption; intros E; rewrite E in Hfl; simpl in Hfl; lia).
    cbn [bind].
    rewrite (@strcmp_equal_other quit_command b1 _ Hcb eq_refl)
      by (intros E; rewrite E, quit_command_length in Hfl; lia).
    cbn [bind]. unfold _validateMsg. rewrite (strlen_cstr _ Hcb). cbn [bind].
    fold invalid_length.
    replace (length (firstn (Z.to_nat n - 1) t) <=? MAX_MSG) with false
      by (symmetry; apply Nat.leb_gt; unfold MAX_MSG; lia).
    cbn [bind Z.eqb]. exists msg2. split; [lia|].
    destruct (list_eq_dec ascii_dec t quit_command) as [Hquit|Hquit];
      [rewrite Hquit, quit_command_length in Hlong; lia|].
    replace (length t <=? MAX_MSG) with false
      by (symmetry; apply Nat.leb_gt; unfold MAX_MSG; lia).
    reflexivity.
Qed.

Lemma console_printf (w : world) (s : string) (out err : list string) :
  console (printf w s) out err = console w (s :: out) err.
Proof. unfold console, printf. cbn. now rewrite <- app_assoc. Qed.

Lemma console_fprintf_stderr (w : world) (s : string) (out err : list string) :
  console (fprintf_stderr w s) out err = console w out (s :: err).
Proof. unfold console, fprintf_stderr. cbn. now rewrite <- app_assoc. Qed.

Lemma printf_console (w : world) (s : string) : printf w s = console w [s] [].
Proof. unfold console, printf. now rewrite app_nil_r. Qed.

(** The loop on lines that are too long, followed by one that is not. *)
Lemma createValidatedMsg_run :
  forall (long : list (list char)) (fuel : nat) (p : proc) (msg t rest : list char),
    length msg = L ->
    forallb (fun l => text_line l && (MAX_MSG <? length l)) long = true ->
    text_line t = true ->
    length t <= MAX_MSG ->
    stdin p = input_lines long ++ t ++ LF :: rest ->
    length (input_lines long ++ t ++ [LF]) < fuel ->
    exists msg',
      createValidatedMsg fuel stack p handle msg msgBufferLen
      = Ok ((if list_eq_dec ascii_dec t quit_command then 0 else 1)%Z, msg',
            mkProc rest (console (net p) (repeat (prompt_text h) (S (length long)))
                           (repeat invalid_length (length long))))
      /\ cstr msg' = Some (if list_eq_dec ascii_dec t quit_command
                          then prompt_of h ++ t else frame_of (prompt_of h ++ t))
      /\ length msg' = L.
Proof.
  induction long as [|l long IH]; intros fuel p msg t rest Hlen Hlong Ht Hfit Hin Hfuel.
  - simpl in Hin, Hfuel. rewrite length_app in Hfuel. simpl in Hfuel.
    destruct fuel as [|fuel]; [lia|].
    destruct (@createValidatedMsg_step fuel p msg t rest Hlen Hin Ht ltac:(lia))
      as [msg' [Hlen' Hrun]].
    exists msg'. simpl repeat. rewrite <- printf_console.
    destruct (list_eq_dec ascii_dec t quit_command).
    + destruct Hrun as [Hrun Hc]. auto.
    + replace (length t <=? MAX_MSG) with true in Hrun
        by (symmetry; now apply Nat.leb_le).
      destruct Hrun as [Hrun Hc]. auto.
  - cbn [forallb] in Hlong. apply andb_true_iff in Hlong as [Hl Hlong].
    apply andb_true_iff in Hl as [Hl Hover]. apply Nat.ltb_lt in Hover.
    rewrite input_lines_cons in Hin, Hfuel. rewrite <- app_assoc in Hin.
    simpl app in Hin. rewrite !length_app in Hfuel. simpl in Hfuel.
    destruct fuel as [|fuel]; [lia|].
    destruct (@createValidatedMsg_step fuel p msg l _ Hlen Hin Hl ltac:(lia))
      as [msg1 [Hlen1 Hrun]].
    destruct (list_eq_dec ascii_dec l quit_command) as [Hquit|_];
      [rewrite Hquit, quit_command_length in Hover; unfold MAX_MSG in Hover; lia|].
    replace (length l <=? MAX_MSG) with false in Hrun
      by (symmetry; now apply Nat.leb_gt).
    rewrite Hrun.
    destruct (IH fuel (mkProc (input_lines long ++ t ++ LF :: rest)
                         (fprintf_stderr (printf (net p) (prompt_text h)) invalid_length))
                msg1 t rest Hlen1 Hlong Ht Hfit eq_refl
                ltac:(rewrite !length_app; simpl; lia))
      as [msg' [Hrun' [Hc Hlen']]].
    exists msg'. rewrite Hrun'. cbn [net].
    rewrite console_fprintf_stderr, console_printf. auto.
Qed.

End CreateValidatedMsg.

(** X11: [createValidatedMsg] with a valid handle in [handle] skips the lines
    of more than 500 characters and, on the first line [t] of at most 500 that
    is not the quit command, returns 1 with the frame in [msg]: the three
    digits of the length of the prompt and [t] plus one, the prompt, [t].
    It has printed the prompt once for each line read, one line on the
    standard error for each line skipped, and has touched nothing else. *)
Theorem createValidatedMsg_frames_first_short_line
    (stack handle h msg t rest : list char) (msgBufferLen : Z)
    (long : list (list char)) (fuel : nat) (p : proc) :
  length stack = MAX_BYTES ->
  cstr handle = Some h ->
  valid_handle h = true ->
  MAX_MSG * 2 <= length msg ->
  (0 <= msgBufferLen <= Z.of_nat (length msg))%Z ->
  forallb (fun l => text_line l && (MAX_MSG <? length l)) long = true ->
  text_line t = true ->
  length t <= MAX_MSG ->
  t <> quit_command ->
  stdin p = input_lines long ++ t ++ LF :: rest ->
  length (input_lines long ++ t ++ [LF]) < fuel ->
  exists msg',
    createValidatedMsg fuel stack p handle msg msgBufferLen
    = Ok (1%Z, msg',
          mkProc rest (console (net p) (repeat (prompt_text h) (S (length long)))
                         (repeat invalid_length (length long))))
    /\ cstr msg' = Some (frame_of (prompt_of h ++ t))
    /\ length msg' = length msg.
Proof.
  intros Hstack Hhandle Hvalid HL Hmbl Hlong Ht Hfit Hquit Hin Hfuel.
  destruct (@createValidatedMsg_run stack handle h (length msg) msgBufferLen
              Hstack Hhandle Hvalid HL Hmbl long fuel p msg t rest
              eq_refl Hlong Ht Hfit Hin Hfuel) as [msg' Hrun].
  destruct (list_eq_dec ascii_dec t quit_command); [contradiction|].
  now exists msg'.
Qed.

Lemma createValidatedMsg_frames_first_short_line_witness :
  exists msg',
    createValidatedMsg 600 junk
      (mkProc (repeat "x"%char 501 ++ LF :: text "hello" ++ LF :: text "more")
         (receiver []))
      (text "bob" ++ [NUL]) (user_buffer "") 1032
    = Ok (1%Z, msg',
          mkProc (text "more")
            (console (receiver []) (repeat (prompt_text (text "bob")) 2)
               (repeat invalid_length 1)))
    /\ cstr msg' = Some (frame_of (prompt_of (text "bob") ++ text "hello"))
    /\ length msg' = length (user_buffer "").
Proof.
  apply (@createValidatedMsg_frames_first_short_line junk (text "bob" ++ [NUL])
           (text "bob") (user_buffer "") (text "hello") (text "more") 1032
           [repeat "x"%char 501] 600
           (mkProc (repeat "x"%char 501 ++ LF :: text "hello" ++ LF :: text "more")
              (receiver []))).
  - reflexivity.
  - reflexivity.
  - reflexivity.
  - vm_compute. lia.
  - vm_compute. split; discriminate.
  - vm_compute. reflexivity.
  - reflexivity.
  - vm_compute. lia.
  - discriminate.
  - vm_compute. reflexivity.
  - vm_compute. lia.
Defined.

(** X12: on the line that is exactly the quit command, [createValidatedMsg]
    returns 0; [msg] then holds the prompt and the command, and no header. *)
Theorem createValidatedMsg_quit
    (stack handle h msg rest : list char) (msgBufferLen : Z)
    (long : list (list char)) (fuel : nat) (p : proc) :
  length stack = MAX_BYTES ->
  cstr handle = Some h ->
  valid_handle h = true ->
  MAX_MSG * 2 <= length msg ->
  (0 <= msgBufferLen <= Z.of_nat (length msg))%Z ->
  forallb (fun l => text_line l && (MAX_MSG <? length l)) long = true ->
  stdin p = input_lines long ++ quit_command ++ LF :: rest ->
  length (input_lines long ++ quit_command ++ [LF]) < fuel ->
  exists msg',
    createValidatedMsg fuel stack p handle msg msgBufferLen
    = Ok (0%Z, msg',
          mkProc rest (console (net p) (repeat (prompt_text h) (S (length long)))
                         (repeat invalid_length (length long))))
    /\ cstr msg' = Some (prompt_of h ++ quit_command)
    /\ length msg' = length msg.
Proof.
  intros Hstack Hhandle Hvalid HL Hmbl Hlong Hin Hfuel.
  destruct (@createValidatedMsg_run stack handle h (length msg) msgBufferLen
              Hstack Hhandle Hvalid HL Hmbl long fuel p msg quit_command rest
              eq_refl Hlong eq_refl ltac:(vm_compute; lia) Hin Hfuel) as [msg' Hrun].
  destruct (list_eq_dec ascii_dec quit_command quit_command); [|contradiction].
  now exists msg'.
Qed.

Lemma createValidatedMsg_quit_witness :
  exists msg',
    createValidatedMsg 10 junk
      (mkProc (quit_command ++ LF :: text "more") (receiver []))
      (text "bob" ++ [NUL]) (user_buffer "") 1032
    = Ok (0%Z, msg',
          mkProc (text "more")
            (console (receiver []) (repeat (prompt_text (text "bob")) 1)
               (repeat invalid_length 0)))
    /\ cstr msg' = Some (prompt_of (text "bob") ++ quit_command)
    /\ length msg' = length (user_buffer "").
Proof.
  apply (@createValidatedMsg_quit junk (text "bob" ++ [NUL])
           (text "bob") (user_buffer "") (text "more") 1032 [] 10
           (mkProc (quit_command ++ LF :: text "more") (receiver []))).
  - reflexivity.
  - reflexivity.
  - reflexivity.
  - vm_compute. lia.
  - vm_compute. split; discriminate.
  - reflexivity.
  - reflexivity.
  - vm_compute. lia.
Defined.

Lemma cstr_zeros (n : nat) : cstr (repeat NUL (S n)) = Some [].
Proof. reflexivity. Qed.

(** X13: when no newline is left in the input, [createValidatedMsg] never
    returns: the loop that discards the rest of the line runs for ever at the
    end of the input, also when the input is empty. *)
Theorem createValidatedMsg_hangs_at_end_of_input
    (stack handle h msg : list char) (msgBufferLen : Z) (fuel : nat) (p : proc) :
  cstr handle = Some h ->
  valid_handle h = true ->
  MAX_MSG * 2 <= length msg ->
  (0 <= msgBufferLen <= Z.of_nat (length msg))%Z ->
  text_line (stdin p) = true ->
  createValidatedMsg fuel stack p handle msg msgBufferLen = OutOfFuel.
Proof.
  intros Hhandle Hvalid HL Hmbl Hin.
  destruct fuel as [|fuel]; [reflexivity|].
  pose proof (valid_handle_length _ Hvalid) as Hh.
  pose proof (prompt_of_length h) as Hpl.
  pose proof (prompt_of_text_line _ (valid_handle_text_line _ Hvalid)) as Hptext.
  destruct (@createValidatedMsg_prompt handle h (length msg) msgBufferLen
              Hhandle Hvalid HL Hmbl msg eq_refl)
    as [msg0 [msg1 [Hm [Hs [Hc1 Hlen1]]]]].
  cbn [createValidatedMsg]. rewrite Hm. cbn [bind]. rewrite Hs. cbn [bind].
  unfold printf_string. rewrite Hc1. cbn [bind].
  rewrite (strlen_cstr _ Hc1). cbn [bind].
  unfold MAX_HANDLE_LEN in Hh. unfold MAX_MSG in HL.
  set (n := (Z.of_nat (MAX_MSG * 2) - Z.of_nat (length (prompt_of h)))%Z).
  assert (Hn : n = (998 - Z.of_nat (length h))%Z) by (unfold n, MAX_MSG; lia).
  assert (Hbuf : length (repeat NUL (MAX_MSG * 2)) = 1000) by apply repeat_length.
  assert (Hread : exists b1 s, fgets (repeat NUL (MAX_MSG * 2)) n (stdin p)
                               = Ok (b1, skipn (Z.to_nat n - 1) (stdin p))
                               /\ cstr b1 = Some s /\ text_line s = true
                               /\ length s <= Z.to_nat n - 1).
  { destruct (stdin p) as [|c input] eqn:E.
    - exists (repeat NUL (MAX_MSG * 2)), []. unfold fgets.
      replace (n <=? 0)%Z with false by (symmetry; apply Z.leb_gt; lia).
      replace (Z.to_nat n - 1) with (S (Z.to_nat n - 2)) by lia.
      cbn [read_line skipn].
      replace (n =? 1)%Z with false by (symmetry; apply Z.eqb_neq; lia).
      repeat split. simpl. lia.
    - destruct (@fgets_text (repeat NUL (MAX_MSG * 2)) (c :: input) n Hin
                  ltac:(discriminate) ltac:(lia) ltac:(lia)) as [b1 [Hf [Hcb _]]].
      exists b1, (firstn (Z.to_nat n - 1) (c :: input)).
      repeat split; try assumption.
      + now apply text_line_firstn.
      + rewrite length_firstn. lia. }
  destruct Hread as [b1 [s [Hf [Hcb [Hs1 Hs2]]]]].
  rewrite Hf. cbn [bind].
  destruct (@strcat_ok msg1 b1 (prompt_of h) s Hc1 Hcb) as [msg2 [Hcat [Hc2 _]]]; [lia|].
  rewrite Hcat. cbn [bind].
  rewrite (strchr_newline_cstr _ Hc2). cbn [bind].
  rewrite has_newline_app, (text_line_no_newline _ Hptext),
    (text_line_no_newline _ Hs1). cbn [orb].
  rewrite fgetc_loop_no_newline
    by (apply text_line_no_newline; now apply text_line_skipn).
  reflexivity.
Qed.

Lemma createValidatedMsg_hangs_at_end_of_input_witness :
  createValidatedMsg 50 junk (mkProc (text "hello") (receiver []))
    (text "bob" ++ [NUL]) (user_buffer "") 1032 = OutOfFuel.
Proof.
  apply (@createValidatedMsg_hangs_at_end_of_input junk (text "bob" ++ [NUL])
           (text "bob") (user_buffer "") 1032 50
           (mkProc (text "hello") (receiver []))).
  - reflexivity.
  - reflexivity.
  - vm_compute. lia.
  - vm_compute. split; discriminate.
  - reflexivity.
Defined.

(** * Properties of the whole program *)

(** ** The loop of [main] *)

(** [chatSend] on a socket that takes at least one byte at every call: the
    whole state after it, [j] being the number of calls of [send]. *)
Lemma chatSend_loop_uses :
  forall caps rest fuel w message msgLen totalSent,
    tx w = map SendAccepts caps ++ rest ->
    accepts_some caps = true ->
    (0 <= totalSent <= msgLen)%Z ->
    (msgLen <= Z.of_nat (length message))%Z ->
    (msgLen <= INT_MAX)%Z ->
    (msgLen - totalSent <= Z.of_nat (length caps))%Z ->
    length (tx w) < fuel ->
    exists j,
      j <= Z.to_nat (msgLen - totalSent)
      /\ chatSend_loop fuel w message msgLen totalSent
         = Ok (mkWorld (rx w) (map SendAccepts (skipn j caps) ++ rest)
                 (wire w ++ firstn (Z.to_nat (msgLen - totalSent))
                                   (skipn (Z.to_nat totalSent) message))
                 (recv_log w) (stdout w) (stderr w)).
Proof.
  induction caps as [|k caps IH];
    intros rest fuel w message msgLen totalSent
           Htx Hcaps Hsent Hlen Hmax Henough Hfuel.
  - simpl in Henough. rewrite chatSend_loop_done by lia.
    exists 0. replace (Z.to_nat (msgLen - totalSent)) with 0 by lia.
    rewrite firstn_0, app_nil_r. simpl skipn. rewrite <- Htx.
    split; [lia|]. now destruct w.
  - destruct (Z.eq_dec totalSent msgLen) as [Heq|Hneq].
    { rewrite chatSend_loop_done by lia.
      exists 0. replace (Z.to_nat (msgLen - totalSent)) with 0 by lia.
      rewrite firstn_0, app_nil_r. simpl skipn. rewrite <- Htx.
      split; [lia|]. now destruct w. }
    simpl in Htx, Henough.
    unfold accepts_some in Hcaps. cbn [forallb] in Hcaps.
    apply andb_true_iff in Hcaps as [Hk Hcaps]. apply Nat.leb_le in Hk.
    destruct fuel as [|fuel]; [lia|].
    pose proof INT_MIN_val as Hmin. pose proof INT_MAX_val as Hmaxv.
    rewrite chatSend_loop_step by lia.
    set (len := Z.to_nat (msgLen - totalSent)).
    set (data := skipn (Z.to_nat totalSent) message).
    set (n := Nat.min k len).
    assert (Hn : 1 <= n <= len) by (unfold n, len; lia).
    assert (Hdata : len <= length data).
    { unfold data, len. rewrite length_skipn. lia. }
    unfold send. rewrite Htx. fold n.
    replace (n <=? length data) with true by (symmetry; apply Nat.leb_le; lia).
    cbn [bind].
    assert (Hz : (Z.of_nat n =? -1)%Z = false) by (apply Z.eqb_neq; lia).
    rewrite Hz. rewrite int_result_ok by lia. cbn [bind].
    destruct (IH rest fuel (sent w (map SendAccepts caps ++ rest) (firstn n data))
                message msgLen (totalSent + Z.of_nat n)%Z)
      as [j [Hj Hrun]]; try assumption; try lia; try reflexivity.
    + rewrite Htx in Hfuel. simpl in Hfuel |- *. lia.
    + exists (S j). split; [unfold len in *; lia|].
      rewrite Hrun. cbn [sent rx wire recv_log stdout stderr skipn]. do 2 f_equal.
      rewrite <- app_assoc. f_equal.
      replace (Z.to_nat (msgLen - (totalSent + Z.of_nat n))) with (len - n)
        by (unfold len; lia).
      replace (Z.to_nat (totalSent + Z.of_nat n)) with (n + Z.to_nat totalSent)
        by lia.
      rewrite <- skipn_skipn. fold data.
      replace len with (n + (len - n)) at 2 by lia.
      now rewrite firstn_add.
Qed.

Lemma accepts_some_skipn (j : nat) (caps : list nat) :
  accepts_some caps = true -> accepts_some (skipn j caps) = true.
Proof.
  revert j. induction caps as [|k caps IH]; intros [|j] H; try assumption.
  unfold accepts_some in *. cbn [forallb] in H.
  apply andb_true_iff in H as [_ H]. now apply IH.
Qed.

Lemma firstn_cstr (a s : list char) :
  cstr a = Some s -> firstn (length s + 1) a = s ++ [NUL].
Proof.
  intros H. destruct (cstr_cells _ H) as [_ [t ->]].
  rewrite firstn_app. replace (length s + 1 - length s) with 1 by lia.
  rewrite firstn_all2 by lia. reflexivity.
Qed.

(** The call of [chatSend] in [main], on a socket that takes at least one
    byte at every call. *)
Lemma main_chatSend_sends (w : world) (buffer f : list char)
    (caps : list nat) (rest : list send_event) :
  cstr buffer = Some f ->
  tx w = map SendAccepts caps ++ rest ->
  accepts_some caps = true ->
  length f + 1 <= length caps ->
  (Z.of_nat (length f) + 1 <= INT_MAX)%Z ->
  exists j,
    j <= length f + 1
    /\ main_chatSend w buffer
       = Ok (mkWorld (rx w) (map SendAccepts (skipn j caps) ++ rest)
               (wire w ++ f ++ [NUL]) (recv_log w) (stdout w) (stderr w)).
Proof.
  intros Hc Htx Hcaps Henough Hmax.
  unfold main_chatSend, chatSend. rewrite (strlen_cstr _ Hc). cbn [bind].
  assert (Hfit : length f + 1 <= length buffer).
  { destruct (cstr_cells _ Hc) as [_ [t ->]]. rewrite length_app. simpl. lia. }
  destruct (@chatSend_loop_uses caps rest (S (length (tx w))) w buffer
              (Z.of_nat (length f) + 1) 0 Htx Hcaps ltac:(lia) ltac:(lia) Hmax
              ltac:(lia) ltac:(lia)) as [j [Hj Hrun]].
  exists j. split; [lia|]. rewrite Hrun.
  replace (Z.to_nat (Z.of_nat (length f) + 1 - 0)) with (length f + 1) by lia.
  simpl (Z.to_nat 0). rewrite skipn_O, (firstn_cstr _ Hc). reflexivity.
Qed.

Lemma frame_of_length (body : list char) :
  length body + 1 < 1000 -> length (frame_of body) = PREFIX_OFFSET + length body.
Proof.
  intros H. unfold frame_of. rewrite length_app, format_03d_length by assumption.
  reflexivity.
Qed.

Lemma char_list_eqb_refl (a : list char) : char_list_eqb a a = true.
Proof. unfold char_list_eqb. apply String.eqb_refl. Qed.

Lemma printf_line_cstr (w : world) (a s : list char) :
  cstr a = Some s -> printf_line w a = Ok (printf w (reply_line s)).
Proof. intros H. unfold printf_line. now rewrite H. Qed.

(** One turn of the loop: a line is read, sent, and answered. *)
Lemma main_loop_exchange
    (f : nat) (stack : nat -> list char) (p : proc)
    (handle h buffer t r rest : list char)
    (caps : list nat) (tx_rest : list send_event)
    (chunks : list (list char)) (later : list char) (rx_rest : list recv_event) :
  length (stack f) = MAX_BYTES ->
  cstr handle = Some h ->
  valid_handle h = true ->
  MAX_MSG * 2 <= length buffer ->
  text_line t = true ->
  length t <= MAX_MSG ->
  t <> quit_command ->
  stdin p = t ++ LF :: rest ->
  length t + 1 < f ->
  tx (net p) = map SendAccepts caps ++ tx_rest ->
  accepts_some caps = true ->
  length (sent_frame h t) <= length caps ->
  rx (net p) = map RecvBytes chunks ++ rx_rest ->
  nonempty_chunks chunks = true ->
  concat chunks = reply_frame r ++ later ->
  nul_free r = true ->
  length r + 1 < MAX_BYTES ->
  exists buffer' w' j chunks',
    main_loop (S f) stack p handle buffer
    = main_loop f stack (mkProc rest w') handle buffer'
    /\ length buffer' = length buffer
    /\ j <= length (sent_frame h t)
    /\ tx w' = map SendAccepts (skipn j caps) ++ tx_rest
    /\ wire w' = wire (net p) ++ sent_frame h t
    /\ rx w' = map RecvBytes chunks' ++ rx_rest
    /\ concat chunks' = later
    /\ nonempty_chunks chunks' = true
    /\ stdout w' = stdout (net p) ++ [prompt_text h; reply_line r]
    /\ stderr w' = stderr (net p).
Proof.
  intros Hstack Hhandle Hvalid HL Ht Hfit Hquit Hin Hfuel Htx Hcaps Henough
         Hrx Hne Hreply Hr Hrlen.
  pose proof MAX_BYTES_val as HMB. pose proof INT_MAX_val as HIM.
  pose proof (valid_handle_length _ Hvalid) as Hh.
  pose proof (prompt_of_length h) as Hpl.
  unfold MAX_HANDLE_LEN in Hh. unfold MAX_MSG in Hfit, HL.
  assert (Hbody : length (prompt_of h ++ t) <= 512) by (rewrite length_app; lia).
  pose proof (@frame_of_length (prompt_of h ++ t) ltac:(lia)) as Hfl.
  unfold PREFIX_OFFSET in Hfl.
  assert (Hsl : length (sent_frame h t) = length (frame_of (prompt_of h ++ t)) + 1).
  { unfold sent_frame. rewrite length_app. reflexivity. }
  cbn [main_loop].
  destruct (@createValidatedMsg_run (stack f) handle h (length buffer)
              (Z.of_nat (length buffer)) Hstack Hhandle Hvalid
              ltac:(unfold MAX_MSG; lia) ltac:(lia) [] f p buffer t rest
              eq_refl eq_refl Ht ltac:(unfold MAX_MSG; lia) Hin
              ltac:(simpl; rewrite length_app; simpl; lia))
    as [b1 [Hrun [Hc1 Hlen1]]].
  destruct (list_eq_dec ascii_dec t quit_command) as [|_]; [contradiction|].
  rewrite Hrun. cbn [bind Z.eqb net stdin repeat length].
  set (w0 := console (net p) [prompt_text h] []) in *.
  destruct (@main_chatSend_sends w0 b1 _ caps tx_rest Hc1 Htx Hcaps
              ltac:(lia) ltac:(lia)) as [j [Hj Hsend]].
  rewrite Hsend. cbn [bind].
  set (w1 := mkWorld _ _ _ _ _ _) in *.
  assert (Hhl : length (format_03d (length r + 1)) = PREFIX_OFFSET)
    by (apply format_03d_length; lia).
  assert (Hrl : length (reply_frame r) = PREFIX_OFFSET + (length r + 1)).
  { unfold reply_frame, frame_of. rewrite !length_app, Hhl. simpl. lia. }
  destruct (@chatReceive_frame w1 b1 (format_03d (length r + 1)) r 1 (length r + 1)
              chunks rx_rest Hrx Hne)
    as [status [b2 [w2 [chunks' [Hrecv [Hst [Hc2 [Hlen2 [Hrx2 [Hcc [Hne2 Hout2]]]]]]]]]]];
    try assumption; try lia.
  { rewrite Hreply, length_app. lia. }
  { rewrite Hreply, <- Hrl, firstn_app, Nat.sub_diag, firstn_all, firstn_0, app_nil_r.
    unfold reply_frame, frame_of. now rewrite <- app_assoc. }
  { apply format_03d_nul_free. lia. }
  { apply strtol_format_03d. lia. }
  destruct (chatReceive_frame_rule _ _ Hrecv) as [Htx2 [Hwire2 Herr2]].
  rewrite Hrecv. cbn [bind].
  replace (status =? 0)%Z with false by (symmetry; apply Z.eqb_neq; lia).
  rewrite (printf_line_cstr _ _ Hc2). cbn [bind].
  exists b2, (printf w2 (reply_line r)), j, chunks'.
  cbn [printf tx wire rx stdout stderr].
  rewrite Htx2, Hwire2, Herr2, Hout2, Hrx2, Hcc.
  unfold w1, w0, console. cbn [tx wire rx stdout stderr].
  rewrite app_nil_r, <- app_assoc.
  repeat split; try reflexivity; try assumption; try lia.
  rewrite Hreply, <- Hrl, skipn_app, Nat.sub_diag, skipn_all. reflexivity.
Qed.

Lemma exchange_ok_inv (t r : list char) :
  exchange_ok (t, r) = true ->
  text_line t = true /\ length t <= MAX_MSG /\ t <> quit_command
  /\ nul_free r = true /\ length r + 1 < MAX_BYTES.
Proof.
  unfold exchange_ok. cbn [fst snd]. intros H.
  repeat (apply andb_true_iff in H as [H ?]).
  repeat split; try assumption.
  - now apply Nat.leb_le.
  - intros ->. rewrite char_list_eqb_refl in *. discriminate.
  - now apply Nat.ltb_lt.
Qed.

Lemma session_input_cons (t r : list char) (exs : list (list char * list char))
    (rest : list char) :
  session_input ((t, r) :: exs) ++ rest = t ++ LF :: (session_input exs ++ rest).
Proof.
  unfold session_input. cbn [map fst]. rewrite input_lines_cons.
  now rewrite <- !app_assoc.
Qed.

(** The loop of [main] on a whole session. *)
Lemma main_loop_run :
  forall (exs : list (list char * list char)) (fuel : nat) (stack : nat -> list char)
         (p : proc) (handle h buffer rest : list char)
         (caps : list nat) (tx_rest : list send_event)
         (chunks : list (list char)) (later : list char) (rx_rest : list recv_event),
    (forall i, length (stack i) = MAX_BYTES) ->
    cstr handle = Some h ->
    valid_handle h = true ->
    MAX_MSG * 2 <= length buffer ->
    forallb exchange_ok exs = true ->
    stdin p = session_input exs ++ rest ->
    length (session_input exs) + 1 < fuel ->
    tx (net p) = map SendAccepts caps ++ tx_rest ->
    accepts_some caps = true ->
    length (session_wire h exs) <= length caps ->
    rx (net p) = map RecvBytes chunks ++ rx_rest ->
    nonempty_chunks chunks = true ->
    concat chunks = session_replies exs ++ later ->
    exists w' chunks',
      main_loop fuel stack p handle buffer = Ok (mkProc rest w')
      /\ wire w' = wire (net p) ++ session_wire h exs
      /\ stdout w' = stdout (net p) ++ session_output h exs
      /\ stderr w' = stderr (net p)
      /\ rx w' = map RecvBytes chunks' ++ rx_rest
      /\ concat chunks' = later.
Proof.
  induction exs as [|[t r] exs IH];
    intros fuel stack p handle h buffer rest caps tx_rest chunks later rx_rest
           Hstack Hhandle Hvalid HL Hexs Hin Hfuel Htx Hcaps Henough Hrx Hne Hreplies.
  - unfold session_input in Hin, Hfuel. simpl input_lines in Hin, Hfuel.
    cbn [map app] in Hin, Hfuel. rewrite <- app_assoc in Hin.
    destruct fuel as [|fuel]; [lia|]. cbn [main_loop].
    destruct (@createValidatedMsg_run (stack fuel) handle h (length buffer)
                (Z.of_nat (length buffer)) (Hstack fuel) Hhandle Hvalid HL
                ltac:(lia) [] fuel p buffer quit_command rest
                eq_refl eq_refl eq_refl ltac:(vm_compute; lia) Hin
                ltac:(simpl in *; lia))
      as [b1 [Hrun _]].
    destruct (list_eq_dec ascii_dec quit_command quit_command); [|contradiction].
    rewrite Hrun. cbn [bind Z.eqb net stdin repeat length].
    eexists. exists chunks. split; [reflexivity|].
    unfold console, session_wire, session_output, session_replies in *.
    cbn [printf wire stdout stderr rx map concat app] in *.
    rewrite !app_nil_r, <- app_assoc. auto.
  - cbn [forallb] in Hexs. apply andb_true_iff in Hexs as [He Hexs].
    apply exchange_ok_inv in He as [Ht [Hfit [Hquit [Hr Hrlen]]]].
    rewrite session_input_cons in Hin.
    assert (Hlen_in : length (session_input ((t, r) :: exs))
                      = length t + 1 + length (session_input exs)).
    { pose proof (session_input_cons t r exs []) as E. rewrite !app_nil_r in E.
      rewrite E, length_app. simpl. lia. }
    rewrite Hlen_in in Hfuel.
    assert (Hwire : session_wire h ((t, r) :: exs)
                    = sent_frame h t ++ session_wire h exs) by reflexivity.
    assert (Hrep : session_replies ((t, r) :: exs)
                   = reply_frame r ++ session_replies exs) by reflexivity.
    rewrite Hwire, length_app in Henough. rewrite Hrep, <- app_assoc in Hreplies.
    destruct fuel as [|fuel]; [lia|].
    destruct (@main_loop_exchange fuel stack p handle h buffer t r _ caps tx_rest
                chunks _ rx_rest (Hstack fuel) Hhandle Hvalid HL Ht Hfit Hquit Hin
                ltac:(unfold session_input in Hfuel; rewrite !length_app in Hfuel;
                      simpl in Hfuel; lia)
                Htx Hcaps ltac:(lia) Hrx Hne Hreplies Hr Hrlen)
      as [b1 [w1 [j [chunks1 [Hturn [Hlen1 [Hj [Htx1 [Hwire1 [Hrx1 [Hcc1
            [Hne1 [Hout1 Herr1]]]]]]]]]]]]].
    rewrite Hturn.
    destruct (IH fuel stack (mkProc (session_input exs ++ rest) w1) handle h b1 rest
                (skipn j caps) tx_rest chunks1 later rx_rest Hstack Hhandle Hvalid
                ltac:(lia) Hexs eq_refl ltac:(lia) Htx1
                (accepts_some_skipn j _ Hcaps)
                ltac:(rewrite length_skipn; lia) Hrx1 Hne1 Hcc1)
      as [w' [chunks' [Hrun [Hwire' [Hout' [Herr' [Hrx' Hcc']]]]]]].
    exists w', chunks'. cbn [net] in *.
    rewrite Hrun, Hwire', Hout', Herr', Hwire1, Hout1, Herr1, Hwire.
    unfold session_output. cbn [map concat snd].
    rewrite <- !app_assoc. repeat split; assumption || reflexivity.
Qed.

(** ** [formConnection] *)

Lemma console_console (w : world) (a b c d : list string) :
  console (console w a b) c d = console w (a ++ c) (b ++ d).
Proof. unfold console. cbn. now rewrite <- !app_assoc. Qed.

Lemma console_nil (w : world) : console w [] [] = w.
Proof. unfold console. rewrite !app_nil_r. now destruct w. Qed.

Lemma perror_console (w : world) (s e : string) :
  perror w s e = console w [] [(s ++ ": " ++ e ++ newline)%string].
Proof. unfold perror, fprintf_stderr, console. now rewrite app_nil_r. Qed.

Lemma formConnection_loop_refused :
  forall (before : list candidate) (w : world) (closed : list Z)
         (next : list candidate),
    forallb refused before = true ->
    formConnection_loop w closed (before ++ next)
    = formConnection_loop (console w [] (map refusal before))
        (closed ++ opened before) next.
Proof.
  induction before as [|c before IH]; intros w closed next H.
  - simpl. now rewrite console_nil, app_nil_r.
  - cbn [forallb] in H. apply andb_true_iff in H as [Hc H].
    simpl app. cbn [formConnection_loop]. unfold opened, refusal at 1.
    cbn [filter map]. unfold refused in Hc.
    destruct (socket_result c =? -1)%Z eqn:Hs.
    + rewrite (IH _ _ _ H), perror_console, console_console. reflexivity.
    + cbn [orb] in Hc. rewrite Hc. cbn [negb map].
      rewrite (IH _ _ _ H), perror_console, console_console, <- app_assoc.
      reflexivity.
Qed.

(** X14: [formConnection] returns the descriptor of the first address of the
    list on which both [socket] and [connect] succeed. Every descriptor it
    opened before is closed, one line is printed on the standard error for
    each address it gave up, and the addresses after the first success are
    not tried. *)
Theorem formConnection_returns_first_connected
    (w : world) (r : resolution) (before after : list candidate) (c : candidate) :
  gai_status r = 0%Z ->
  gai_res r = before ++ c :: after ->
  forallb refused before = true ->
  refused c = false ->
  formConnection w r
  = Ok (socket_result c, opened before, console w [] (map refusal before)).
Proof.
  intros Hgai Hres Hbefore Hc. unfold formConnection.
  rewrite Hgai, Hres. cbn [Z.eqb negb].
  rewrite formConnection_loop_refused by assumption.
  cbn [formConnection_loop app]. unfold refused in Hc.
  apply orb_false_iff in Hc as [Hs Hk]. now rewrite Hs, Hk.
Qed.

Lemma formConnection_returns_first_connected_witness :
  formConnection (receiver [])
    (mkResolution 0 "" [mkCandidate (-1) 0 "Address family not supported";
                        mkCandidate 3 (-1) "Connection refused";
                        mkCandidate 4 0 ""; mkCandidate 5 0 ""])
  = Ok (4%Z, [3%Z],
        console (receiver []) []
          ["chatclient: socket: Address family not supported" ++ newline;
           "chatclient: connect: Connection refused" ++ newline]%string).
Proof.
  apply (@formConnection_returns_first_connected (receiver [])
           (mkResolution 0 "" [mkCandidate (-1) 0 "Address family not supported";
                               mkCandidate 3 (-1) "Connection refused";
                               mkCandidate 4 0 ""; mkCandidate 5 0 ""])
           [mkCandidate (-1) 0 "Address family not supported";
            mkCandidate 3 (-1) "Connection refused"]
           [mkCandidate 5 0 ""] (mkCandidate 4 0 ""));
    reflexivity.
Defined.

(** X15: when [getaddrinfo] fails, or when no address of its list lets both
    [socket] and [connect] succeed, [formConnection] does not return: it
    ends the process with status 2. *)
Theorem formConnection_exits_when_nothing_connects (w : world) (r : resolution) :
  gai_status r <> 0%Z \/ forallb refused (gai_res r) = true ->
  formConnection w r = Exited 2.
Proof.
  intros H. unfold formConnection.
  destruct (gai_status r =? 0)%Z eqn:Hgai; [|reflexivity].
  destruct H as [H|H]; [apply Z.eqb_eq in Hgai; contradiction|].
  cbn [negb]. rewrite <- (app_nil_r (gai_res r)).
  rewrite formConnection_loop_refused by assumption. reflexivity.
Qed.

Lemma formConnection_exits_when_nothing_connects_witness :
  formConnection (receiver [])
    (mkResolution 0 "" [mkCandidate (-1) 0 "Address family not supported";
                        mkCandidate 3 (-1) "Connection refused"])
  = Exited 2.
Proof.
  apply (@formConnection_exits_when_nothing_connects (receiver [])
           (mkResolution 0 "" [mkCandidate (-1) 0 "Address family not supported";
                               mkCandidate 3 (-1) "Connection refused"])).
  right. reflexivity.
Defined.

(** ** [main] *)

(** X16: a whole run of [main]. The arguments are accepted, the first line
    typed is a valid handle, one address of the list connects, and the user
    then types the lines of the exchanges [exs] and the quit command, the
    server answering each line with one frame. Then [main] returns 0, having
    sent on the socket one frame for each line, with the handle and ["> "]
    before the text and the terminator after it, and having printed the
    prompt for the handle, then for each exchange the prompt and the reply,
    then the prompt and the closing line. *)
Theorem main_runs_session
    (HOST_NAME_MAX fuel : nat) (stack : nat -> list char)
    (hostname port port' : list char) (v : Z) (r : resolution)
    (before after : list candidate) (c : candidate)
    (handle buffer good rest : list char) (exs : list (list char * list char))
    (p : proc) (caps : list nat) (tx_rest : list send_event)
    (chunks : list (list char)) (later : list char) (rx_rest : list recv_event) :
  validateArgs HOST_NAME_MAX hostname port 3 = Ok (v, port') ->
  (forall i, length (stack i) = MAX_BYTES) ->
  MAX_MSG <= length handle ->
  MAX_MSG * 2 <= length buffer ->
  gai_status r = 0%Z ->
  gai_res r = before ++ c :: after ->
  forallb refused before = true ->
  refused c = false ->
  valid_handle good = true ->
  forallb exchange_ok exs = true ->
  stdin p = good ++ LF :: session_input exs ++ rest ->
  length (good ++ LF :: session_input exs) + 1 < fuel ->
  tx (net p) = map SendAccepts caps ++ tx_rest ->
  accepts_some caps = true ->
  length (session_wire good exs) <= length caps ->
  rx (net p) = map RecvBytes chunks ++ rx_rest ->
  nonempty_chunks chunks = true ->
  concat chunks = session_replies exs ++ later ->
  exists w',
    main HOST_NAME_MAX fuel stack 3 hostname port r handle buffer p
    = Ok (0%Z, mkProc rest w')
    /\ wire w' = wire (net p) ++ session_wire good exs
    /\ stdout w' = stdout (net p) ++ handle_prompt :: session_output good exs
    /\ stderr w' = stderr (net p) ++ map refusal before.
Proof.
  intros Hargs Hstack Hhcap HL Hgai Hres Hbefore Hc Hgood Hexs Hin Hfuel
         Htx Hcaps Henough Hrx Hne Hreplies.
  unfold main. rewrite Hargs. cbn [bind].
  rewrite length_app in Hfuel. simpl in Hfuel.
  destruct fuel as [|fuel]; [lia|].
  destruct (@createValidatedHandle_step fuel p handle good _ Hhcap Hin
              (valid_handle_text_line _ Hgood) ltac:(lia)) as [h1 [Hlen1 Hrun]].
  rewrite Hgood in Hrun. destruct Hrun as [Hrun Hc1].
  rewrite Hrun. cbn [bind net stdin].
  unfold formConnection. rewrite Hgai, Hres. cbn [Z.eqb negb].
  rewrite formConnection_loop_refused by assumption.
  cbn [formConnection_loop app]. unfold refused in Hc.
  apply orb_false_iff in Hc as [Hs Hk]. rewrite Hs, Hk. cbn [bind].
  set (w1 := console (printf (net p) handle_prompt) [] (map refusal before)).
  destruct (@main_loop_run exs (S fuel) stack
              (mkProc (session_input exs ++ rest) w1) h1 good buffer rest
              caps tx_rest chunks later rx_rest Hstack Hc1 Hgood HL Hexs eq_refl
              ltac:(lia) Htx Hcaps Henough Hrx Hne Hreplies)
    as [w' [chunks' [Hloop [Hwire [Hout [Herr _]]]]]].
  rewrite Hloop. cbn [bind]. exists w'. split; [reflexivity|].
  rewrite Hwire, Hout, Herr. unfold w1, console. cbn [net wire stdout stderr printf].
  rewrite app_nil_r, <- app_assoc. auto.
Qed.

Lemma main_runs_session_witness :
  exists w',
    main 64 40 (fun _ => junk) 3 (text "localhost" ++ [NUL]) (text "8080" ++ [NUL])
      (mkResolution 0 "" [mkCandidate 3 (-1) "Connection refused"; mkCandidate 4 0 ""])
      junk (user_buffer "")
      (mkProc (text "bob" ++ LF :: session_input [(text "hi", text "yo")] ++ text "x")
         (mkWorld [RecvBytes (text "003yo" ++ [NUL])] (map SendAccepts (repeat 4 11))
            [] [] [] []))
    = Ok (0%Z, mkProc (text "x") w')
    /\ wire w' = [] ++ session_wire (text "bob") [(text "hi", text "yo")]
    /\ stdout w' = [] ++ handle_prompt
                      :: session_output (text "bob") [(text "hi", text "yo")]
    /\ stderr w' = [] ++ map refusal [mkCandidate 3 (-1) "Connection refused"].
Proof.
  apply (@main_runs_session 64 40 (fun _ => junk)
           (text "localhost" ++ [NUL]) (text "8080" ++ [NUL])
           (text "8080" ++ [NUL]) 1
           (mkResolution 0 "" [mkCandidate 3 (-1) "Connection refused"; mkCandidate 4 0 ""])
           [mkCandidate 3 (-1) "Connection refused"] [] (mkCandidate 4 0 "")
           junk (user_buffer "") (text "bob") (text "x") [(text "hi", text "yo")]
           (mkProc (text "bob" ++ LF :: session_input [(text "hi", text "yo")] ++ text "x")
              (mkWorld [RecvBytes (text "003yo" ++ [NUL])] (map SendAccepts (repeat 4 11))
                 [] [] [] []))
           (repeat 4 11) [] [text "003yo" ++ [NUL]] [] []).
  - by_evaluation.
  - reflexivity.
  - vm_compute. lia.
  - vm_compute. lia.
  - reflexivity.
  - reflexivity.
  - reflexivity.
  - reflexivity.
  - reflexivity.
  - reflexivity.
  - reflexivity.
  - vm_compute. lia.
  - cbn [net tx]. now rewrite app_nil_r.
  - reflexivity.
  - vm_compute. lia.
  - reflexivity.
  - reflexivity.
  - reflexivity.
Defined.

(** X17: when the server closes the connection instead of answering, the
    loop of [main] ends after the frame was sent: [main] prints that the server
    ended the connection and the closing line, and reads no more input. *)
Theorem main_loop_ends_when_server_closes
    (f : nat) (stack : nat -> list char) (p : proc)
    (handle h buffer t rest : list char)
    (caps : list nat) (tx_rest : list send_event) (rx_rest : list recv_event) :
  length (stack f) = MAX_BYTES ->
  cstr handle = Some h ->
  valid_handle h = true ->
  MAX_MSG * 2 <= length buffer ->
  text_line t = true ->
  length t <= MAX_MSG ->
  t <> quit_command ->
  stdin p = t ++ LF :: rest ->
  length t + 1 < f ->
  tx (net p) = map SendAccepts caps ++ tx_rest ->
  accepts_some caps = true ->
  length (sent_frame h t) <= length caps ->
  rx (net p) = RecvZero :: rx_rest ->
  exists w',
    main_loop (S f) stack p handle buffer = Ok (mkProc rest w')
    /\ wire w' = wire (net p) ++ sent_frame h t
    /\ stdout w' = stdout (net p) ++ [prompt_text h; server_ended; socket_closed]
    /\ stderr w' = stderr (net p)
    /\ rx w' = rx_rest.
Proof.
  intros Hstack Hhandle Hvalid HL Ht Hfit Hquit Hin Hfuel Htx Hcaps Henough Hrx.
  pose proof MAX_BYTES_val as HMB. pose proof INT_MAX_val as HIM.
  pose proof (valid_handle_length _ Hvalid) as Hh.
  pose proof (prompt_of_length h) as Hpl.
  unfold MAX_HANDLE_LEN in Hh. unfold MAX_MSG in Hfit, HL.
  assert (Hbody : length (prompt_of h ++ t) <= 512) by (rewrite length_app; lia).
  pose proof (@frame_of_length (prompt_of h ++ t) ltac:(lia)) as Hfl.
  unfold PREFIX_OFFSET in Hfl.
  assert (Hsl : length (sent_frame h t) = length (frame_of (prompt_of h ++ t)) + 1).
  { unfold sent_frame. rewrite length_app. reflexivity. }
  cbn [main_loop].
  destruct (@createValidatedMsg_run (stack f) handle h (length buffer)
              (Z.of_nat (length buffer)) Hstack Hhandle Hvalid
              ltac:(unfold MAX_MSG; lia) ltac:(lia) [] f p buffer t rest
              eq_refl eq_refl Ht ltac:(unfold MAX_MSG; lia) Hin
              ltac:(simpl; rewrite length_app; simpl; lia))
    as [b1 [Hrun [Hc1 Hlen1]]].
  destruct (list_eq_dec ascii_dec t quit_command) as [|_]; [contradiction|].
  rewrite Hrun. cbn [bind Z.eqb net stdin repeat length].
  set (w0 := console (net p) [prompt_text h] []) in *.
  destruct (@main_chatSend_sends w0 b1 _ caps tx_rest Hc1 Htx Hcaps
              ltac:(lia) ltac:(lia)) as [j [Hj Hsend]].
  rewrite Hsend. cbn [bind].
  set (w1 := mkWorld _ _ _ _ _ _) in *.
  unfold chatReceive, _chatReceiveHelper.
  rewrite helper_loop_step by (unfold PREFIX_OFFSET; lia).
  rewrite int_result_ok by (vm_compute; split; discriminate).
  cbn [bind]. rewrite (@recv_zero w1 rx_rest _ _ Hrx). cbn [bind Z.eqb].
  eexists. split; [reflexivity|].
  unfold w1, w0, console, sent_frame.
  cbn [printf set_rx log_recv wire stdout stderr rx].
  rewrite app_nil_r, <- !app_assoc. repeat split.
Qed.

Lemma main_loop_ends_when_server_closes_witness :
  exists w',
    main_loop 10 (fun _ => junk)
      (mkProc (text "hi" ++ LF :: text "more")
         (mkWorld [RecvZero] (map SendAccepts (repeat 4 11)) [] [] [] []))
      (text "bob" ++ [NUL]) (user_buffer "")
    = Ok (mkProc (text "more") w')
    /\ wire w' = [] ++ sent_frame (text "bob") (text "hi")
    /\ stdout w' = [] ++ [prompt_text (text "bob"); server_ended; socket_closed]
    /\ stderr w' = []
    /\ rx w' = [].
Proof.
  apply (@main_loop_ends_when_server_closes 9 (fun _ => junk)
           (mkProc (text "hi" ++ LF :: text "more")
              (mkWorld [RecvZero] (map SendAccepts (repeat 4 11)) [] [] [] []))
           (text "bob" ++ [NUL]) (text "bob") (user_buffer "") (text "hi")
           (text "more") (repeat 4 11) [] []).
  - reflexivity.
  - reflexivity.
  - reflexivity.
  - vm_compute. lia.
  - reflexivity.
  - vm_compute. lia.
  - discriminate.
  - reflexivity.
  - vm_compute. lia.
  - cbn [net tx]. now rewrite app_nil_r.
  - reflexivity.
  - vm_compute. lia.
  - reflexivity.
Defined.
